(** * app/app.py: house-price form, prediction formatting and blueprint layout

    A shallow embedding of [app/app.py] and the properties of its request
    handlers.

    Conventions of the embedding.
    - A Python [float] is an IEEE-754 binary64 value: a [spec_float] used at
      precision 53 and maximal exponent 1024, with the arithmetic of
      [SpecFloat] (round to nearest, ties to even).
    - A Python [str] is a [string]; its characters stand for the code points
      below 256.
    - A Python [int] is a [Z].
    - A call that can raise returns a [result]: [Ok] or [Raise] with the
      exception. *)

From Stdlib Require Import ZArith List String Ascii Bool Lia.
From Stdlib Require Import Permutation Sorted Reals Lra.
From Stdlib Require Import SpecFloat DecimalString.
Import ListNotations.

Open Scope string_scope.
Open Scope Z_scope.

Set Warnings "-register-all".

(** ** Exceptions and fallible computations *)

(** The exceptions met in the handlers: the [ValueError] that [parse_value]
    raises with a message of its own, and those of the built-in conversions
    and of attribute access. *)
Inductive exn : Type :=
| ValueError (msg : string)
| NanToInt                      (* ValueError: cannot convert float NaN to integer *)
| InfToInt                      (* OverflowError: cannot convert float infinity to integer *)
| IntTooLarge                   (* OverflowError: int too large to convert to float *)
| NotANumber (s : string)       (* ValueError: could not convert string to float: <repr(s)> *)
| BadFloatArgument (type_name : string)
                                (* TypeError: float() argument must be a string or a real
                                   number, not '<type_name>' *)
| NoAttribute (type_name attr : string)
                                (* AttributeError: '<type_name>' object has no attribute
                                   '<attr>' *)
| ModelError (msg : string).    (* anything the model raises *)

Inductive result (A : Type) : Type :=
| Ok (a : A)
| Raise (e : exn).
Arguments Ok {A} a.
Arguments Raise {A} e.

Definition bind {A B} (r : result A) (k : A -> result B) : result B :=
  match r with
  | Ok a => k a
  | Raise e => Raise e
  end.

Notation "x <- r ;; k" := (bind r (fun x => k))
  (at level 61, r at next level, right associativity).
Notation "' pat <- r ;; k" := (bind r (fun x => match x with pat => k end))
  (at level 61, pat pattern, r at next level, right associativity).

(** ** Strings: [str.strip], [str.lower], decimal digits *)

Definition code (c : ascii) : Z := Z.of_N (N_of_ascii c).

(** The characters with [str.isspace()] among the code points below 256. *)
Definition is_space (c : ascii) : bool :=
  let n := code c in
  ((9 <=? n) && (n <=? 13)) || ((28 <=? n) && (n <=? 32))
  || (n =? 133) || (n =? 160).

Fixpoint lstrip (s : string) : string :=
  match s with
  | String c s' => if is_space c then lstrip s' else s
  | EmptyString => EmptyString
  end.

Fixpoint rstrip (s : string) : string :=
  match s with
  | String c s' =>
      match rstrip s' with
      | EmptyString => if is_space c then EmptyString else String c EmptyString
      | t => String c t
      end
  | EmptyString => EmptyString
  end.

Definition strip (s : string) : string := rstrip (lstrip s).

(** The whitespace that [float] skips at both ends of its argument: the
    ASCII whitespace, and the whitespace above U+007F, which it first turns
    into spaces. Unlike [str.strip] it does not skip U+001C..U+001F. *)
Definition is_float_space (c : ascii) : bool :=
  let n := code c in
  ((9 <=? n) && (n <=? 13)) || (n =? 32) || (n =? 133) || (n =? 160).

Fixpoint float_lstrip (s : string) : string :=
  match s with
  | String c s' => if is_float_space c then float_lstrip s' else s
  | EmptyString => EmptyString
  end.

Fixpoint float_rstrip (s : string) : string :=
  match s with
  | String c s' =>
      match float_rstrip s' with
      | EmptyString => if is_float_space c then EmptyString else String c EmptyString
      | t => String c t
      end
  | EmptyString => EmptyString
  end.

Definition float_strip (s : string) : string := float_rstrip (float_lstrip s).

(** [str.lower] on the code points below 256: A-Z and the accented capitals
    U+00C0..U+00DE (but the multiplication sign U+00D7) move up by 32. *)
Definition lower_char (c : ascii) : ascii :=
  let n := code c in
  if ((65 <=? n) && (n <=? 90))
     || ((192 <=? n) && (n <=? 222) && negb (n =? 215))
  then ascii_of_N (Z.to_N (n + 32))
  else c.

Fixpoint lower (s : string) : string :=
  match s with
  | String c s' => String (lower_char c) (lower s')
  | EmptyString => EmptyString
  end.

Definition is_digit (c : ascii) : bool := (48 <=? code c) && (code c <=? 57).
Definition digit_val (c : ascii) : Z := code c - 48.

(** [str(n)] for an [int]. *)
Definition str_of_Z (z : Z) : string := NilZero.string_of_int (Z.to_int z).

(** [repr(s)] for a [str]: between single quotes, or double quotes when the
    text holds a single quote and no double quote; the quote and the
    backslash are escaped, tab, newline and return are written with their
    letter, and the other characters that are not printable (below U+0020,
    U+007F..U+00A0 and U+00AD) as [\xhh]. *)
Definition hex_digit (n : Z) : ascii :=
  ascii_of_N (Z.to_N (if n <? 10 then 48 + n else 87 + n)).

Definition is_printable (c : ascii) : bool :=
  let n := code c in
  (32 <=? n) && negb ((127 <=? n) && (n <=? 160)) && negb (n =? 173).

Fixpoint contains (c : ascii) (s : string) : bool :=
  match s with
  | String d s' => (d =? c)%char || contains c s'
  | EmptyString => false
  end.

Definition repr_char (quote c : ascii) : string :=
  if (c =? quote)%char || (c =? "\")%char
  then String "\" (String c EmptyString)
  else if (code c =? 9) then "\t"
  else if (code c =? 10) then "\n"
  else if (code c =? 13) then "\r"
  else if is_printable c then String c EmptyString
  else String "\" (String "x" (String (hex_digit (code c / 16))
                                   (String (hex_digit (code c mod 16)) EmptyString))).

Fixpoint repr_chars (quote : ascii) (s : string) : string :=
  match s with
  | String c s' => repr_char quote c ++ repr_chars quote s'
  | EmptyString => EmptyString
  end.

Definition repr_str (s : string) : string :=
  let quote := if contains "'" s && negb (contains "034" s) then "034"%char
               else "'"%char in
  String quote (repr_chars quote s ++ String quote EmptyString).

(** ** Floats *)

Definition float : Type := spec_float.

Definition prec : Z := 53.
Definition emax : Z := 1024.

Definition fadd : float -> float -> float := SFadd prec emax.
Definition fmul : float -> float -> float := SFmul prec emax.
Definition fdiv : float -> float -> float := SFdiv prec emax.
Definition fneg : float -> float := SFopp.
Definition flt : float -> float -> bool := SFltb.
Definition fle : float -> float -> bool := SFleb.

(** [float(n)] for an [int] that is not too large, rounded to nearest. *)
Definition float_of_Z (z : Z) : float := binary_normalize prec emax z 0 false.

(** The value of the decimal literal [m * 10^e10] with sign [neg], rounded to
    nearest: the integer itself, or the quotient by a power of ten. *)
Definition float_of_decimal (neg : bool) (m e10 : Z) : float :=
  match m with
  | Zpos _ =>
      if 0 <=? e10
      then binary_normalize prec emax (cond_Zopp neg (m * 10 ^ e10)) 0 neg
      else
        let '(q, e, l) := SFdiv_core_binary prec emax m 0 (10 ^ (- e10)) 0 in
        binary_round_aux prec emax neg q e l
  | _ => S754_zero neg
  end.

Definition is_nan (f : float) : bool :=
  match f with S754_nan => true | _ => false end.

Definition is_finite (f : float) : bool :=
  match f with S754_zero _ | S754_finite _ _ _ => true | _ => false end.

(** *** [float(s)] for a string

    After the whitespace that [float] skips is dropped the text must be
    [[sign] (floatnumber | "inf" | "infinity" | "nan")], the three words in
    any case, with
    [floatnumber ::= ([digitpart] "." digitpart | digitpart ["."]) [exponent]],
    [digitpart ::= digit (["_"] digit)*] and
    [exponent ::= ("e" | "E") [sign] digitpart]. *)

(** The rest of a digit part after its first digit: [acc] is the number read
    so far and [n] the count of its digits. *)
Fixpoint digits_tail (acc n : Z) (s : string) : Z * Z * string :=
  match s with
  | String c s' =>
      if is_digit c then digits_tail (10 * acc + digit_val c) (n + 1) s'
      else if (c =? "_")%char then
        match s' with
        | String d s'' =>
            if is_digit d
            then digits_tail (10 * acc + digit_val d) (n + 1) s''
            else (acc, n, s)
        | EmptyString => (acc, n, s)
        end
      else (acc, n, s)
  | EmptyString => (acc, n, s)
  end.

Definition digitpart (acc : Z) (s : string) : option (Z * Z * string) :=
  match s with
  | String c s' =>
      if is_digit c then Some (digits_tail (10 * acc + digit_val c) 1 s')
      else None
  | EmptyString => None
  end.

(** Mantissa, number of digits after the point, and the text that follows. *)
Definition parse_number (s : string) : option (Z * Z * string) :=
  match digitpart 0 s with
  | Some (m, _, rest) =>
      match rest with
      | String "."%char rest' =>
          match digitpart m rest' with
          | Some r => Some r
          | None => Some (m, 0, rest')
          end
      | _ => Some (m, 0, rest)
      end
  | None =>
      match s with
      | String "."%char rest' => digitpart 0 rest'
      | _ => None
      end
  end.

Definition parse_sign (s : string) : bool * string :=
  match s with
  | String "-"%char s' => (true, s')
  | String "+"%char s' => (false, s')
  | _ => (false, s)
  end.

(** The exponent, which must reach the end of the text. *)
Definition parse_exponent (s : string) : option Z :=
  match s with
  | EmptyString => Some 0
  | String c s' =>
      if (c =? "e")%char || (c =? "E")%char then
        let '(neg, t) := parse_sign s' in
        match digitpart 0 t with
        | Some (v, _, EmptyString) => Some (cond_Zopp neg v)
        | _ => None
        end
      else None
  end.

Definition parse_float (s : string) : option float :=
  let '(neg, t) := parse_sign s in
  let w := lower t in
  if (w =? "inf")%string || (w =? "infinity")%string then Some (S754_infinity neg)
  else if (w =? "nan")%string then Some S754_nan
  else
    match parse_number t with
    | Some (m, k, rest) =>
        match parse_exponent rest with
        | Some e => Some (float_of_decimal neg m (e - k))
        | None => None
        end
    | None => None
    end.

(** [float(s)]: [None] stands for the [ValueError] of a text that is not a
    number. *)
Definition float_of_string (s : string) : option float := parse_float (float_strip s).

(** *** [int(x)] and the format [.2f] *)

(** [int(f)]: truncation towards zero. *)
Definition int_of_float (f : float) : result Z :=
  match f with
  | S754_nan => Raise NanToInt
  | S754_infinity _ => Raise InfToInt
  | S754_zero _ => Ok 0
  | S754_finite s m e => Ok (cond_Zopp s (Z.shiftl (Zpos m) e))
  end.

(** The integer nearest to [a / b], ties to even, for [0 <= a] and [0 < b]. *)
Definition div_half_even (a b : Z) : Z :=
  let q := a / b in
  match 2 * (a mod b) ?= b with
  | Lt => q
  | Gt => q + 1
  | Eq => if Z.even q then q else q + 1
  end.

(** The number of hundredths in [m * 2^e], rounded to nearest. *)
Definition hundredths (m : positive) (e : Z) : Z :=
  if 0 <=? e then Zpos m * 2 ^ e * 100
  else div_half_even (Zpos m * 100) (2 ^ (- e)).

Definition two_digits (n : Z) : string :=
  if n <? 10 then "0" ++ str_of_Z n else str_of_Z n.

Definition fixed2 (neg : bool) (h : Z) : string :=
  (if neg then "-" else "") ++ str_of_Z (h / 100) ++ "." ++ two_digits (h mod 100).

(** [f"{x:.2f}"] *)
Definition format_2f (x : float) : string :=
  match x with
  | S754_nan => "nan"
  | S754_infinity s => if s then "-inf" else "inf"
  | S754_zero s => fixed2 s 0
  | S754_finite s m e => fixed2 s (hundredths m e)
  end.

(** ** Python values *)

Inductive pyval : Type :=
| PyNone
| PyBool (b : bool)
| PyInt (z : Z)
| PyFloat (f : float)
| PyStr (s : string)
| PyList (l : list pyval)
| PyDict (d : list (string * pyval)).

(** [type(v).__name__] *)
Definition type_name (v : pyval) : string :=
  match v with
  | PyNone => "NoneType"
  | PyBool _ => "bool"
  | PyInt _ => "int"
  | PyFloat _ => "float"
  | PyStr _ => "str"
  | PyList _ => "list"
  | PyDict _ => "dict"
  end.

(** [float(v)] *)
Definition py_float (v : pyval) : result float :=
  match v with
  | PyFloat f => Ok f
  | PyInt z =>
      let f := float_of_Z z in
      if is_finite f then Ok f else Raise IntTooLarge
  | PyBool b => Ok (float_of_Z (if b then 1 else 0))
  | PyStr s =>
      match float_of_string s with
      | Some f => Ok f
      | None => Raise (NotANumber s)
      end
  | PyNone | PyList _ | PyDict _ => Raise (BadFloatArgument (type_name v))
  end.

(** [bool(v)], as [not v] tests it. *)
Definition truthy (v : pyval) : bool :=
  match v with
  | PyNone => false
  | PyBool b => b
  | PyInt z => negb (z =? 0)
  | PyFloat f => negb (SFeqb f (S754_zero false))
  | PyStr s => negb (s =? "")%string
  | PyList l => match l with [] => false | _ => true end
  | PyDict d => match d with [] => false | _ => true end
  end.

Definition is_list (v : pyval) : bool :=
  match v with PyList _ => true | _ => false end.

(** [d.get(key, default)] on the items of a dict. *)
Fixpoint dict_get (d : list (string * pyval)) (key : string) (default : pyval) : pyval :=
  match d with
  | [] => default
  | (k, v) :: d' => if (k =? key)%string then v else dict_get d' key default
  end.

(** [v.get(key, default)]: only a dict has the method. *)
Definition py_get (v : pyval) (key : string) (default : pyval) : result pyval :=
  match v with
  | PyDict d => Ok (dict_get d key default)
  | _ => Raise (NoAttribute (type_name v) "get")
  end.

(** [request.form.get(name)]: the first value sent under the name. *)
Fixpoint form_get (form : list (string * string)) (name : string) : option string :=
  match form with
  | [] => None
  | (k, v) :: form' => if (k =? name)%string then Some v else form_get form' name
  end.

(** ** The form parser *)

Definition FEATURES : list string :=
  [ "area"; "bedrooms"; "bathrooms"; "stories"; "mainroad"; "guestroom";
    "basement"; "hotwaterheating"; "airconditioning"; "parking"; "prefarea";
    "furnishingstatus" ].

Definition mapping : list (string * Z) :=
  [ ("unfurnished", 0); ("semi-furnished", 1); ("furnished", 2) ].

Fixpoint mapping_get (m : list (string * Z)) (key : string) : option Z :=
  match m with
  | [] => None
  | (k, v) :: m' => if (k =? key)%string then Some v else mapping_get m' key
  end.

(** The three messages of [parse_value]. *)
Definition MissingInput (name : string) : exn :=
  ValueError ("Missing input for: " ++ name).
Definition UnrecognizedCategory (raw : string) : exn :=
  ValueError ("Unrecognized furnishingstatus: " ++ raw).
Definition InvalidNumeric (name raw : string) : exn :=
  ValueError ("Invalid numeric input for " ++ name ++ ": " ++ raw).

Definition parse_value (name : string) (raw_value : option string) : result float :=
  match raw_value with
  | None => Raise (MissingInput name)
  | Some v =>
      let raw := strip v in
      if (raw =? "")%string then Raise (MissingInput name)
      else if (name =? "furnishingstatus")%string then
        match float_of_string raw with
        | Some f => Ok f
        | None =>
            let key := lower raw in
            match mapping_get mapping key with
            | Some n => Ok (float_of_Z n)
            | None => Raise (UnrecognizedCategory raw)
            end
        end
      else
        match float_of_string raw with
        | Some f => Ok f
        | None => Raise (InvalidNumeric name raw)
        end
  end.

(** The loop of [predict] over the features: the values in order, or the
    exception of the first field that fails. *)
Fixpoint collect_values (form : list (string * string)) (feats : list string)
  : result (list float) :=
  match feats with
  | [] => Ok []
  | feat :: feats' =>
      val <- parse_value feat (form_get form feat) ;;
      vals <- collect_values form feats' ;;
      Ok (val :: vals)
  end.

(** ** The prediction *)

Definition f100000 : float := Eval vm_compute in float_of_decimal false 100000 0.

(** The body of the [try] that builds [prediction_text], and the body of its
    [except Exception]. *)
Definition lakhs_text (pred : pyval) : result string :=
  f <- py_float pred ;;
  let lakhs := fdiv f f100000 in
  Ok (format_2f lakhs ++ " L").

Definition plain_text (pred : pyval) : result string :=
  f <- py_float pred ;;
  Ok (format_2f f).

Definition format_prediction (pred : pyval) : result string :=
  match lakhs_text pred with
  | Ok text => Ok text
  | Raise _ => plain_text pred
  end.

Inductive page : Type :=
| EstimatePage (prediction : string) (total_area : option float)
| IndexPage (prediction : string).

(** ** The blueprint: data and constants *)

Record room : Type := Room { room_name : string; area : float }.

(** A drawn rectangle [[x, y, x + w, y + h]] and the text put at
    [(x + 8, y + 8)]. *)
Record rect : Type := Rect { rx : Z; ry : Z; rw : Z; rh : Z; rtext : string }.

(** The state of the placement loop: the cursor [(x, y)], the height of the
    current row, and the rectangles drawn so far, oldest first. *)
Record cursor : Type :=
  Cursor { cur_x : Z; cur_y : Z; cur_max_row_height : Z; cur_drawn : list rect }.

(** The canvas after drawing: the rectangles in drawing order and the footer. *)
Record image : Type := Image { rects : list rect; footer : string }.

Inductive response : Type :=
| Json (status : Z) (error : string)     (* jsonify({"error": error}), status *)
| Png (img : image).                     (* send_file(...), status 200 *)

Definition status_of (r : response) : Z :=
  match r with
  | Json status _ => status
  | Png _ => 200
  end.

Definition img_w : Z := 1500.
Definition img_h : Z := 1000.
Definition padding : Z := 16.
Definition base_row_height : Z := 200.
Definition available_area_pixels : Z := (img_w - padding * 2) * (img_h - padding * 2).

Definition f0 : float := S754_zero false.
Definition f1 : float := Eval vm_compute in float_of_decimal false 1 0.
Definition f1_8 : float := Eval vm_compute in float_of_decimal false 18 (-1).
Definition f1_4 : float := Eval vm_compute in float_of_decimal false 14 (-1).
Definition f0_0005 : float := Eval vm_compute in float_of_decimal false 5 (-4).

Definition newline : string := String (ascii_of_N 10) EmptyString.

(** [max(a, b)] on floats: [b] when it is greater, else the first one. *)
Definition fmax (a b : float) : float := if flt a b then b else a.

Definition list_items (v : pyval) : list pyval :=
  match v with PyList l => l | _ => [] end.

(** [sorted(l, key=key)]: the comparisons are [<] on the keys, and an item
    goes before the first one whose key is not smaller, so that items of
    equal key keep their order. *)
Fixpoint insert_by {A} (key : A -> float) (x : A) (l : list A) : list A :=
  match l with
  | [] => [x]
  | y :: l' => if flt (key y) (key x) then y :: insert_by key x l' else x :: l
  end.

Fixpoint sorted {A} (key : A -> float) (l : list A) : list A :=
  match l with
  | [] => []
  | x :: l' => insert_by key x (sorted key l')
  end.

Section Handlers.

(** What the interpreter and the loaded model provide: the message of a
    built-in exception, [str(v)] for a value that is not a string, and
    [model.predict(X)[0]] for the row of feature values. *)
Variable builtin_text : exn -> string.
Variable py_repr : pyval -> string.
Variable model_predict : list float -> result pyval.

(** [str(e)] *)
Definition exn_text (e : exn) : string :=
  match e with
  | ValueError msg => msg
  | ModelError msg => msg
  | _ => builtin_text e
  end.

(** [str(v)] *)
Definition py_str (v : pyval) : string :=
  match v with
  | PyStr s => s
  | _ => py_repr v
  end.

Definition form_total_area (form : list (string * string)) : option float :=
  match form_get form "area" with
  | Some s => float_of_string s
  | None => None
  end.

Definition predict (form : list (string * string)) : page :=
  match (values <- collect_values form FEATURES ;;
         pred <- model_predict values ;;
         prediction_text <- format_prediction pred ;;
         Ok (EstimatePage prediction_text (form_total_area form))) with
  | Ok p => p
  | Raise e => IndexPage ("Error: " ++ exn_text e)
  end.

(** ** The split page *)

Definition f1000 : float := Eval vm_compute in float_of_decimal false 1000 0.

(** What [split] renders: "split.html" with its [total_area]. *)
Inductive split_page : Type :=
| SplitPage (total_area : float).

(** [split]: [args] are the query parameters, read with [request.args.get]. *)
Definition split (args : list (string * string)) : split_page :=
  let area := form_get args "area" in
  SplitPage
    match area with
    | Some text =>
        match float_of_string text with
        | Some f => f
        | None => f1000
        end
    | None => f1000
    end.

(** ** The blueprint *)

(** *** Sanitizing the rooms *)

(** The loop over [rooms], with the list and the sum built so far. *)
Fixpoint sanitize (rooms : list pyval) (sanitized : list room) (total_area : float)
  : result (list room * float) :=
  match rooms with
  | [] => Ok (sanitized, total_area)
  | r :: rooms' =>
      v <- py_get r "room" (PyStr "Room") ;;
      let name := py_str v in
      let area := match (a <- py_get r "area" (PyInt 0) ;; py_float a) with
                  | Ok f => f
                  | Raise _ => f0
                  end in
      if flt f0 area
      then sanitize rooms' (sanitized ++ [Room name area]) (fadd total_area area)
      else sanitize rooms' sanitized total_area
  end.

(** *** Placing the rooms *)

(** [w] and [h] of a room, each the [int] of a float expression. *)
Definition room_width (px_per_sqft : float) (r : room) : result Z :=
  n <- int_of_float (fmul (fmul (area r) px_per_sqft) f1_8) ;;
  Ok (Z.max 60 n).

Definition room_height (total_area : float) (r : room) : result Z :=
  n <- int_of_float
         (fmul (float_of_Z base_row_height)
               (fadd f1 (fmul (fdiv (area r) total_area) f1_4))) ;;
  Ok (Z.max 60 n).

Definition room_text (r : room) : result string :=
  n <- int_of_float (area r) ;;
  Ok (room_name r ++ newline ++ str_of_Z n ++ " sq.ft").

(** One turn of the loop over [rooms_sorted]: the cursor after the room
    is drawn, or [None] when the second test leaves the loop ([break]). *)
Definition place_room (px_per_sqft total_area : float) (c : cursor) (r : room)
  : result (option cursor) :=
  w <- room_width px_per_sqft r ;;
  h <- room_height total_area r ;;
  let '(x, y, max_row_height) :=
    if cur_x c + w + padding >? img_w
    then (padding, cur_y c + cur_max_row_height c + padding, 0)
    else (cur_x c, cur_y c, cur_max_row_height c) in
  if y + h + padding >? img_h then Ok None
  else
    text <- room_text r ;;
    Ok (Some (Cursor (x + w + padding) y (Z.max max_row_height h)
                     (cur_drawn c ++ [Rect x y w h text]))).

Fixpoint place (px_per_sqft total_area : float) (rooms : list room) (c : cursor)
  : result (list rect) :=
  match rooms with
  | [] => Ok (cur_drawn c)
  | r :: rooms' =>
      o <- place_room px_per_sqft total_area c r ;;
      match o with
      | Some c' => place px_per_sqft total_area rooms' c'
      | None => Ok (cur_drawn c)
      end
  end.

Definition px_per_sqft_of (total_area : float) : float :=
  fdiv (fmul (float_of_Z available_area_pixels) f0_0005) (fmax f1 total_area).

Definition footer_of (total_area : float) : result string :=
  n <- int_of_float total_area ;;
  Ok ("Total: " ++ str_of_Z n ++ " sq.ft").

(** *** The handler *)

Definition blueprint_body (payload : pyval) : result response :=
  rooms <- py_get payload "rooms" (PyList []) ;;
  if negb (truthy rooms) || negb (is_list rooms)
  then Ok (Json 400 "No rooms provided or invalid format")
  else
    '(sanitized, total_area) <- sanitize (list_items rooms) [] f0 ;;
    if fle total_area f0
    then Ok (Json 400 "Total area must be > 0")
    else
      let rooms_sorted := sorted (fun r => fneg (area r)) sanitized in
      drawn <- place (px_per_sqft_of total_area) total_area rooms_sorted
                 (Cursor padding padding 0 []) ;;
      footer_text <- footer_of total_area ;;
      Ok (Png (Image drawn footer_text)).

Definition generate_blueprint (payload : pyval) : response :=
  match blueprint_body payload with
  | Ok resp => resp
  | Raise ex => Json 500 (exn_text ex)
  end.

End Handlers.

(** * Definitions for the specification *)

(** ** The form parser *)

(** A text that does not begin with whitespace. *)
Definition head_not_space (s : string) : Prop :=
  match s with
  | String c _ => is_space c = false
  | EmptyString => True
  end.

(** The furnishing status as the specification words it: a number first, then
    the lower-cased word in the table, else [UnrecognizedCategory]. *)
Definition furnishing_by_spec (trimmed : string) : result float :=
  match float_of_string trimmed with
  | Some f => Ok f
  | None =>
      let word := lower trimmed in
      if (word =? "unfurnished")%string then Ok (float_of_Z 0)
      else if (word =? "semi-furnished")%string then Ok (float_of_Z 1)
      else if (word =? "furnished")%string then Ok (float_of_Z 2)
      else Raise (UnrecognizedCategory trimmed)
  end.

(** ** Rounding *)

(** Whether a right shift has dropped a non-zero bit. *)
Definition lost (mrs : shr_record) : bool := shr_r mrs || shr_s mrs.

(** What [binary_round_aux] returns for the final mantissa and exponent. *)
Definition rounded (prec emax : Z) (sx : bool) (m3 e3 : Z) : spec_float :=
  match m3 with
  | Z0 => S754_zero sx
  | Zpos p => if e3 <=? emax - prec then S754_finite sx p e3 else S754_infinity sx
  | Zneg _ => S754_nan
  end.

(** The real numbers [2^e] and [m * 2^e]. *)
Definition bpow (e : Z) : R := powerRZ 2 e.

Definition F2R (m e : Z) : R := (IZR m * bpow e)%R.

(** The value of a float; infinities and NaN are given 0. *)
Definition SF2R (x : spec_float) : R :=
  match x with
  | S754_finite s m e => F2R (cond_Zopp s (Zpos m)) e
  | _ => 0%R
  end.

(** A positive mantissa on the grid of its own magnitude. *)
Definition canonical (prec emax : Z) (m e : Z) : Prop :=
  0 < m /\ e = fexp prec emax (Zdigits2 m + e).

(** A positive finite float in canonical form. *)
Definition posfin (prec emax : Z) (x : spec_float) : Prop :=
  match x with
  | S754_finite false m e => canonical prec emax (Zpos m) e /\ e <= emax - prec
  | _ => False
  end.

(** Zero or a positive finite float. *)
Definition nonneg (prec emax : Z) (x : spec_float) : Prop :=
  x = S754_zero false \/ posfin prec emax x.

(** [F] is a rounding of the non-negative real [v]: it is zero, positive and
    finite, or plus infinity; it is at most any representable number above
    [v] and at least any one below [v]; and when finite it exceeds [v] by at
    most one unit in the last place. *)
Definition rounds_to (prec emax : Z) (v : R) (F : spec_float) : Prop :=
  (nonneg prec emax F \/ F = S754_infinity false) /\
  (forall r, posfin prec emax r -> (v <= SF2R r)%R ->
     nonneg prec emax F /\ (SF2R F <= SF2R r)%R) /\
  (forall s, posfin prec emax s -> (SF2R s <= v)%R ->
     F = S754_infinity false \/ (posfin prec emax F /\ (SF2R s <= SF2R F)%R)) /\
  (nonneg prec emax F ->
     (SF2R F <= v + v * bpow (1 - prec) + bpow (emin prec emax))%R).

(** ** Binary64 numbers *)

Definition finf : float := S754_infinity false.

(** A positive finite float, zero or such a float, a rounding of a real. *)
Definition pos64 : float -> Prop := posfin prec emax.
Definition nonneg64 : float -> Prop := nonneg prec emax.
Definition rounds64 : R -> float -> Prop := rounds_to prec emax.

(** A positive float, finite or not. *)
Definition positive64 (x : float) : Prop := pos64 x \/ x = finf.

(** The order of two positive floats, the second one possibly infinite. *)
Definition le64 (x y : float) : Prop :=
  y = finf \/ (pos64 x /\ pos64 y /\ (SF2R x <= SF2R y)%R).

(** [x > 0], as the test [area > 0] computes it. *)
Definition above_zero (x : float) : Prop := flt f0 x = true.

(** The float [available_area_pixels * 0.0005], and the floats 200, 480, 711,
    1280 and [1.0 + 1.4]. *)
Definition c0 : float := S754_finite false 6249729645395051 (-43).
Definition f200 : float := S754_finite false 7036874417766400 (-45).
Definition f480 : float := S754_finite false 8444249301319680 (-44).
Definition f711 : float := S754_finite false 6254022138789888 (-43).
Definition f1280 : float := S754_finite false 5629499534213120 (-42).
Definition f2_4 : float := S754_finite false 5404319552844595 (-51).

(** The floats 100, 500, 600 and 1e308. *)
Definition f100 : float := S754_finite false 7036874417766400 (-46).
Definition f500 : float := S754_finite false 8796093022208000 (-44).
Definition f600 : float := S754_finite false 5277655813324800 (-43).
Definition f1e308 : float := S754_finite false 5010420900022432 971.

(** ** Requests whose floats are binary64 numbers *)

(** A value as the JSON decoder builds it: a float is a binary64 number. *)
Definition valid_value (v : pyval) : Prop :=
  match v with
  | PyFloat f => valid_binary prec emax f = true
  | _ => True
  end.

Definition valid_entry (d : list (string * pyval)) : Prop :=
  valid_value (dict_get d "area" (PyInt 0)).

Definition valid_room_value (r : pyval) : Prop :=
  match r with
  | PyDict e => valid_entry e
  | _ => True
  end.

Definition valid_rooms (v : pyval) : Prop :=
  match v with
  | PyList l => Forall valid_room_value l
  | _ => True
  end.

(** ** Sanitizing, as the specification words it *)

(** The area and the room that an entry is coerced to. *)
Definition coerce_area (d : list (string * pyval)) : float :=
  match py_float (dict_get d "area" (PyInt 0)) with
  | Ok f => f
  | Raise _ => f0
  end.

Definition coerce_room (py_repr : pyval -> string) (d : list (string * pyval)) : room :=
  Room (py_str py_repr (dict_get d "room" (PyStr "Room"))) (coerce_area d).

(** The rooms kept, in the order of the entries, and the sum of their areas. *)
Definition kept_rooms (py_repr : pyval -> string) (ds : list (list (string * pyval)))
  : list room :=
  filter (fun r => flt f0 (area r)) (map (coerce_room py_repr) ds).

Definition sum_areas (l : list room) : float := fold_left fadd (map area l) f0.

(** ** The order of the rooms *)

(** The order in which [sorted] leaves two items: the second key is not
    below the first. *)
Definition key_ordered {A : Type} (key : A -> float) (x y : A) : Prop :=
  flt (key y) (key x) = false.

(** The key of [generate_blueprint], rooms of positive area, and two rooms
    in descending order of area. *)
Definition by_area (r : room) : float := fneg (area r).
Definition positive_area (r : room) : Prop := above_zero (area r).
Definition descending (r1 r2 : room) : Prop := fle (area r2) (area r1) = true.

(** ** The placement loop *)

(** The rooms of a prefix, one turn each: the cursor reached, or [None] when
    one of them left the loop. *)
Fixpoint place_prefix (px_per_sqft total_area : float) (rooms : list room) (c : cursor)
  : result (option cursor) :=
  match rooms with
  | [] => Ok (Some c)
  | r :: rooms' =>
      o <- place_room px_per_sqft total_area c r ;;
      match o with
      | Some c' => place_prefix px_per_sqft total_area rooms' c'
      | None => Ok None
      end
  end.

(** Where a room of width [w] goes after the wrap test, before it is drawn. *)
Definition tentative_y (c : cursor) (w : Z) : Z :=
  if cur_x c + w + padding >? img_w
  then cur_y c + cur_max_row_height c + padding
  else cur_y c.

Definition tentative_x (c : cursor) (w : Z) : Z :=
  if cur_x c + w + padding >? img_w then padding else cur_x c.

(** The cursor before the first room. *)
Definition start : cursor := Cursor padding padding 0 [].

(** A cursor inside the padding, a rectangle that fits between the top and
    the bottom padding, and one that fits before the right padding. *)
Definition cursor_ok (c : cursor) : Prop :=
  padding <= cur_x c /\ padding <= cur_y c /\ 0 <= cur_max_row_height c.

Definition rect_vertical (rc : rect) : Prop :=
  padding <= rx rc /\ padding <= ry rc /\ ry rc + rh rc + padding <= img_h.

Definition rect_horizontal (rc : rect) : Prop := rx rc + rw rc + padding <= img_w.

(** ** The handler *)

(** The value under "rooms" in the payload. *)
Definition rooms_of (d : list (string * pyval)) : pyval := dict_get d "rooms" (PyList []).

(** The rest of the handler once the rooms are sanitized. *)
Definition render (bt : exn -> string) (s : list room) (T : float) : response :=
  if fle T f0 then Json 400 "Total area must be > 0"
  else
    match (drawn <- place (px_per_sqft_of T) T (sorted by_area s) start ;;
           footer_text <- footer_of T ;;
           Ok (Png (Image drawn footer_text))) with
    | Ok resp => resp
    | Raise ex => Json 500 (exn_text bt ex)
    end.

(** ** Sample requests *)

(** The wording of CPython for the built-in exceptions. *)
Definition cpython_text (e : exn) : string :=
  match e with
  | ValueError msg | ModelError msg => msg
  | NanToInt => "cannot convert float NaN to integer"
  | InfToInt => "cannot convert float infinity to integer"
  | IntTooLarge => "int too large to convert to float"
  | NotANumber s => "could not convert string to float: " ++ repr_str s
  | BadFloatArgument type_name =>
      "float() argument must be a string or a real number, not '" ++ type_name ++ "'"
  | NoAttribute type_name attr =>
      "'" ++ type_name ++ "' object has no attribute '" ++ attr ++ "'"
  end.

(** A [str] for the values that are not strings. *)
Definition opaque_repr (v : pyval) : string := "<object>".

(** A form with every field filled in: "1" everywhere, "7" for the
    furnishing status. *)
Definition sample_form : list (string * string) :=
  (map (fun feat => (feat, "1")) (removelast FEATURES)
   ++ [("furnishingstatus", "7")])%list.

(** The same form with blanks for the bedrooms. *)
Definition blank_bedrooms_form : list (string * string) :=
  ("bedrooms", "   ") :: sample_form.

(** [{"room": name, "area": a}] and [{"rooms": [...]}] *)
Definition room_entry (name : string) (a : pyval) : pyval :=
  PyDict [("room", PyStr name); ("area", a)].

Definition rooms_payload (rooms : list pyval) : pyval := PyDict [("rooms", PyList rooms)].

(** [[{"room": "Hall", "area": 500}, {"room": "Kitchen", "area": 100}]] *)
Definition hall_kitchen : list pyval :=
  [room_entry "Hall" (PyInt 500); room_entry "Kitchen" (PyInt 100)].

(** Eighty rooms of 100 sq.ft: the canvas holds seventy-six of them. *)
Definition eighty_rooms : list pyval := repeat (room_entry "Room" (PyInt 100)) 80.

(** Seventy-seven rooms of 1e308 sq.ft: their sum is infinite. *)
Definition huge_rooms : list pyval := repeat (room_entry "Room" (PyFloat f1e308)) 77.



(** [[{"room": "A", "area": "inf"}]] *)
Definition infinite_room : list pyval := [room_entry "A" (PyStr "inf")].

(** The sanitized rooms and the total of a list of entries. *)
Definition sanitized_of (rooms : list pyval) : list room :=
  match sanitize opaque_repr rooms [] f0 with
  | Ok (s, _) => s
  | Raise _ => []
  end.

Definition total_of (rooms : list pyval) : float :=
  match sanitize opaque_repr rooms [] f0 with
  | Ok (_, T) => T
  | Raise _ => f0
  end.

(** The cursor after the first [n] sorted rooms of a list of entries. *)
Definition cursor_after (rooms : list pyval) (n : nat) : cursor :=
  let T := total_of rooms in
  match place_prefix (px_per_sqft_of T) T
          (firstn n (sorted by_area (sanitized_of rooms))) start with
  | Ok (Some c) => c
  | _ => start
  end.

(** ** Blank values *)

(** A text made of whitespace only, and a text with no whitespace. *)
Definition blank (s : string) : Prop :=
  forall c, In c (list_ascii_of_string s) -> is_space c = true.

Definition plain (s : string) : Prop :=
  forall c, In c (list_ascii_of_string s) -> is_space c = false.

(** ** The layout of the rectangles *)

(** A value that has the method [get]: a dict. *)
Definition is_dict (v : pyval) : bool :=
  match v with PyDict _ => true | _ => false end.

(** The rectangle [r2], drawn after [r1], is in the row of [r1] and at least
    the padding to its right, or at least the padding below it. *)
Definition separated (r1 r2 : rect) : Prop :=
  (ry r1 = ry r2 /\ rx r1 + rw r1 + padding <= rx r2)
  \/ ry r1 + rh r1 + padding <= ry r2.

(** A rectangle drawn before the cursor [c]: in the current row, left of the
    cursor and not higher than the row, or above the current row. *)
Definition behind (c : cursor) (rc : rect) : Prop :=
  (ry rc = cur_y c /\ rx rc + rw rc + padding <= cur_x c
   /\ rh rc <= cur_max_row_height c)
  \/ ry rc + rh rc + padding <= cur_y c.

(** A cursor inside the padding whose rectangles are apart from each other
    and behind it. *)
Definition laid_out (c : cursor) : Prop :=
  cursor_ok c /\ ForallOrdPairs separated (cur_drawn c) /\ Forall (behind c) (cur_drawn c).

(** The rectangle of a room: its computed width, height and text. *)
Definition drawn_as (px_per_sqft total_area : float) (r : room) (rc : rect) : Prop :=
  room_width px_per_sqft r = Ok (rw rc) /\
  room_height total_area r = Ok (rh rc) /\
  room_text r = Ok (rtext rc).

(** The sizes that the rooms of a request get. *)
Definition size_ok (w h : Z) : Prop := 60 <= w <= 1280 /\ 200 <= h <= 480.

(** A cursor in row [k] (from 0) after [i] rectangles of that row, with at
    most [19 * k + i] rectangles drawn. *)
Definition within_capacity (c : cursor) : Prop :=
  exists k i,
    0 <= k /\ 0 <= i <= 19 /\
    padding + 216 * k <= cur_y c /\
    padding + 76 * i <= cur_x c /\
    (cur_x c = padding \/ 200 <= cur_max_row_height c) /\
    0 <= cur_max_row_height c /\
    Z.of_nat (List.length (cur_drawn c)) <= 19 * k + i /\
    Z.of_nat (List.length (cur_drawn c)) <= 76.

(** The rectangle [r2] follows [r1] in the flow: next to it in its row,
    exactly the padding after its right edge, or first of a row below, at
    the left padding. *)
Definition next_to (r1 r2 : rect) : Prop :=
  (ry r2 = ry r1 /\ rx r2 = rx r1 + rw r1 + padding)
  \/ (rx r2 = padding /\ ry r1 + rh r1 + padding <= ry r2).

(** The cursor stands right after the rectangle drawn last. *)
Definition after_last (c : cursor) : Prop :=
  match rev (cur_drawn c) with
  | [] => True
  | rc :: _ =>
      cur_y c = ry rc /\ cur_x c = rx rc + rw rc + padding
      /\ rh rc <= cur_max_row_height c
  end.

Definition in_flow (c : cursor) : Prop :=
  0 <= cur_max_row_height c /\ Sorted next_to (cur_drawn c) /\ after_last c.

(** * Properties *)

(** ** [strip] *)

Lemma lstrip_head s : head_not_space (lstrip s).
Proof.
  induction s as [|c s IH]; simpl; [exact I|].
  destruct (is_space c) eqn:E; [exact IH | exact E].
Qed.

Lemma lstrip_fixed s : head_not_space s -> lstrip s = s.
Proof.
  destruct s as [|c s]; simpl; [reflexivity|].
  intros ->. reflexivity.
Qed.

Lemma rstrip_head s : head_not_space s -> head_not_space (rstrip s).
Proof.
  destruct s as [|c s]; simpl; [trivial|].
  intros H. destruct (rstrip s); simpl; [rewrite H; simpl|]; exact H.
Qed.

Lemma rstrip_idem s : rstrip (rstrip s) = rstrip s.
Proof.
  induction s as [|c s IH]; simpl; [reflexivity|].
  destruct (rstrip s) as [|d t] eqn:E.
  - destruct (is_space c) eqn:Ec; simpl; [reflexivity|].
    rewrite Ec. reflexivity.
  - change (rstrip (String c (String d t))) with
      (match rstrip (String d t) with
       | EmptyString => if is_space c then EmptyString else String c EmptyString
       | t' => String c t'
       end).
    rewrite IH. reflexivity.
Qed.

Lemma strip_idem s : strip (strip s) = strip s.
Proof.
  unfold strip.
  rewrite (lstrip_fixed (rstrip (lstrip s))).
  - apply rstrip_idem.
  - apply rstrip_head, lstrip_head.
Qed.

Lemma rstrip_spaces s :
  (forall c, In c (list_ascii_of_string s) -> is_space c = true) -> rstrip s = "".
Proof.
  induction s as [|c s IH]; simpl; intros H; [reflexivity|].
  rewrite IH by (intros; apply H; now right).
  rewrite (H c) by now left. reflexivity.
Qed.

Lemma lstrip_spaces s :
  (forall c, In c (list_ascii_of_string s) -> is_space c = true) -> lstrip s = "".
Proof.
  induction s as [|c s IH]; simpl; intros H; [reflexivity|].
  rewrite (H c) by now left. apply IH. intros; apply H; now right.
Qed.

(** A value made of whitespace only is empty once stripped. *)
Lemma strip_spaces s :
  (forall c, In c (list_ascii_of_string s) -> is_space c = true) -> strip s = "".
Proof.
  intros H. unfold strip. rewrite lstrip_spaces by exact H. reflexivity.
Qed.

Lemma lstrip_blank_app pre s : blank pre -> lstrip (pre ++ s) = lstrip s.
Proof.
  induction pre as [|c pre IH]; intros H; simpl; [reflexivity|].
  rewrite (H c) by now left. apply IH. intros c' Hc'. apply H. now right.
Qed.

Lemma rstrip_app_blank s post : blank post -> rstrip (s ++ post) = rstrip s.
Proof.
  intros H. induction s as [|c s IH]; simpl.
  - now apply rstrip_spaces.
  - rewrite IH. reflexivity.
Qed.

Lemma strip_app_blank s post : blank post -> strip (s ++ post) = strip s.
Proof.
  intros H. unfold strip. induction s as [|c s IH]; simpl.
  - rewrite lstrip_spaces by exact H. reflexivity.
  - destruct (is_space c); [exact IH|].
    exact (rstrip_app_blank (String c s) post H).
Qed.

Lemma strip_blank_around pre s post :
  blank pre -> blank post -> strip (pre ++ s ++ post) = strip s.
Proof.
  intros Hpre Hpost. unfold strip. rewrite lstrip_blank_app by exact Hpre.
  exact (strip_app_blank s post Hpost).
Qed.

(** *** What [float] skips and what [strip] removes *)

Lemma append_assoc (s t u : string) : ((s ++ t) ++ u = s ++ (t ++ u))%string.
Proof. induction s as [|c s IH]; simpl; [reflexivity|now rewrite IH]. Qed.

(** A text with no whitespace in it. *)
Lemma plain_nil : plain "".
Proof. intros c []. Qed.

Lemma plain_cons c s : is_space c = false -> plain s -> plain (String c s).
Proof. intros Hc Hs c' [<-|H]; [exact Hc|now apply Hs]. Qed.

Lemma plain_app s t : plain s -> plain t -> plain (s ++ t).
Proof.
  induction s as [|c s IH]; intros Hs Ht; simpl; [exact Ht|].
  apply plain_cons; [apply Hs; now left|].
  apply IH; [|exact Ht]. intros c' Hc'. apply Hs. now right.
Qed.

Lemma plain_tail c s : plain (String c s) -> plain s.
Proof. intros H c' Hc'. apply H. now right. Qed.

Lemma float_space_is_space c : is_float_space c = true -> is_space c = true.
Proof.
  destruct c as [[] [] [] [] [] [] [] []]; vm_compute; intros H;
    try reflexivity; discriminate H.
Qed.

Lemma plain_rstrip s : plain s -> rstrip s = s.
Proof.
  induction s as [|c s IH]; intros H; simpl; [reflexivity|].
  rewrite (IH (plain_tail c s H)).
  destruct s; [|reflexivity]. rewrite (H c) by now left. reflexivity.
Qed.

Lemma plain_strip s : plain s -> strip s = s.
Proof.
  intros H. unfold strip. destruct s as [|c s]; [reflexivity|].
  cbn [lstrip]. rewrite (H c) by now left. now apply plain_rstrip.
Qed.

Lemma plain_float_rstrip s : plain s -> float_rstrip s = s.
Proof.
  induction s as [|c s IH]; intros H; simpl; [reflexivity|].
  rewrite (IH (plain_tail c s H)).
  destruct s; [|reflexivity].
  destruct (is_float_space c) eqn:E; [|reflexivity].
  apply float_space_is_space in E. rewrite (H c) in E by now left. discriminate E.
Qed.

Lemma plain_float_strip s : plain s -> float_strip s = s.
Proof.
  intros H. unfold float_strip. destruct s as [|c s]; [reflexivity|].
  cbn [float_lstrip]. destruct (is_float_space c) eqn:E.
  - apply float_space_is_space in E. rewrite (H c) in E by now left. discriminate E.
  - now apply plain_float_rstrip.
Qed.

(** What [float] skips lies around what it keeps. *)
Lemma float_lstrip_split s : exists pre, s = pre ++ float_lstrip s /\ blank pre.
Proof.
  induction s as [|c s IH]; simpl.
  - exists "". split; [reflexivity|intros c []].
  - destruct (is_float_space c) eqn:E.
    + destruct IH as (pre & Hs & Hpre). exists (String c pre). split.
      * simpl. now rewrite <- Hs.
      * intros c' [<-|Hc']; [now apply float_space_is_space|now apply Hpre].
    + exists "". split; [reflexivity|intros c' []].
Qed.

Lemma float_rstrip_split s : exists post, s = float_rstrip s ++ post /\ blank post.
Proof.
  induction s as [|c s IH]; simpl.
  - exists "". split; [reflexivity|intros c []].
  - destruct IH as (post & Hs & Hpost).
    destruct (float_rstrip s) as [|d t] eqn:E; simpl in Hs.
    + destruct (is_float_space c) eqn:Ec.
      * exists (String c post). split; [simpl; now f_equal|].
        intros c' [<-|Hc']; [now apply float_space_is_space|now apply Hpost].
      * exists post. split; [simpl; now f_equal|exact Hpost].
    + exists post. split; [simpl; now f_equal|exact Hpost].
Qed.

Lemma float_strip_split s :
  exists pre post, s = pre ++ float_strip s ++ post /\ blank pre /\ blank post.
Proof.
  destruct (float_lstrip_split s) as (pre & Hs & Hpre).
  destruct (float_rstrip_split (float_lstrip s)) as (post & Ht & Hpost).
  exists pre, post. unfold float_strip. rewrite <- Ht. auto.
Qed.

(** *** The texts that [float] accepts hold no whitespace *)

Lemma digit_not_space c : is_digit c = true -> is_space c = false.
Proof.
  destruct c as [[] [] [] [] [] [] [] []]; vm_compute; intros H;
    try reflexivity; discriminate H.
Qed.

Lemma lower_space c : is_space c = true -> lower_char c = c.
Proof.
  destruct c as [[] [] [] [] [] [] [] []]; vm_compute; intros H;
    try reflexivity; discriminate H.
Qed.

Lemma lower_plain s : plain (lower s) -> plain s.
Proof.
  induction s as [|c s IH]; intros H; [exact plain_nil|].
  cbn [lower] in H. apply plain_cons; [|apply IH; exact (plain_tail _ _ H)].
  destruct (is_space c) eqn:E; [|reflexivity].
  rewrite <- (lower_space c E), (H (lower_char c)) in E by now left. discriminate E.
Qed.

Lemma digits_tail_used k :
  forall s, (String.length s <= k)%nat ->
  forall acc n m j rest, digits_tail acc n s = (m, j, rest) ->
  exists used, s = used ++ rest /\ plain used.
Proof.
  induction k as [|k IH]; intros s Hk acc n m j rest H.
  - destruct s; [|simpl in Hk; lia]. simpl in H. injection H as _ _ <-.
    exists "". split; [reflexivity|exact plain_nil].
  - destruct s as [|c s]; cbn [digits_tail] in H.
    { injection H as _ _ <-. exists "". split; [reflexivity|exact plain_nil]. }
    simpl in Hk.
    destruct (is_digit c) eqn:Ec.
    + destruct (IH s ltac:(lia) _ _ _ _ _ H) as (used & -> & Hu).
      exists (String c used). split; [reflexivity|].
      apply plain_cons; [now apply digit_not_space|exact Hu].
    + destruct (Ascii.eqb_spec c "_"%char) as [->|_].
      * destruct s as [|d s].
        { injection H as _ _ <-. exists "". split; [reflexivity|exact plain_nil]. }
        destruct (is_digit d) eqn:Ed.
        -- simpl in Hk. destruct (IH s ltac:(lia) _ _ _ _ _ H) as (used & -> & Hu).
           exists (String "_" (String d used)). split; [reflexivity|].
           apply plain_cons; [reflexivity|].
           apply plain_cons; [now apply digit_not_space|exact Hu].
        -- injection H as _ _ <-. exists "". split; [reflexivity|exact plain_nil].
      * injection H as _ _ <-. exists "". split; [reflexivity|exact plain_nil].
Qed.

Lemma digitpart_used acc s m j rest :
  digitpart acc s = Some (m, j, rest) -> exists used, s = used ++ rest /\ plain used.
Proof.
  unfold digitpart. destruct s as [|c s]; [discriminate|].
  destruct (is_digit c) eqn:Ec; [|discriminate]. intros [= H].
  destruct (digits_tail_used (String.length s) s (Nat.le_refl _) _ _ _ _ _ H)
    as (used & -> & Hu).
  exists (String c used). split; [reflexivity|].
  apply plain_cons; [now apply digit_not_space|exact Hu].
Qed.

Lemma parse_number_used s m k rest :
  parse_number s = Some (m, k, rest) -> exists used, s = used ++ rest /\ plain used.
Proof.
  unfold parse_number.
  destruct (digitpart 0 s) as [[[m1 j1] rest1]|] eqn:E1.
  - destruct (digitpart_used _ _ _ _ _ E1) as (u1 & -> & Hu1).
    assert (Hdot : forall rest', rest1 = String "." rest' ->
              match digitpart m1 rest' with
              | Some r => Some r
              | None => Some (m1, 0, rest')
              end = Some (m, k, rest) ->
              exists used, u1 ++ rest1 = used ++ rest /\ plain used).
    { intros rest' -> H.
      destruct (digitpart m1 rest') as [[[m2 j2] rest2]|] eqn:E2.
      - injection H as <- <- <-.
        destruct (digitpart_used _ _ _ _ _ E2) as (u2 & -> & Hu2).
        exists (u1 ++ String "." u2). split.
        + now rewrite append_assoc.
        + apply plain_app; [exact Hu1|]. apply plain_cons; [reflexivity|exact Hu2].
      - injection H as <- <- <-. exists (u1 ++ "."). split.
        + now rewrite append_assoc.
        + apply plain_app; [exact Hu1|]. apply plain_cons; [reflexivity|exact plain_nil]. }
    destruct rest1 as [|c rest'].
    + intros [= <- <- <-]. exists u1. auto.
    + destruct (Ascii.eqb_spec c "."%char) as [->|Hc].
      * intros H. now apply (Hdot rest').
      * intros H.
        assert (E : Some (m1, 0, String c rest') = Some (m, k, rest)).
        { destruct c as [[] [] [] [] [] [] [] []]; try exact H; now elim Hc. }
        injection E as <- <- <-. exists u1. auto.
  - destruct s as [|c rest']; [discriminate|].
    destruct (Ascii.eqb_spec c "."%char) as [->|Hc].
    + intros H. destruct (digitpart_used _ _ _ _ _ H) as (u & -> & Hu).
      exists (String "." u). split; [reflexivity|].
      apply plain_cons; [reflexivity|exact Hu].
    + intros H. exfalso.
      destruct c as [[] [] [] [] [] [] [] []]; try discriminate H; now elim Hc.
Qed.

Lemma parse_sign_used s neg t :
  parse_sign s = (neg, t) -> exists used, s = used ++ t /\ plain used.
Proof.
  unfold parse_sign. destruct s as [|c s'].
  - intros [= _ <-]. exists "". split; [reflexivity|exact plain_nil].
  - destruct (Ascii.eqb_spec c "-"%char) as [->|Hm].
    { intros [= _ <-]. exists "-". split; [reflexivity|].
      apply plain_cons; [reflexivity|exact plain_nil]. }
    destruct (Ascii.eqb_spec c "+"%char) as [->|Hp].
    { intros [= _ <-]. exists "+". split; [reflexivity|].
      apply plain_cons; [reflexivity|exact plain_nil]. }
    intros H.
    assert (E : (false, String c s') = (neg, t)).
    { destruct c as [[] [] [] [] [] [] [] []]; try exact H;
        try (now elim Hm); now elim Hp. }
    injection E as _ <-. exists "". split; [reflexivity|exact plain_nil].
Qed.

Lemma parse_exponent_plain s e : parse_exponent s = Some e -> plain s.
Proof.
  unfold parse_exponent. destruct s as [|c s']; [intros _; exact plain_nil|].
  destruct ((c =? "e")%char || (c =? "E")%char) eqn:Ec; [|discriminate].
  destruct (parse_sign s') as [neg t] eqn:Es.
  destruct (digitpart 0 t) as [[[v j] rest]|] eqn:Ed; [|discriminate].
  destruct rest; [|discriminate]. intros _.
  destruct (parse_sign_used _ _ _ Es) as (u1 & -> & Hu1).
  destruct (digitpart_used _ _ _ _ _ Ed) as (u2 & -> & Hu2).
  apply plain_cons.
  - apply orb_true_iff in Ec.
    destruct Ec as [Ec|Ec]; apply Ascii.eqb_eq in Ec; subst c; reflexivity.
  - apply plain_app; [exact Hu1|]. apply plain_app; [exact Hu2|exact plain_nil].
Qed.

Lemma parse_float_plain s f : parse_float s = Some f -> plain s /\ s <> "".
Proof.
  intros H. split; [|intros ->; discriminate H].
  unfold parse_float in H. destruct (parse_sign s) as [neg t] eqn:Es.
  destruct (parse_sign_used _ _ _ Es) as (u & -> & Hu).
  apply plain_app; [exact Hu|].
  destruct (String.eqb_spec (lower t) "inf") as [E|_].
  { apply lower_plain. rewrite E. intros c [<-|[<-|[<-|[]]]]; reflexivity. }
  destruct (String.eqb_spec (lower t) "infinity") as [E|_].
  { apply lower_plain. rewrite E.
    intros c Hc. simpl in Hc.
    repeat (destruct Hc as [<-|Hc]; [reflexivity|]). destruct Hc. }
  cbn [orb] in H.
  destruct (String.eqb_spec (lower t) "nan") as [E|_].
  { apply lower_plain. rewrite E. intros c [<-|[<-|[<-|[]]]]; reflexivity. }
  destruct (parse_number t) as [[[m k] rest]|] eqn:En; [|discriminate].
  destruct (parse_exponent rest) as [e|] eqn:Ee; [|discriminate].
  destruct (parse_number_used _ _ _ _ En) as (u2 & -> & Hu2).
  apply plain_app; [exact Hu2|]. exact (parse_exponent_plain _ _ Ee).
Qed.

(** A text that [float] accepts is accepted once stripped, with the same
    value: [strip] removes what [float] skips and nothing of the number. *)
Lemma float_accepts_strip s f :
  float_of_string s = Some f ->
  strip s = float_strip s /\ strip s <> "" /\ float_of_string (strip s) = Some f.
Proof.
  unfold float_of_string. intros H.
  destruct (parse_float_plain _ _ H) as [Hplain Hne].
  destruct (float_strip_split s) as (pre & post & Hs & Hpre & Hpost).
  assert (E : strip s = float_strip s).
  { rewrite Hs at 1. rewrite strip_blank_around by assumption. now apply plain_strip. }
  rewrite E. split; [reflexivity|]. split; [exact Hne|].
  rewrite plain_float_strip by exact Hplain. exact H.
Qed.

(** On a stripped text [float] has nothing to skip. *)
Lemma float_strip_strip s : float_strip (strip s) = strip s.
Proof.
  assert (Hl : forall t, head_not_space t -> float_lstrip t = t).
  { intros [|c t]; simpl; [reflexivity|]. intros Hc.
    destruct (is_float_space c) eqn:E; [|reflexivity].
    apply float_space_is_space in E. congruence. }
  assert (Hr : forall t, float_rstrip (rstrip t) = rstrip t).
  { induction t as [|c t IH]; simpl; [reflexivity|].
    destruct (rstrip t) as [|d u] eqn:E.
    - destruct (is_space c) eqn:Ec; simpl; [reflexivity|].
      destruct (is_float_space c) eqn:Ef; [|reflexivity].
      apply float_space_is_space in Ef. congruence.
    - change (float_rstrip (String c (String d u))) with
        (match float_rstrip (String d u) with
         | EmptyString => if is_float_space c then EmptyString else String c EmptyString
         | t' => String c t'
         end).
      rewrite IH. reflexivity. }
  unfold float_strip, strip.
  rewrite (Hl (rstrip (lstrip s))) by (apply rstrip_head, lstrip_head).
  apply Hr.
Qed.

Lemma float_of_stripped s : float_of_string (strip s) = parse_float (strip s).
Proof. unfold float_of_string. now rewrite float_strip_strip. Qed.

(** ** [parse_value] *)

Lemma eqb_empty_false s : s <> "" -> (s =? "")%string = false.
Proof. intros H. apply String.eqb_neq. exact H. Qed.

Lemma parse_value_missing_iff name raw_value :
  parse_value name raw_value = Raise (MissingInput name) <->
  raw_value = None \/ exists v, raw_value = Some v /\ strip v = "".
Proof.
  split.
  - destruct raw_value as [v|]; [|now left].
    intros H. right. exists v. split; [reflexivity|].
    unfold parse_value in H.
    destruct (String.eqb_spec (strip v) "") as [E|E]; [exact E|].
    exfalso.
    destruct (name =? "furnishingstatus")%string;
      destruct (float_of_string (strip v)); try discriminate;
      try (destruct (mapping_get mapping (lower (strip v))); discriminate).
  - intros [->|(v & -> & E)]; [reflexivity|].
    unfold parse_value. rewrite E. reflexivity.
Qed.

(** The loop stops at the first field that fails. *)
Lemma collect_values_first_failure form pre feat post e vals :
  collect_values form pre = Ok vals ->
  parse_value feat (form_get form feat) = Raise e ->
  collect_values form (pre ++ feat :: post)%list = Raise e.
Proof.
  revert vals. induction pre as [|p pre IH]; simpl; intros vals Hpre Hfeat.
  - rewrite Hfeat. reflexivity.
  - destruct (parse_value p (form_get form p)) as [v|e0]; simpl in *; [|discriminate].
    destruct (collect_values form pre) as [vs|e1]; simpl in *; [|discriminate].
    rewrite (IH vs eq_refl Hfeat). reflexivity.
Qed.

Lemma collect_values_some_failure form feats feat e :
  In feat feats ->
  parse_value feat (form_get form feat) = Raise e ->
  exists pre feat0 post vals e',
    feats = (pre ++ feat0 :: post)%list /\
    collect_values form pre = Ok vals /\
    parse_value feat0 (form_get form feat0) = Raise e' /\
    collect_values form feats = Raise e'.
Proof.
  induction feats as [|p feats IH]; simpl; [tauto|].
  intros Hin Hfail.
  destruct (parse_value p (form_get form p)) as [v|e0] eqn:Ep.
  - destruct Hin as [->|Hin]; [congruence|].
    destruct (IH Hin Hfail) as (pre & feat0 & post & vals & e' & -> & Hpre & Hf & Hc).
    exists (p :: pre), feat0, post, (v :: vals), e'. simpl.
    rewrite Ep, Hpre, Hc. simpl. auto.
  - exists [], p, feats, [], e0. simpl. auto.
Qed.

Lemma collect_values_app form pre post vals1 vals2 :
  collect_values form pre = Ok vals1 ->
  collect_values form post = Ok vals2 ->
  collect_values form (pre ++ post)%list = Ok (vals1 ++ vals2)%list.
Proof.
  revert vals1. induction pre as [|p pre IH]; simpl; intros vals1 H1 H2.
  - injection H1 as <-. exact H2.
  - destruct (parse_value p (form_get form p)) as [v|]; simpl in *; [|discriminate].
    destruct (collect_values form pre) as [vs|]; simpl in *; [|discriminate].
    injection H1 as <-. rewrite (IH vs eq_refl H2). reflexivity.
Qed.

Lemma predict_raise bt model form e :
  collect_values form FEATURES = Raise e ->
  predict bt model form = IndexPage ("Error: " ++ exn_text bt e).
Proof. unfold predict. intros ->. reflexivity. Qed.

Lemma predict_values bt model form vals :
  collect_values form FEATURES = Ok vals ->
  predict bt model form =
    match (pred <- model vals ;;
           prediction_text <- format_prediction pred ;;
           Ok (EstimatePage prediction_text (form_total_area form))) with
    | Ok p => p
    | Raise e => IndexPage ("Error: " ++ exn_text bt e)
    end.
Proof. unfold predict. intros ->. reflexivity. Qed.

Lemma parse_value_numeric name s f :
  float_of_string s = Some f -> parse_value name (Some s) = Ok f.
Proof.
  intros H. destruct (float_accepts_strip s f H) as (_ & Hne & Hf).
  unfold parse_value. rewrite (eqb_empty_false _ Hne), Hf.
  now destruct (name =? "furnishingstatus")%string.
Qed.

(** *** The category words *)

Lemma lower_char_letter c :
  In (lower_char c) ["u"; "s"; "f"]%char ->
  is_digit c = false /\ (c =? "-")%char = false /\ (c =? "+")%char = false
  /\ (c =? ".")%char = false
  /\ (lower_char c =? "i")%char = false /\ (lower_char c =? "n")%char = false.
Proof.
  intros H.
  assert (Hl : (lower_char c =? "i")%char = false /\ (lower_char c =? "n")%char = false).
  { destruct H as [<-|[<-|[<-|[]]]]; split; reflexivity. }
  destruct Hl as [Hi Hn]. rewrite Hi, Hn.
  destruct c as [b0 b1 b2 b3 b4 b5 b6 b7].
  destruct b0, b1, b2, b3, b4, b5, b6, b7;
    try (repeat split; reflexivity);
    exfalso; vm_compute in H; destruct H as [H|[H|[H|[]]]]; discriminate H.
Qed.

Lemma parse_float_letter c s :
  In (lower_char c) ["u"; "s"; "f"]%char -> parse_float (String c s) = None.
Proof.
  intros H. destruct (lower_char_letter c H) as (Hd & Hm & Hp & Hdot & Hi & Hn).
  unfold parse_float, parse_sign.
  assert (Hs : (match String c s with
                | String "-"%char s' => (true, s')
                | String "+"%char s' => (false, s')
                | _ => (false, String c s)
                end) = (false, String c s)).
  { destruct c as [[] [] [] [] [] [] [] []];
      try reflexivity; try discriminate Hm; discriminate Hp. }
  rewrite Hs. cbn [lower].
  assert (H1 : (String (lower_char c) (lower s) =? "inf")%string = false).
  { cbn [String.eqb]. now rewrite Hi. }
  assert (H2 : (String (lower_char c) (lower s) =? "infinity")%string = false).
  { cbn [String.eqb]. now rewrite Hi. }
  assert (H3 : (String (lower_char c) (lower s) =? "nan")%string = false).
  { cbn [String.eqb]. now rewrite Hn. }
  rewrite H1, H2, H3. cbn [orb].
  unfold parse_number, digitpart. rewrite Hd.
  destruct c as [[] [] [] [] [] [] [] []]; try reflexivity; discriminate Hdot.
Qed.

Lemma mapping_word w n :
  mapping_get mapping w = Some n ->
  exists c t, w = String c t /\ In c ["u"; "s"; "f"]%char.
Proof.
  unfold mapping, mapping_get.
  destruct (String.eqb_spec "unfurnished" w) as [<-|_].
  { intros _. do 2 eexists. split; [reflexivity|]. simpl. auto. }
  destruct (String.eqb_spec "semi-furnished" w) as [<-|_].
  { intros _. do 2 eexists. split; [reflexivity|]. simpl. auto. }
  destruct (String.eqb_spec "furnished" w) as [<-|_]; [|discriminate].
  intros _. do 2 eexists. split; [reflexivity|]. simpl. auto.
Qed.

Lemma category_not_float v n :
  mapping_get mapping (lower (strip v)) = Some n -> float_of_string (strip v) = None.
Proof.
  intros H. destruct (mapping_word _ n H) as (c & t & Ew & Hc).
  rewrite float_of_stripped.
  destruct (strip v) as [|c0 t0] eqn:Es; [discriminate Ew|].
  cbn [lower] in Ew. injection Ew as Ec Et.
  apply parse_float_letter. now rewrite Ec.
Qed.

(** C6. For [furnishingstatus] the trimmed value is first parsed as a number;
    failing that, its lower-cased form is looked up in
    [{"unfurnished": 0, "semi-furnished": 1, "furnished": 2}]; failing that,
    the field is rejected as an unrecognized category, named by the trimmed
    value. A value whose trimmed, lower-cased form is in the table is never
    taken by the numeric attempt. Thus "furnished" gives 2.0,
    "semi-furnished" 1.0, "unfurnished" 0.0, "2" gives 2.0 directly and
    "penthouse" is rejected; so do "  Semi-Furnished " (1.0), "FURNISHED"
    (2.0), " 2 " (2.0) and " PentHouse " (rejected as "PentHouse"). *)
Theorem C6_furnishingstatus_parse :
  (forall v, parse_value "furnishingstatus" (Some v) =
             if (strip v =? "")%string then Raise (MissingInput "furnishingstatus")
             else furnishing_by_spec (strip v))
  /\ (forall v n, mapping_get mapping (lower (strip v)) = Some n ->
        parse_value "furnishingstatus" (Some v) = Ok (float_of_Z n))
  /\ (forall v, strip v <> "" -> float_of_string (strip v) = None ->
        mapping_get mapping (lower (strip v)) = None ->
        parse_value "furnishingstatus" (Some v) = Raise (UnrecognizedCategory (strip v)))
  /\ parse_value "furnishingstatus" (Some "furnished")
     = Ok (S754_finite false 4503599627370496 (-51))
  /\ parse_value "furnishingstatus" (Some "semi-furnished")
     = Ok (S754_finite false 4503599627370496 (-52))
  /\ parse_value "furnishingstatus" (Some "unfurnished") = Ok (S754_zero false)
  /\ parse_value "furnishingstatus" (Some "2")
     = Ok (S754_finite false 4503599627370496 (-51))
  /\ parse_value "furnishingstatus" (Some "penthouse")
     = Raise (UnrecognizedCategory "penthouse")
  /\ parse_value "furnishingstatus" (Some "  Semi-Furnished ")
     = Ok (S754_finite false 4503599627370496 (-52))
  /\ parse_value "furnishingstatus" (Some "FURNISHED")
     = Ok (S754_finite false 4503599627370496 (-51))
  /\ parse_value "furnishingstatus" (Some " 2 ")
     = Ok (S754_finite false 4503599627370496 (-51))
  /\ parse_value "furnishingstatus" (Some " PentHouse ")
     = Raise (UnrecognizedCategory "PentHouse").
Proof.
  split; [|split; [|split; [|repeat split; reflexivity]]].
  - intros v. unfold parse_value, furnishing_by_spec.
    destruct (strip v =? "")%string; [reflexivity|].
    change ("furnishingstatus" =? "furnishingstatus")%string with true. cbv iota.
    destruct (float_of_string (strip v)); [reflexivity|].
    cbv zeta. unfold mapping, mapping_get.
    destruct (lower (strip v) =? "unfurnished")%string eqn:E0;
      rewrite ?(String.eqb_sym "unfurnished"), ?E0; [reflexivity|].
    destruct (lower (strip v) =? "semi-furnished")%string eqn:E1;
      rewrite ?(String.eqb_sym "semi-furnished"), ?E1; [reflexivity|].
    destruct (lower (strip v) =? "furnished")%string eqn:E2;
      rewrite ?(String.eqb_sym "furnished"), ?E2; reflexivity.
  - intros v n H. pose proof (category_not_float v n H) as Hf.
    unfold parse_value. rewrite Hf.
    destruct (String.eqb_spec (strip v) "") as [E|_].
    { rewrite E in H. discriminate H. }
    change ("furnishingstatus" =? "furnishingstatus")%string with true. cbv iota zeta.
    rewrite H. reflexivity.
  - intros v Hne Hf Hm. unfold parse_value.
    rewrite (eqb_empty_false _ Hne), Hf.
    change ("furnishingstatus" =? "furnishingstatus")%string with true. cbv iota zeta.
    rewrite Hm. reflexivity.
Qed.

(** C7. For each of the twelve fields [parse_value] fails with the
    missing-input message exactly when the value is absent or empty once
    trimmed, a value of whitespace only included; and as soon as one field
    fails, [predict] has no feature vector at all: the loop raises the
    exception of the first failing field and the handler answers with the
    form page and that message, whatever the model is. *)
Theorem C7_missing_input_fail_fast :
  (forall name raw_value, In name FEATURES ->
     (parse_value name raw_value = Raise (MissingInput name) <->
      raw_value = None \/ exists v, raw_value = Some v /\ strip v = ""))
  /\ (forall name v, In name FEATURES ->
        (forall c, In c (list_ascii_of_string v) -> is_space c = true) ->
        parse_value name (Some v) = Raise (MissingInput name))
  /\ (forall bt model form feat e, In feat FEATURES ->
        parse_value feat (form_get form feat) = Raise e ->
        exists pre feat0 post vals e',
          FEATURES = (pre ++ feat0 :: post)%list /\
          collect_values form pre = Ok vals /\
          parse_value feat0 (form_get form feat0) = Raise e' /\
          collect_values form FEATURES = Raise e' /\
          predict bt model form = IndexPage ("Error: " ++ exn_text bt e')).
Proof.
  split; [|split].
  - intros name raw_value _. apply parse_value_missing_iff.
  - intros name v _ Hv. apply parse_value_missing_iff. right.
    exists v. split; [reflexivity | now apply strip_spaces].
  - intros bt model form feat e Hin Hfail.
    destruct (collect_values_some_failure form FEATURES feat e Hin Hfail)
      as (pre & feat0 & post & vals & e' & Hsplit & Hpre & Hf & Hc).
    exists pre, feat0, post, vals, e'. repeat split; try assumption.
    now apply predict_raise.
Qed.

Lemma C7_missing_input_fail_fast_witness :
  parse_value "bedrooms" (Some "   ") = Raise (MissingInput "bedrooms")
  /\ exists e',
       collect_values blank_bedrooms_form FEATURES = Raise e' /\
       predict cpython_text (fun _ => Ok (PyFloat f0)) blank_bedrooms_form
       = IndexPage ("Error: " ++ exn_text cpython_text e').
Proof.
  destruct C7_missing_input_fail_fast as (_ & H2 & H3). split.
  - apply H2; [right; left; reflexivity|].
    intros c [<-|[<-|[<-|[]]]]; reflexivity.
  - destruct (H3 cpython_text (fun _ => Ok (PyFloat f0)) blank_bedrooms_form
                "bedrooms" (MissingInput "bedrooms"))
      as (pre & feat0 & post & vals & e' & _ & _ & _ & Hc & Hp).
    + right; left; reflexivity.
    + reflexivity.
    + exists e'. split; assumption.
Defined.

(** C10. For [furnishingstatus] a text that [float] accepts is taken as it
    is, with no check against the encoding 0, 1, 2: the parsed value is
    [float(s)], so "7" gives 7.0 and "-1" gives -1.0; and when the other
    eleven fields parse, the model receives the vector that ends with that
    value. *)
Theorem C10_furnishing_numeric_unchecked :
  (forall s f, float_of_string s = Some f ->
     parse_value "furnishingstatus" (Some s) = Ok f)
  /\ parse_value "furnishingstatus" (Some "7")
     = Ok (S754_finite false 7881299347898368 (-50))
  /\ parse_value "furnishingstatus" (Some "-1")
     = Ok (S754_finite true 4503599627370496 (-52))
  /\ (forall bt model form s f vals,
        form_get form "furnishingstatus" = Some s ->
        float_of_string s = Some f ->
        collect_values form (removelast FEATURES) = Ok vals ->
        collect_values form FEATURES = Ok (vals ++ [f])%list /\
        predict bt model form =
          match (pred <- model (vals ++ [f])%list ;;
                 prediction_text <- format_prediction pred ;;
                 Ok (EstimatePage prediction_text (form_total_area form))) with
          | Ok p => p
          | Raise e => IndexPage ("Error: " ++ exn_text bt e)
          end).
Proof.
  split; [|split; [reflexivity|split; [reflexivity|]]].
  - intros s f H. now apply parse_value_numeric.
  - intros bt model form s f vals Hget Hf Hvals.
    assert (Hall : collect_values form FEATURES = Ok (vals ++ [f])%list).
    { change FEATURES with (removelast FEATURES ++ ["furnishingstatus"])%list.
      apply collect_values_app; [exact Hvals|].
      simpl. rewrite Hget, (parse_value_numeric _ s f Hf). reflexivity. }
    split; [exact Hall | now apply predict_values].
Qed.

Lemma C10_furnishing_numeric_unchecked_witness :
  collect_values sample_form FEATURES
  = Ok (repeat (S754_finite false 4503599627370496 (-52)) 11
        ++ [S754_finite false 7881299347898368 (-50)])%list.
Proof.
  destruct C10_furnishing_numeric_unchecked as (_ & _ & _ & H).
  refine (proj1 (H cpython_text (fun _ => Ok (PyFloat f0)) sample_form "7"
                   (S754_finite false 7881299347898368 (-50))
                   (repeat (S754_finite false 4503599627370496 (-52)) 11) _ _ _));
    reflexivity.
Defined.

(** ** The prediction text *)

Lemma format_prediction_eq pred :
  format_prediction pred =
    match py_float pred with
    | Ok f => Ok (format_2f (fdiv f f100000) ++ " L")
    | Raise e => Raise e
    end.
Proof.
  unfold format_prediction, lakhs_text, plain_text.
  destruct (py_float pred); reflexivity.
Qed.

(** C1, as the code has it. When [float(pred)] succeeds the text is the
    output divided by 100000 in format [.2f], followed by " L", and the
    first [try] cannot fail. When [float(pred)] raises, the [except] branch
    calls [float(pred)] again and raises the same exception: no text is
    produced, and [predict] answers with the form page and the message. *)
Theorem C1_prediction_text :
  (forall pred f, py_float pred = Ok f ->
     lakhs_text pred = Ok (format_2f (fdiv f f100000) ++ " L") /\
     format_prediction pred = Ok (format_2f (fdiv f f100000) ++ " L"))
  /\ (forall pred e, lakhs_text pred = Raise e ->
        py_float pred = Raise e /\
        plain_text pred = Raise e /\
        format_prediction pred = Raise e)
  /\ (forall bt model form vals pred e,
        collect_values form FEATURES = Ok vals ->
        model vals = Ok pred ->
        lakhs_text pred = Raise e ->
        predict bt model form = IndexPage ("Error: " ++ exn_text bt e)).
Proof.
  assert (H2 : forall pred e, lakhs_text pred = Raise e ->
                 py_float pred = Raise e /\ plain_text pred = Raise e /\
                 format_prediction pred = Raise e).
  { intros pred e. unfold format_prediction, lakhs_text, plain_text.
    destruct (py_float pred); simpl; [discriminate|].
    intros [= ->]. auto. }
  split; [|split; [exact H2|]].
  - intros pred f H. unfold format_prediction, lakhs_text. rewrite H. simpl. auto.
  - intros bt model form vals pred e Hv Hm Hl.
    rewrite (predict_values bt model form vals Hv), Hm. simpl.
    destruct (H2 pred e Hl) as (_ & _ & ->). reflexivity.
Qed.

Lemma C1_prediction_text_witness :
  format_prediction (PyInt 4500000) = Ok "45.00 L"
  /\ predict cpython_text (fun _ => Ok (PyStr "abc")) sample_form
     = IndexPage "Error: could not convert string to float: 'abc'".
Proof.
  destruct C1_prediction_text as (H1 & _ & H3). split.
  - destruct (H1 (PyInt 4500000) (float_of_Z 4500000) eq_refl) as [_ E].
    vm_compute in E. exact E.
  - apply (H3 cpython_text (fun _ => Ok (PyStr "abc")) sample_form
              (repeat (S754_finite false 4503599627370496 (-52)) 11
               ++ [S754_finite false 7881299347898368 (-50)])%list
              (PyStr "abc") (NotANumber "abc")); reflexivity.
Defined.

(** C1 as worded fails: for the model output ["abc"] the first [try] raises
    and the fallback raises as well, so no prediction text results. *)
Lemma C1_fallback_raises :
  lakhs_text (PyStr "abc") = Raise (NotANumber "abc")
  /\ plain_text (PyStr "abc") = Raise (NotANumber "abc")
  /\ ~ (exists text, format_prediction (PyStr "abc") = Ok text)
  /\ predict cpython_text (fun _ => Ok (PyStr "abc")) sample_form
     = IndexPage "Error: could not convert string to float: 'abc'".
Proof.
  split; [reflexivity|]. split; [reflexivity|]. split; [|reflexivity].
  intros [text H]. discriminate H.
Qed.

(** ** Binary digits *)

Lemma digits2_pos_size p : digits2_pos p = Pos.size p.
Proof. induction p; simpl; congruence. Qed.

Lemma digits2_pos_bounds p :
  2 ^ (Zpos (digits2_pos p) - 1) <= Zpos p < 2 ^ Zpos (digits2_pos p).
Proof.
  rewrite digits2_pos_size. split.
  - pose proof (Pos.size_le p) as H.
    assert (Hs : (2 ^ Pos.size p <= p~0)%positive) by exact H.
    apply Pos2Z.pos_le_pos in Hs. rewrite Pos2Z.inj_pow in Hs.
    replace (Zpos (Pos.size p)) with (Z.succ (Zpos (Pos.size p) - 1)) in Hs by lia.
    rewrite Z.pow_succ_r in Hs by lia. lia.
  - pose proof (Pos.size_gt p) as H.
    apply Pos2Z.pos_lt_pos in H. now rewrite Pos2Z.inj_pow in H.
Qed.

Lemma Zdigits2_bounds m :
  0 < m -> 2 ^ (Zdigits2 m - 1) <= m < 2 ^ Zdigits2 m.
Proof. destruct m as [|p|p]; try lia. intros _. apply digits2_pos_bounds. Qed.

Lemma Zdigits2_nonneg m : 0 <= m -> 0 <= Zdigits2 m.
Proof. destruct m; simpl; lia. Qed.

Lemma Zdigits2_unique m d :
  0 < m -> 2 ^ (d - 1) <= m < 2 ^ d -> Zdigits2 m = d.
Proof.
  intros Hm [Hl Hu]. pose proof (Zdigits2_bounds m Hm) as [Hl' Hu'].
  assert (0 < Zdigits2 m) by (destruct m; simpl; lia).
  assert (0 < d).
  { destruct (Z_lt_le_dec 0 d); [assumption|].
    assert (2 ^ d <= 1).
    { destruct (Z.eq_dec d 0) as [->|]; [simpl; lia | rewrite Z.pow_neg_r; lia]. }
    lia. }
  destruct (Z.lt_trichotomy (Zdigits2 m) d) as [H1|[H1|H1]]; [|assumption|].
  - assert (2 ^ Zdigits2 m <= 2 ^ (d - 1)) by (apply Z.pow_le_mono_r; lia). lia.
  - assert (2 ^ d <= 2 ^ (Zdigits2 m - 1)) by (apply Z.pow_le_mono_r; lia). lia.
Qed.

(** ** Shifting a mantissa to the right *)

Lemma iter_pos_nat {A} (f : A -> A) p x :
  iter_pos f p x = Nat.iter (Pos.to_nat p) f x.
Proof.
  revert x. induction p as [p IH|p IH|]; intros x; cbn [iter_pos].
  - rewrite !IH, Pos2Nat.inj_xI.
    replace (S (2 * Pos.to_nat p))%nat with (Pos.to_nat p + S (Pos.to_nat p))%nat by lia.
    rewrite Nat.iter_add, Nat.iter_succ_r. reflexivity.
  - rewrite !IH, Pos2Nat.inj_xO.
    replace (2 * Pos.to_nat p)%nat with (Pos.to_nat p + Pos.to_nat p)%nat by lia.
    now rewrite Nat.iter_add.
  - reflexivity.
Qed.

Lemma shr_1_spec mrs :
  0 <= shr_m mrs ->
  shr_m (shr_1 mrs) = shr_m mrs / 2 /\
  lost (shr_1 mrs) = Z.odd (shr_m mrs) || lost mrs.
Proof.
  destruct mrs as [m r s]. unfold lost. cbn [shr_m shr_r shr_s]. intros Hm.
  destruct m as [|[p|p|]|p]; cbn [shr_1 shr_m shr_r shr_s]; try lia.
  - split; [reflexivity|]. now destruct r, s.
  - split; [|now destruct r, s]. rewrite Pos2Z.inj_xI.
    apply (Z.div_unique _ _ _ 1); lia.
  - split; [|now destruct r, s]. rewrite Pos2Z.inj_xO.
    apply (Z.div_unique _ _ _ 0); lia.
  - split; [reflexivity|]. now destruct r, s.
Qed.

Lemma shr_iter_spec n mrs :
  0 <= shr_m mrs ->
  let mrs' := Nat.iter n shr_1 mrs in
  shr_m mrs' = shr_m mrs / 2 ^ Z.of_nat n /\
  (lost mrs' = false <-> lost mrs = false /\ shr_m mrs = shr_m mrs' * 2 ^ Z.of_nat n).
Proof.
  intros Hm. induction n as [|n IH]; cbn zeta.
  - simpl. rewrite Z.div_1_r. split; [reflexivity|]. split; [intros H; split; [exact H|lia]|tauto].
  - cbn zeta in IH. destruct IH as [IHm IHl].
    rewrite Nat2Z.inj_succ, Z.pow_succ_r by lia.
    change (Nat.iter (S n) shr_1 mrs) with (shr_1 (Nat.iter n shr_1 mrs)).
    set (u := Nat.iter n shr_1 mrs) in *.
    assert (Hu : 0 <= shr_m u).
    { rewrite IHm. apply Z.div_pos; [assumption|]. apply Z.pow_pos_nonneg; lia. }
    destruct (shr_1_spec u Hu) as [E1 E2].
    assert (Hp : 0 < 2 ^ Z.of_nat n) by (apply Z.pow_pos_nonneg; lia).
    split.
    + rewrite E1, IHm, Z.div_div by lia. f_equal. lia.
    + pose proof (Z.div_mod (shr_m u) 2 ltac:(lia)) as Hd.
      pose proof (Zmod_odd (shr_m u)) as Hodd.
      rewrite E2, E1, orb_false_iff. split.
      * intros [Ho Hl]. destruct (proj1 IHl Hl) as [Hl0 Hm0]. split; [exact Hl0|].
        rewrite Ho in Hodd.
        rewrite Hm0 at 1. replace (shr_m u) with (2 * (shr_m u / 2)) at 1 by lia. ring.
      * intros [Hl0 Hm0].
        assert (Hu2 : shr_m u = 2 * (shr_m u / 2)).
        { clear Hd Hodd. set (k := shr_m u / 2) in *.
          rewrite IHm, Hm0.
          replace (k * (2 * 2 ^ Z.of_nat n)) with ((2 * k) * 2 ^ Z.of_nat n) by ring.
          apply Z.div_mul. lia. }
        split.
        -- destruct (Z.odd (shr_m u)); [lia|reflexivity].
        -- apply IHl. split; [exact Hl0|]. rewrite Hm0 at 1. rewrite Hu2 at 2. ring.
Qed.

Lemma lost_of_loc m l : lost (shr_record_of_loc m l) = false -> l = loc_Exact.
Proof. destruct l as [|[]]; simpl; unfold lost; simpl; congruence. Qed.

Lemma loc_exact_lost mrs : loc_of_shr_record mrs = loc_Exact -> lost mrs = false.
Proof. destruct mrs as [m [] []]; simpl; unfold lost; simpl; congruence. Qed.

Lemma lost_exact_loc mrs : lost mrs = false -> loc_of_shr_record mrs = loc_Exact.
Proof. destruct mrs as [m [] []]; unfold lost; simpl; congruence. Qed.

Lemma shr_m_of_loc m l : shr_m (shr_record_of_loc m l) = m.
Proof. destruct l as [|[]]; reflexivity. Qed.

Section Rounding.

Variables prec emax : Z.
Hypothesis prec_pos : 0 < prec.

Local Abbreviation fexp := (fexp prec emax).
Local Abbreviation emin := (emin prec emax).

Lemma fexp_mono a b : a <= b -> fexp a <= fexp b.
Proof. unfold SpecFloat.fexp. lia. Qed.

Lemma fexp_ge_emin a : emin <= fexp a.
Proof. unfold SpecFloat.fexp. lia. Qed.

(** [shr_fexp] moves the mantissa onto the grid of its magnitude. *)
Lemma shr_fexp_spec m e l :
  0 <= m -> e <= fexp (Zdigits2 m + e) ->
  let e' := fexp (Zdigits2 m + e) in
  snd (shr_fexp prec emax m e l) = e' /\
  shr_m (fst (shr_fexp prec emax m e l)) = m / 2 ^ (e' - e) /\
  (l = loc_Exact /\ m = m / 2 ^ (e' - e) * 2 ^ (e' - e) ->
   loc_of_shr_record (fst (shr_fexp prec emax m e l)) = loc_Exact).
Proof.
  intros Hm He e'. unfold shr_fexp, shr. fold e'.
  destruct (e' - e) as [|p|p] eqn:En; try lia.
  - cbn [fst snd]. rewrite shr_m_of_loc, Z.div_1_r.
    split; [lia|]. split; [reflexivity|]. intros [-> _]. reflexivity.
  - cbn [fst snd]. rewrite iter_pos_nat.
    pose proof (shr_iter_spec (Pos.to_nat p) (shr_record_of_loc m l)) as H.
    rewrite shr_m_of_loc in H. specialize (H Hm). cbn zeta in H.
    rewrite positive_nat_Z in H. destruct H as [H1 H2].
    split; [lia|]. split; [exact H1|].
    intros [-> Hm0]. apply lost_exact_loc, H2. split; [reflexivity|].
    rewrite H1. exact Hm0.
Qed.

End Rounding.

Section RoundAux.

Variables prec emax : Z.
Hypothesis prec_pos : 0 < prec.

Local Abbreviation fexp := (fexp prec emax).
Local Abbreviation emin := (emin prec emax).

Lemma round_nearest_even_cases m l :
  round_nearest_even m l = m \/
  (round_nearest_even m l = m + 1 /\ l <> loc_Exact).
Proof.
  destruct l as [|[]]; simpl; try (left; reflexivity);
    try (destruct (Z.even m); [left; reflexivity|]);
    (right; split; [reflexivity|discriminate]).
Qed.

Lemma shr_fexp_noop m e :
  fexp (Zdigits2 m + e) - e <= 0 ->
  shr_fexp prec emax m e loc_Exact = (Build_shr_record m false false, e).
Proof.
  intros H. unfold shr_fexp, shr.
  destruct (fexp (Zdigits2 m + e) - e); try reflexivity. lia.
Qed.

(** The mantissa once shifted onto the grid of its magnitude. *)
Lemma grid_mantissa_bounds mx ex :
  0 <= mx -> ex <= fexp (Zdigits2 mx + ex) ->
  let e1 := fexp (Zdigits2 mx + ex) in
  let m1 := mx / 2 ^ (e1 - ex) in
  0 <= m1 < 2 ^ prec /\
  (emin < e1 -> 2 ^ (prec - 1) <= m1) /\
  m1 * 2 ^ (e1 - ex) <= mx < (m1 + 1) * 2 ^ (e1 - ex).
Proof.
  intros Hmx Hex e1 m1.
  assert (Hn : 0 <= e1 - ex) by (unfold e1; lia).
  assert (Hp : 0 < 2 ^ (e1 - ex)) by (apply Z.pow_pos_nonneg; lia).
  split; [split|split].
  - apply Z.div_pos; lia.
  - destruct (Z.eq_dec mx 0) as [->|Hz].
    + unfold m1. rewrite Z.div_0_l by lia. apply Z.pow_pos_nonneg; lia.
    + pose proof (Zdigits2_bounds mx ltac:(lia)) as [_ Hd].
      pose proof (Zdigits2_nonneg mx Hmx) as Hd0.
      apply Z.div_lt_upper_bound; [lia|].
      rewrite <- Z.pow_add_r by lia.
      eapply Z.lt_le_trans; [exact Hd|].
      apply Z.pow_le_mono_r; [lia|].
      unfold e1, SpecFloat.fexp. lia.
  - intros He. assert (Hz : 0 < mx).
    { destruct (Z.eq_dec mx 0) as [->|]; [|lia].
      exfalso. unfold e1, SpecFloat.fexp in *. simpl in *. lia. }
    pose proof (Zdigits2_bounds mx Hz) as [Hd _].
    assert (En : e1 - ex = Zdigits2 mx - prec) by (unfold e1, SpecFloat.fexp in *; lia).
    apply Z.div_le_lower_bound; [lia|].
    rewrite <- Z.pow_add_r by lia.
    replace (e1 - ex + (prec - 1)) with (Zdigits2 mx - 1) by lia. exact Hd.
  - pose proof (Z.div_mod mx (2 ^ (e1 - ex)) ltac:(lia)) as Hd.
    pose proof (Z.mod_pos_bound mx (2 ^ (e1 - ex)) Hp) as Hb.
    fold m1 in Hd. clearbody m1. nia.
Qed.

Lemma binary_round_aux_spec sx mx ex lx :
  0 <= mx -> ex <= fexp (Zdigits2 mx + ex) ->
  let e1 := fexp (Zdigits2 mx + ex) in
  let m1 := mx / 2 ^ (e1 - ex) in
  exists m3 e3,
    binary_round_aux prec emax sx mx ex lx = rounded prec emax sx m3 e3 /\
    0 <= m3 /\ e1 <= e3 /\
    (0 < m3 -> e3 = fexp (Zdigits2 m3 + e3)) /\
    (m3 * 2 ^ (e3 - e1) = m1 \/
     (m3 * 2 ^ (e3 - e1) = m1 + 1 /\
      ~ (lx = loc_Exact /\ mx = m1 * 2 ^ (e1 - ex)))).
Proof.
  intros Hmx Hex e1 m1.
  destruct (shr_fexp_spec prec emax mx ex lx Hmx Hex) as (Hs & Hm & Hl).
  fold e1 in Hs, Hm, Hl. fold m1 in Hm, Hl.
  unfold binary_round_aux.
  destruct (shr_fexp prec emax mx ex lx) as [mrs1 e1'] eqn:E1.
  cbn [fst snd] in Hs, Hm, Hl. subst e1'.
  set (m2 := round_nearest_even (shr_m mrs1) (loc_of_shr_record mrs1)).
  assert (Hn : 0 <= e1 - ex) by lia.
  assert (Hp : 0 < 2 ^ (e1 - ex)) by (apply Z.pow_pos_nonneg; lia).
  assert (Hm1 : 0 <= m1) by (apply Z.div_pos; lia).
  (* the shifted mantissa has at most [prec] digits *)
  assert (Hub : m1 < 2 ^ prec).
  { destruct (Z.eq_dec mx 0) as [->|Hz].
    - unfold m1. rewrite Z.div_0_l by lia. apply Z.pow_pos_nonneg; lia.
    - pose proof (Zdigits2_bounds mx ltac:(lia)) as [_ Hd].
      pose proof (Zdigits2_nonneg mx Hmx) as Hd0.
      apply Z.div_lt_upper_bound; [lia|].
      rewrite <- Z.pow_add_r by lia.
      eapply Z.lt_le_trans; [exact Hd|].
      apply Z.pow_le_mono_r; [lia|].
      unfold e1, SpecFloat.fexp. lia. }
  (* above the smallest exponent it has exactly [prec] digits *)
  assert (Hlb : emin < e1 -> 2 ^ (prec - 1) <= m1).
  { intros He. assert (Hz : 0 < mx).
    { destruct (Z.eq_dec mx 0) as [->|]; [|lia].
      exfalso. unfold e1, SpecFloat.fexp in *. simpl in *. lia. }
    pose proof (Zdigits2_bounds mx Hz) as [Hd _].
    assert (En : e1 - ex = Zdigits2 mx - prec) by (unfold e1, SpecFloat.fexp in *; lia).
    apply Z.div_le_lower_bound; [lia|].
    rewrite <- Z.pow_add_r by lia.
    replace (e1 - ex + (prec - 1)) with (Zdigits2 mx - 1) by lia. exact Hd. }
  assert (Hm2 : m2 = m1 \/ (m2 = m1 + 1 /\
                ~ (lx = loc_Exact /\ mx = m1 * 2 ^ (e1 - ex)))).
  { unfold m2. rewrite Hm.
    destruct (round_nearest_even_cases m1 (loc_of_shr_record mrs1)) as [H|[H Hne]];
      [left; exact H | right; split; [exact H|]].
    intros Hx. apply Hne, Hl. exact Hx. }
  clearbody m2. clear Hm Hl E1 mrs1. clearbody m1.
  assert (Hm2' : 0 <= m2 <= 2 ^ prec) by (destruct Hm2 as [H|[H _]]; lia).
  destruct (Z.eq_dec m2 0) as [Hz|Hz].
  - (* everything was shifted out *)
    subst m2. exists 0, e1.
    rewrite shr_fexp_noop by (unfold e1, SpecFloat.fexp; simpl; lia).
    cbn [shr_m rounded]. repeat split; try lia.
  - destruct (Z.eq_dec m2 (2 ^ prec)) as [Ht|Ht].
    + (* the rounded mantissa needs one more digit *)
      assert (Hd2 : Zdigits2 m2 = prec + 1).
      { apply Zdigits2_unique; [lia|]. rewrite Ht.
        replace (prec + 1 - 1) with prec by lia. split; [lia|].
        apply Z.pow_lt_mono_r; lia. }
      assert (He1 : e1 = fexp (prec + e1)).
      { destruct (Z_lt_le_dec emin e1) as [He|He].
        - unfold SpecFloat.fexp in *. lia.
        - pose proof (fexp_ge_emin prec emax (Zdigits2 mx + ex)).
          unfold e1 in *. unfold SpecFloat.fexp in *. lia. }
      assert (Hf2 : fexp (Zdigits2 m2 + e1) = e1 + 1).
      { rewrite Hd2. unfold SpecFloat.fexp in *. lia. }
      destruct (shr_fexp_spec prec emax m2 e1 loc_Exact ltac:(lia) ltac:(lia))
        as (Hs2 & Hm3 & _).
      rewrite Hf2 in Hs2, Hm3.
      destruct (shr_fexp prec emax m2 e1 loc_Exact) as [mrs2 e2].
      cbn [fst snd] in Hs2, Hm3. subst e2.
      replace (e1 + 1 - e1) with 1 in Hm3 by lia.
      assert (Hm3' : shr_m mrs2 = 2 ^ (prec - 1)).
      { rewrite Hm3, Ht. change (2 ^ 1) with 2.
        replace prec with (Z.succ (prec - 1)) at 1 by lia.
        rewrite Z.pow_succ_r by lia. rewrite Z.mul_comm, Z.div_mul; lia. }
      assert (Hpp : 0 < 2 ^ (prec - 1)) by (apply Z.pow_pos_nonneg; lia).
      exists (2 ^ (prec - 1)), (e1 + 1). rewrite Hm3'.
      split; [unfold rounded; reflexivity|].
      split; [lia|]. split; [lia|]. split.
      * intros _.
        rewrite (Zdigits2_unique (2 ^ (prec - 1)) prec); [|lia|].
        -- unfold SpecFloat.fexp in *. lia.
        -- split; [lia|]. apply Z.pow_lt_mono_r; lia.
      * replace (e1 + 1 - e1) with 1 by lia. change (2 ^ 1) with 2.
        assert (E : 2 ^ (prec - 1) * 2 = 2 ^ prec).
        { replace prec with (Z.succ (prec - 1)) at 2 by lia.
          rewrite Z.pow_succ_r by lia. ring. }
        rewrite E. destruct Hm2 as [H|[H Hne]]; [lia|].
        right. split; [lia|exact Hne].
    + (* the rounded mantissa is already on the grid *)
      assert (Hc : fexp (Zdigits2 m2 + e1) = e1).
      { pose proof (Zdigits2_bounds m2 ltac:(lia)) as [Hdl Hdu].
        assert (Hd2 : Zdigits2 m2 <= prec).
        { destruct (Z_le_gt_dec (Zdigits2 m2) prec); [assumption|].
          assert (2 ^ prec <= 2 ^ (Zdigits2 m2 - 1)) by (apply Z.pow_le_mono_r; lia).
          lia. }
        destruct (Z_lt_le_dec emin e1) as [He|He].
        - specialize (Hlb He).
          assert (Zdigits2 m2 = prec).
          { apply Zdigits2_unique; lia. }
          unfold SpecFloat.fexp in *. lia.
        - pose proof (fexp_ge_emin prec emax (Zdigits2 mx + ex)).
          unfold e1 in *. unfold SpecFloat.fexp in *. lia. }
      exists m2, e1.
      rewrite shr_fexp_noop by lia. cbn [shr_m].
      split; [unfold rounded; destruct m2; try lia; reflexivity|].
      split; [lia|]. split; [lia|]. split; [intros _; lia|].
      rewrite Z.sub_diag, Z.pow_0_r, Z.mul_1_r. exact Hm2.
Qed.

End RoundAux.

(** ** Real values *)

Lemma bpow_pos e : (0 < bpow e)%R.
Proof. apply powerRZ_lt. lra. Qed.

Lemma bpow_add a b : bpow (a + b) = (bpow a * bpow b)%R.
Proof. apply powerRZ_add. lra. Qed.

Lemma bpow_0 : bpow 0 = 1%R.
Proof. reflexivity. Qed.

Lemma bpow_1 : bpow 1 = 2%R.
Proof. unfold bpow. simpl. lra. Qed.

Lemma bpow_IZR n : 0 <= n -> bpow n = IZR (2 ^ n).
Proof.
  intros Hn. unfold bpow. destruct n as [|p|p]; try lia.
  - reflexivity.
  - rewrite <- Zpower_pos_powerRZ. reflexivity.
Qed.

Lemma bpow_le a b : a <= b -> (bpow a <= bpow b)%R.
Proof.
  intros H. replace b with (a + (b - a)) by lia. rewrite bpow_add.
  rewrite (bpow_IZR (b - a)) by lia.
  assert (0 < 2 ^ (b - a)) by (apply Z.pow_pos_nonneg; lia).
  assert (1 <= IZR (2 ^ (b - a)))%R by (apply IZR_le; lia).
  pose proof (bpow_pos a). nra.
Qed.

Lemma bpow_lt a b : a < b -> (bpow a < bpow b)%R.
Proof.
  intros H. replace b with (a + (b - a)) by lia. rewrite bpow_add.
  rewrite (bpow_IZR (b - a)) by lia.
  assert (2 ^ 1 <= 2 ^ (b - a)) by (apply Z.pow_le_mono_r; lia).
  assert (2 <= IZR (2 ^ (b - a)))%R by (apply IZR_le; lia).
  pose proof (bpow_pos a). nra.
Qed.

Lemma bpow_lt_inv a b : (bpow a < bpow b)%R -> a < b.
Proof.
  intros H. destruct (Z_lt_le_dec a b); [assumption|].
  pose proof (bpow_le b a ltac:(lia)). lra.
Qed.

Lemma F2R_le a b e : a <= b -> (F2R a e <= F2R b e)%R.
Proof.
  intros H. unfold F2R. apply Rmult_le_compat_r.
  - apply Rlt_le, bpow_pos.
  - now apply IZR_le.
Qed.

Lemma F2R_lt a b e : a < b -> (F2R a e < F2R b e)%R.
Proof.
  intros H. unfold F2R. apply Rmult_lt_compat_r.
  - apply bpow_pos.
  - now apply IZR_lt.
Qed.

Lemma F2R_lt_inv a b e : (F2R a e < F2R b e)%R -> a < b.
Proof.
  intros H. destruct (Z_lt_le_dec a b); [assumption|].
  pose proof (F2R_le b a e ltac:(lia)). lra.
Qed.

Lemma F2R_le_inv a b e : (F2R a e <= F2R b e)%R -> a <= b.
Proof.
  intros H. destruct (Z_le_gt_dec a b); [assumption|].
  pose proof (F2R_lt b a e ltac:(lia)). lra.
Qed.

Lemma F2R_shift m e k : 0 <= k -> F2R (m * 2 ^ k) e = F2R m (e + k).
Proof.
  intros Hk. unfold F2R. rewrite mult_IZR, <- bpow_IZR, bpow_add by lia. ring.
Qed.

Lemma bpow_F2R k e : 0 <= k -> bpow (e + k) = F2R (2 ^ k) e.
Proof.
  intros Hk. unfold F2R. rewrite <- bpow_IZR, bpow_add by lia. ring.
Qed.

Lemma F2R_0 e : F2R 0 e = 0%R.
Proof. unfold F2R. lra. Qed.

Lemma F2R_nonneg m e : 0 <= m -> (0 <= F2R m e)%R.
Proof. intros H. rewrite <- (F2R_0 e). now apply F2R_le. Qed.

Lemma F2R_pos m e : 0 < m -> (0 < F2R m e)%R.
Proof. intros H. rewrite <- (F2R_0 e). now apply F2R_lt. Qed.

(** A positive mantissa of [d] digits at exponent [e] lies in
    [[2^(d+e-1), 2^(d+e))]. *)
Lemma F2R_mag m e :
  0 < m -> (bpow (Zdigits2 m + e - 1) <= F2R m e < bpow (Zdigits2 m + e))%R.
Proof.
  intros Hm. destruct (Zdigits2_bounds m Hm) as [Hl Hu].
  assert (Hd : 0 < Zdigits2 m) by (destruct m; simpl; lia).
  replace (Zdigits2 m + e - 1) with (e + (Zdigits2 m - 1)) by lia.
  replace (Zdigits2 m + e) with (e + Zdigits2 m) by lia.
  rewrite !bpow_F2R by lia. split; [apply F2R_le | apply F2R_lt]; assumption.
Qed.

Lemma mag_le m1 e1 m2 e2 :
  0 < m1 -> 0 < m2 -> (F2R m1 e1 <= F2R m2 e2)%R ->
  Zdigits2 m1 + e1 <= Zdigits2 m2 + e2.
Proof.
  intros H1 H2 H. pose proof (F2R_mag m1 e1 H1) as [L1 _].
  pose proof (F2R_mag m2 e2 H2) as [_ U2].
  assert (Hlt : (bpow (Zdigits2 m1 + e1 - 1) < bpow (Zdigits2 m2 + e2))%R) by lra.
  apply bpow_lt_inv in Hlt. lia.
Qed.

Section RoundReal.

Variables prec emax : Z.
Hypothesis prec_pos : 0 < prec.

Local Abbreviation fexp := (fexp prec emax).
Local Abbreviation emin := (emin prec emax).
Local Abbreviation canonical := (canonical prec emax).

Lemma canonical_digits m e :
  canonical m e ->
  0 < Zdigits2 m <= prec /\ emin <= e /\ (emin < e -> Zdigits2 m = prec).
Proof.
  intros [Hm He]. assert (0 < Zdigits2 m) by (destruct m; simpl; lia).
  unfold SpecFloat.fexp in *. lia.
Qed.

Lemma canonical_le m1 e1 m2 e2 :
  canonical m1 e1 -> canonical m2 e2 -> (F2R m1 e1 <= F2R m2 e2)%R -> e1 <= e2.
Proof.
  intros [H1 E1] [H2 E2] H. rewrite E1, E2. apply fexp_mono.
  now apply mag_le.
Qed.

(** The rounding of a value [v] known through [mx], [ex] and [lx]: it is
    on the grid, below every representable number above [v], above every
    representable number below [v], and within one unit of [v]. *)
Lemma binary_round_aux_real sx mx ex lx (v : R) :
  0 <= mx -> ex <= fexp (Zdigits2 mx + ex) ->
  (F2R mx ex <= v < F2R (mx + 1) ex)%R ->
  (lx <> loc_Exact -> (F2R mx ex < v)%R) ->
  exists m3 e3,
    binary_round_aux prec emax sx mx ex lx = rounded prec emax sx m3 e3 /\
    0 <= m3 /\
    (0 < m3 -> canonical m3 e3) /\
    (forall mr er, canonical mr er -> (v <= F2R mr er)%R ->
       (F2R m3 e3 <= F2R mr er)%R /\ (0 < m3 -> e3 <= er)) /\
    (forall ms es, canonical ms es -> (F2R ms es <= v)%R ->
       0 < m3 /\ (F2R ms es <= F2R m3 e3)%R) /\
    (F2R m3 e3 <= v + v * bpow (1 - prec) + bpow emin)%R.
Proof.
  intros Hmx Hex Hv Hlx.
  destruct (binary_round_aux_spec prec emax prec_pos sx mx ex lx Hmx Hex)
    as (m3 & e3 & HF & Hm3 & He13 & Hcan & Hval).
  destruct (grid_mantissa_bounds prec emax prec_pos mx ex Hmx Hex)
    as (Hm1 & Hm1lb & Hm1x).
  cbv zeta in Hm1, Hm1lb, Hm1x, He13, Hval.
  set (e1 := fexp (Zdigits2 mx + ex)) in *.
  set (m1 := mx / 2 ^ (e1 - ex)) in *.
  assert (Hn : 0 <= e1 - ex) by lia.
  assert (He1 : emin <= e1) by apply fexp_ge_emin.
  (* the two neighbours of [v] on the grid *)
  assert (Hlo : (F2R m1 e1 <= F2R mx ex)%R).
  { replace e1 with (ex + (e1 - ex)) at 1 by lia.
    rewrite <- F2R_shift by lia. apply F2R_le. lia. }
  assert (Hhi : (F2R (mx + 1) ex <= F2R (m1 + 1) e1)%R).
  { replace e1 with (ex + (e1 - ex)) at 1 by lia.
    rewrite <- F2R_shift by lia. apply F2R_le. lia. }
  assert (Hv3 : F2R m3 e3 = F2R (m3 * 2 ^ (e3 - e1)) e1).
  { rewrite F2R_shift by lia. f_equal. lia. }
  assert (Hcase : F2R m3 e3 = F2R m1 e1 \/
                  (F2R m3 e3 = F2R (m1 + 1) e1 /\ (F2R m1 e1 < v)%R)).
  { destruct Hval as [H|[H Hne]]; rewrite Hv3, H; [now left|right].
    split; [reflexivity|].
    destruct lx as [|c].
    - assert (mx <> m1 * 2 ^ (e1 - ex)) by (intros E; apply Hne; now split).
      assert (m1 * 2 ^ (e1 - ex) < mx) by (clearbody m1; lia).
      assert (F2R m1 e1 < F2R mx ex)%R; [|lra].
      replace e1 with (ex + (e1 - ex)) at 1 by lia.
      rewrite <- F2R_shift by lia. now apply F2R_lt.
    - assert (F2R mx ex < v)%R by (apply Hlx; discriminate). lra. }
  assert (Hstep : F2R (m1 + 1) e1 = (F2R m1 e1 + bpow e1)%R).
  { unfold F2R. rewrite plus_IZR. ring. }
  assert (Hge : (F2R m1 e1 <= F2R m3 e3)%R).
  { pose proof (bpow_pos e1). destruct Hcase as [->|[-> _]]; lra. }
  exists m3, e3. split; [exact HF|]. split; [exact Hm3|].
  split; [intros H; split; [exact H|now apply Hcan]|].
  split; [|split].
  - (* a representable number above [v] *)
    intros mr er Hr Hvr.
    assert (He1r : e1 <= er).
    { destruct Hr as [Hr0 Hre]. destruct (Z.eq_dec mx 0) as [Hz|Hz].
      - rewrite Hre. pose proof (fexp_ge_emin prec emax (Zdigits2 mr + er)).
        assert (e1 = emin); [|lia].
        unfold e1 in *. rewrite Hz in *. unfold SpecFloat.fexp in *.
        simpl in *. lia.
      - rewrite Hre. unfold e1. apply fexp_mono, mag_le; try lia. lra. }
    assert (Hle : (F2R m3 e3 <= F2R mr er)%R).
    { destruct Hcase as [->|[-> Hlt]]; [lra|].
      replace er with (e1 + (er - e1)) by lia.
      rewrite <- F2R_shift by lia. apply F2R_le.
      assert (Hk : (F2R m1 e1 < F2R (mr * 2 ^ (er - e1)) e1)%R).
      { rewrite F2R_shift by lia. replace (e1 + (er - e1)) with er by lia. lra. }
      apply F2R_lt_inv in Hk. lia. }
    split; [exact Hle|]. intros H3.
    apply (canonical_le m3 e3 mr er); [split; [exact H3|now apply Hcan]|exact Hr|exact Hle].
  - (* a representable number below [v] *)
    intros ms es Hs Hsv.
    destruct (canonical_digits ms es Hs) as (Hds & Hes & Hnorm).
    destruct Hs as [Hs0 Hse].
    pose proof (F2R_mag ms es Hs0) as [Hsl Hsu].
    assert (Hlt : (F2R ms es < F2R (m1 + 1) e1)%R) by lra.
    assert (Hes1 : es <= e1).
    { assert (Hb : (F2R (m1 + 1) e1 <= bpow (e1 + prec))%R).
      { rewrite bpow_F2R by lia. apply F2R_le. lia. }
      assert (Hm : (bpow (Zdigits2 ms + es - 1) < bpow (e1 + prec))%R) by lra.
      apply bpow_lt_inv in Hm. unfold SpecFloat.fexp in *. lia. }
    assert (Hle : (F2R ms es <= F2R m1 e1)%R).
    { destruct (Z.eq_dec es e1) as [E|E].
      - rewrite E in *. apply F2R_lt_inv in Hlt. apply F2R_le. lia.
      - assert (Hb : (bpow (e1 + (prec - 1)) <= F2R m1 e1)%R).
        { rewrite bpow_F2R by lia. apply F2R_le. apply Hm1lb. lia. }
        assert (Hc : (bpow (Zdigits2 ms + es) <= bpow (e1 + (prec - 1)))%R).
        { apply bpow_le. lia. }
        lra. }
    assert (Hpos : (0 < F2R ms es)%R) by now apply F2R_pos.
    split; [|lra].
    destruct (Z.eq_dec m3 0) as [Hz|Hz]; [|lia].
    rewrite Hz, F2R_0 in Hge. lra.
  - (* the distance to [v] *)
    assert (Hb : (bpow e1 <= v * bpow (1 - prec) + bpow emin)%R).
    { assert (Hv0 : (0 <= v)%R).
      { pose proof (F2R_nonneg mx ex Hmx). lra. }
      pose proof (bpow_pos (1 - prec)).
      destruct (Z.eq_dec e1 emin) as [E|E].
      - rewrite E. nra.
      - assert (Hz : 0 < mx).
        { destruct (Z.eq_dec mx 0) as [Hz|Hz]; [|lia].
          exfalso. unfold e1 in *. rewrite Hz in *. unfold SpecFloat.fexp in *.
          simpl in *. lia. }
        pose proof (F2R_mag mx ex Hz) as [Hl _].
        assert (Ee : e1 = (Zdigits2 mx + ex - 1) + (1 - prec)).
        { unfold e1, SpecFloat.fexp in *. lia. }
        rewrite Ee at 1. rewrite bpow_add.
        pose proof (bpow_pos emin). pose proof (bpow_pos (Zdigits2 mx + ex - 1)).
        nra. }
    destruct Hcase as [->|[-> _]]; lra.
Qed.

End RoundReal.

Section Operations.

Variables prec emax : Z.
Hypothesis prec_pos : 0 < prec.
Hypothesis prec_lt_emax : prec < emax.

Local Abbreviation fexp := (fexp prec emax).
Local Abbreviation emin := (emin prec emax).
Local Abbreviation canonical := (canonical prec emax).

Lemma posfin_valid x : posfin prec emax x -> valid_binary prec emax x = true.
Proof.
  destruct x as [| | |[] m e]; try (simpl; tauto).
  intros [[_ Hc] Hb]. unfold valid_binary, bounded, canonical_mantissa.
  change (Zdigits2 (Zpos m)) with (Zpos (digits2_pos m)) in Hc.
  rewrite <- Hc, Z.eqb_refl. simpl. now apply Z.leb_le.
Qed.

Lemma valid_posfin m e :
  valid_binary prec emax (S754_finite false m e) = true ->
  posfin prec emax (S754_finite false m e).
Proof.
  unfold valid_binary, bounded, canonical_mantissa. intros H.
  apply andb_prop in H. destruct H as [Hc Hb].
  apply Z.eqb_eq in Hc. apply Z.leb_le in Hb.
  split; [split; [lia|]|exact Hb].
  change (Zdigits2 (Zpos m)) with (Zpos (digits2_pos m)). lia.
Qed.

Lemma posfin_pos x : posfin prec emax x -> (0 < SF2R x)%R.
Proof.
  destruct x as [| | |[] m e]; try (simpl; tauto).
  intros _. apply F2R_pos. simpl. lia.
Qed.

Lemma nonneg_SF2R x : nonneg prec emax x -> (0 <= SF2R x)%R.
Proof.
  intros [->|H]; [simpl; lra|]. apply Rlt_le. now apply posfin_pos.
Qed.

Lemma rounded_rounds_to (v : R) m3 e3 :
  (0 <= v)%R ->
  0 <= m3 ->
  (0 < m3 -> canonical m3 e3) ->
  (forall mr er, canonical mr er -> (v <= F2R mr er)%R ->
     (F2R m3 e3 <= F2R mr er)%R /\ (0 < m3 -> e3 <= er)) ->
  (forall ms es, canonical ms es -> (F2R ms es <= v)%R ->
     0 < m3 /\ (F2R ms es <= F2R m3 e3)%R) ->
  (F2R m3 e3 <= v + v * bpow (1 - prec) + bpow emin)%R ->
  rounds_to prec emax v (rounded prec emax false m3 e3).
Proof.
  intros Hv Hm3 Hcan Hup Hdown Herr.
  assert (Hshape : m3 = 0 \/ exists p, m3 = Zpos p) by (destruct m3; eauto; lia).
  unfold rounds_to. destruct Hshape as [->|[p ->]]; cbn [rounded].
  - split; [left; now left|]. split; [|split].
    + intros r Hr _. split; [now left|]. simpl. apply Rlt_le. now apply posfin_pos.
    + intros [| | |[] ms es] Hs Hsv; try (simpl in Hs; tauto).
      destruct Hs as [Hs _]. destruct (Hdown _ _ Hs Hsv). lia.
    + intros _. simpl. rewrite F2R_0 in Herr. exact Herr.
  - specialize (Hcan eq_refl).
    destruct (Z.leb_spec e3 (emax - prec)) as [Hb|Hb].
    + assert (Hpf : posfin prec emax (S754_finite false p e3)) by (split; assumption).
      split; [left; now right|]. split; [|split].
      * intros [| | |[] mr er] Hr Hvr; try (simpl in Hr; tauto).
        destruct Hr as [Hr _]. destruct (Hup _ _ Hr Hvr) as [Hle _].
        split; [now right|exact Hle].
      * intros [| | |[] ms es] Hs Hsv; try (simpl in Hs; tauto).
        destruct Hs as [Hs _]. destruct (Hdown _ _ Hs Hsv) as [_ Hle].
        right. split; [exact Hpf|exact Hle].
      * intros _. exact Herr.
    + split; [now right|]. split; [|split].
      * intros [| | |[] mr er] Hr Hvr; try (simpl in Hr; tauto).
        destruct Hr as [Hr Hrb]. destruct (Hup _ _ Hr Hvr) as [_ He]. lia.
      * intros s _ _. now left.
      * intros [H|H]; [discriminate H|destruct H].
Qed.

Lemma round_aux_rounds_to mx ex lx (v : R) :
  0 <= mx -> ex <= fexp (Zdigits2 mx + ex) ->
  (F2R mx ex <= v < F2R (mx + 1) ex)%R ->
  (lx <> loc_Exact -> (F2R mx ex < v)%R) ->
  rounds_to prec emax v (binary_round_aux prec emax false mx ex lx).
Proof.
  intros Hmx Hex Hv Hlx.
  destruct (binary_round_aux_real prec emax prec_pos false mx ex lx v Hmx Hex Hv Hlx)
    as (m3 & e3 & -> & H0 & H1 & H2 & H3 & H4).
  apply rounded_rounds_to; try assumption.
  pose proof (F2R_nonneg mx ex Hmx). lra.
Qed.

(** A float rounds to itself. *)
Lemma rounds_to_exact x : nonneg prec emax x -> rounds_to prec emax (SF2R x) x.
Proof.
  intros Hx. pose proof (nonneg_SF2R x Hx) as H0.
  split; [now left|]. split; [|split].
  - intros r _ Hr. split; assumption.
  - intros s Hs Hsv. right. split; [|exact Hsv].
    destruct Hx as [->|Hx]; [|exact Hx].
    pose proof (posfin_pos s Hs). simpl in Hsv. lra.
  - intros _. pose proof (bpow_pos (1 - prec)). pose proof (bpow_pos emin). nra.
Qed.

(** *** Rounding an integer mantissa: [binary_round] *)

Lemma pos_iter_xO p d : Zpos (Pos.iter xO p d) = Zpos p * 2 ^ Zpos d.
Proof.
  induction d as [|d IH] using Pos.peano_ind.
  - simpl. lia.
  - rewrite Pos.iter_succ, Pos2Z.inj_xO, IH, Pos2Z.inj_succ, Z.pow_succ_r by lia.
    ring.
Qed.

Lemma Zdigits2_shift m k : 0 < m -> 0 <= k -> Zdigits2 (m * 2 ^ k) = Zdigits2 m + k.
Proof.
  intros Hm Hk. destruct (Zdigits2_bounds m Hm) as [Hl Hu].
  assert (Hd : 0 < Zdigits2 m) by (destruct m; simpl; lia).
  assert (Hp : 0 < 2 ^ k) by (apply Z.pow_pos_nonneg; lia).
  apply Zdigits2_unique; [nia|].
  replace (Zdigits2 m + k - 1) with ((Zdigits2 m - 1) + k) by lia.
  rewrite !Z.pow_add_r by lia. split; nia.
Qed.

Lemma shl_align_spec mx ex ex' :
  let mz := fst (shl_align mx ex ex') in
  let ez := snd (shl_align mx ex ex') in
  F2R (Zpos mz) ez = F2R (Zpos mx) ex /\
  Zdigits2 (Zpos mz) + ez = Zdigits2 (Zpos mx) + ex /\
  ez = Z.min ex ex'.
Proof.
  unfold shl_align. destruct (ex' - ex) as [|d|d] eqn:E; cbn [fst snd].
  - repeat split; lia.
  - repeat split; lia.
  - rewrite pos_iter_xO. replace (Zpos d) with (ex - ex') by lia.
    split; [|split].
    + rewrite F2R_shift by lia. f_equal. lia.
    + rewrite Zdigits2_shift by lia. lia.
    + lia.
Qed.

Lemma binary_round_rounds_to mx ex :
  rounds_to prec emax (F2R (Zpos mx) ex) (binary_round prec emax false mx ex).
Proof.
  unfold binary_round.
  pose proof (shl_align_spec mx ex (fexp (Zpos (digits2_pos mx) + ex)))
    as (Hv & Hmag & He).
  destruct (shl_align mx ex (fexp (Zpos (digits2_pos mx) + ex))) as [mz ez].
  cbn [fst snd] in Hv, Hmag, He.
  rewrite <- Hv. apply round_aux_rounds_to.
  - lia.
  - rewrite Hmag. change (Zdigits2 (Zpos mx)) with (Zpos (digits2_pos mx)). lia.
  - split; [lra|]. apply F2R_lt. lia.
  - intros H. now elim H.
Qed.

(** *** Addition *)

Lemma SFadd_rounds_to x y :
  nonneg prec emax x -> nonneg prec emax y ->
  rounds_to prec emax (SF2R x + SF2R y) (SFadd prec emax x y).
Proof.
  intros [->|Hx] [->|Hy].
  - simpl. rewrite Rplus_0_r. apply (rounds_to_exact (S754_zero false)). now left.
  - destruct y as [| | |[] my ey]; try (simpl in Hy; tauto).
    cbn [SFadd SF2R]. rewrite Rplus_0_l.
    apply (rounds_to_exact (S754_finite false my ey)). now right.
  - destruct x as [| | |[] mx ex]; try (simpl in Hx; tauto).
    cbn [SFadd SF2R]. rewrite Rplus_0_r.
    apply (rounds_to_exact (S754_finite false mx ex)). now right.
  - destruct x as [| | |[] mx ex]; try (simpl in Hx; tauto).
    destruct y as [| | |[] my ey]; try (simpl in Hy; tauto).
    cbn [SFadd SF2R cond_Zopp].
    pose proof (shl_align_spec mx ex (Z.min ex ey)) as (Hvx & _ & Hex).
    pose proof (shl_align_spec my ey (Z.min ex ey)) as (Hvy & _ & Hey).
    cbv zeta in Hvx, Hvy, Hex, Hey.
    set (ax := fst (shl_align mx ex (Z.min ex ey))) in *.
    set (ay := fst (shl_align my ey (Z.min ex ey))) in *.
    replace (snd (shl_align mx ex (Z.min ex ey))) with (Z.min ex ey) in Hvx by lia.
    replace (snd (shl_align my ey (Z.min ex ey))) with (Z.min ex ey) in Hvy by lia.
    rewrite <- Hvx, <- Hvy.
    change (Zpos ax + Zpos ay) with (Zpos (ax + ay)).
    cbn [binary_normalize].
    replace (F2R (Zpos ax) (Z.min ex ey) + F2R (Zpos ay) (Z.min ex ey))%R
      with (F2R (Zpos (ax + ay)) (Z.min ex ey)).
    + apply binary_round_rounds_to.
    + unfold F2R. rewrite Pos2Z.inj_add, plus_IZR. ring.
Qed.

(** *** Multiplication *)

Lemma SFmul_rounds_to x y :
  nonneg prec emax x -> nonneg prec emax y ->
  rounds_to prec emax (SF2R x * SF2R y) (SFmul prec emax x y).
Proof.
  intros [->|Hx] [->|Hy].
  - simpl. rewrite Rmult_0_r. apply (rounds_to_exact (S754_zero false)). now left.
  - destruct y as [| | |[] my ey]; try (simpl in Hy; tauto).
    cbn [SFmul SF2R xorb]. rewrite Rmult_0_l.
    apply (rounds_to_exact (S754_zero false)). now left.
  - destruct x as [| | |[] mx ex]; try (simpl in Hx; tauto).
    cbn [SFmul SF2R xorb]. rewrite Rmult_0_r.
    apply (rounds_to_exact (S754_zero false)). now left.
  - destruct x as [| | |[] mx ex]; try (simpl in Hx; tauto).
    destruct y as [| | |[] my ey]; try (simpl in Hy; tauto).
    cbn [SFmul SF2R cond_Zopp xorb].
    destruct Hx as [Hx _], Hy as [Hy _].
    destruct (canonical_digits prec emax (Zpos mx) ex Hx) as (Hdx & Hex & Hnx).
    destruct (canonical_digits prec emax (Zpos my) ey Hy) as (Hdy & Hey & Hny).
    replace (F2R (Zpos mx) ex * F2R (Zpos my) ey)%R
      with (F2R (Zpos (mx * my)) (ex + ey))
      by (unfold F2R; rewrite Pos2Z.inj_mul, mult_IZR, bpow_add; ring).
    apply round_aux_rounds_to.
    + lia.
    + (* the product has enough digits, or lies below the smallest exponent *)
      destruct (Zdigits2_bounds (Zpos mx) ltac:(lia)) as [Lx Ux].
      destruct (Zdigits2_bounds (Zpos my) ltac:(lia)) as [Ly Uy].
      destruct (Zdigits2_bounds (Zpos (mx * my)) ltac:(lia)) as [Lp Up].
      assert (Hd : Zdigits2 (Zpos mx) + Zdigits2 (Zpos my) - 1
                   <= Zdigits2 (Zpos (mx * my))).
      { assert (H : 2 ^ (Zdigits2 (Zpos mx) - 1 + (Zdigits2 (Zpos my) - 1))
                    < 2 ^ Zdigits2 (Zpos (mx * my))).
        { rewrite Z.pow_add_r by lia. rewrite Pos2Z.inj_mul in Up.
          eapply Z.le_lt_trans; [|exact Up].
          apply Z.mul_le_mono_nonneg; try lia; apply Z.pow_nonneg; lia. }
        pose proof (Zdigits2_nonneg (Zpos (mx * my)) ltac:(lia)).
        apply Z.pow_lt_mono_r_iff in H; lia. }
      assert (Hemin : emin <= 0) by (unfold SpecFloat.emin; lia).
      unfold SpecFloat.fexp in *. lia.
    + split; [lra|]. apply F2R_lt. lia.
    + intros H. now elim H.
Qed.

(** *** Division *)

Lemma new_location_exact n r : r = 0 -> new_location n r = loc_Exact.
Proof.
  intros ->. unfold new_location, new_location_even, new_location_odd.
  destruct (Z.even n); reflexivity.
Qed.

Lemma div_core_rounds_to m1 e1 m2 e2 :
  0 < m1 -> 0 < m2 ->
  let '(q, e', l) := SFdiv_core_binary prec emax m1 e1 m2 e2 in
  rounds_to prec emax (F2R m1 e1 / F2R m2 e2) (binary_round_aux prec emax false q e' l).
Proof.
  intros H1 H2. unfold SFdiv_core_binary.
  set (d1 := Zdigits2 m1). set (d2 := Zdigits2 m2).
  set (e' := Z.min (fexp (d1 + e1 - (d2 + e2))) (e1 - e2)).
  set (s := e1 - e2 - e').
  assert (Hs : 0 <= s) by (unfold s, e'; lia).
  set (m' := match s with Zpos _ => Z.shiftl m1 s | 0 => m1 | Zneg _ => 0 end).
  assert (Hm' : m' = m1 * 2 ^ s).
  { unfold m'. destruct s as [|p|p] eqn:Es; try lia.
    apply Z.shiftl_mul_pow2. lia. }
  clearbody m'.
  pose proof (Z_div_mod m' m2 ltac:(lia)) as Hdm.
  destruct (Z.div_eucl m' m2) as [q r]. destruct Hdm as [Hq Hr].
  assert (Hps : 0 < 2 ^ s) by (apply Z.pow_pos_nonneg; lia).
  assert (Hm'0 : 0 < m') by (rewrite Hm'; apply Z.mul_pos_pos; lia).
  assert (Hq0 : 0 <= q).
  { destruct (Z_le_gt_dec 0 q); [assumption|].
    assert (m2 * q <= m2 * (-1)) by (apply Z.mul_le_mono_nonneg_l; lia). lia. }
  (* the quotient as a real *)
  assert (Hvq : (F2R m1 e1 / F2R m2 e2 = IZR m' / IZR m2 * bpow e')%R).
  { unfold F2R. rewrite Hm', mult_IZR, <- bpow_IZR by lia.
    replace e1 with (e2 + (e' + s)) at 1 by (unfold s; lia).
    rewrite !bpow_add.
    pose proof (bpow_pos e2). assert (0 < IZR m2)%R by (apply IZR_lt; lia).
    field. split; lra. }
  assert (Hm2 : (0 < IZR m2)%R) by (apply IZR_lt; lia).
  assert (Hqr : (IZR m' = IZR m2 * IZR q + IZR r)%R).
  { rewrite Hq, plus_IZR, mult_IZR. reflexivity. }
  assert (Hr0 : (0 <= IZR r < IZR m2)%R).
  { split; [apply IZR_le|apply IZR_lt]; lia. }
  assert (Hfrac : (IZR m' / IZR m2 = IZR q + IZR r / IZR m2)%R).
  { rewrite Hqr. field. lra. }
  assert (Hfr : (0 <= IZR r / IZR m2 < 1)%R).
  { split.
    - apply Rmult_le_pos; [lra|]. apply Rlt_le, Rinv_0_lt_compat. lra.
    - apply (Rmult_lt_reg_r (IZR m2)); [lra|].
      unfold Rdiv. rewrite Rmult_assoc, Rinv_l by lra. lra. }
  rewrite Hvq, Hfrac.
  pose proof (bpow_pos e') as Hbe.
  apply round_aux_rounds_to.
  - exact Hq0.
  - (* the quotient has enough digits, or lies below the smallest exponent *)
    destruct (Zdigits2_bounds m1 H1) as [L1 U1]. fold d1 in L1, U1.
    destruct (Zdigits2_bounds m2 H2) as [L2 U2]. fold d2 in L2, U2.
    assert (Hd1 : 0 < d1) by (unfold d1; destruct m1; simpl; lia).
    assert (Hd2 : 0 < d2) by (unfold d2; destruct m2; simpl; lia).
    assert (Hm1s : 2 ^ (d1 - 1 + s) <= m').
    { rewrite Hm', Z.pow_add_r by lia. nia. }
    set (M := d1 + e1 - (d2 + e2)) in *.
    assert (HM : M = d1 - d2 + s + e') by (unfold M, s; lia).
    assert (He'M : e' <= fexp M) by (unfold e'; lia).
    destruct (Z_le_gt_dec (d1 + s - d2) 0) as [Hk|Hk].
    + pose proof (Zdigits2_nonneg q Hq0).
      pose proof (fexp_ge_emin prec emax (Zdigits2 q + e')).
      unfold SpecFloat.fexp in *. lia.
    + assert (Hqk : 2 ^ (d1 + s - 1 - d2) <= q).
      { assert (Hdiv : 2 ^ (d1 + s - 1 - d2) <= m' / m2).
        { apply Z.div_le_lower_bound; [lia|].
          assert (Hp : 0 < 2 ^ (d1 + s - 1 - d2)) by (apply Z.pow_pos_nonneg; lia).
          assert (m2 * 2 ^ (d1 + s - 1 - d2) <= 2 ^ d2 * 2 ^ (d1 + s - 1 - d2)) by nia.
          rewrite <- Z.pow_add_r in H by lia.
          replace (d2 + (d1 + s - 1 - d2)) with (d1 - 1 + s) in H by lia. lia. }
        replace q with (m' / m2); [exact Hdiv|].
        symmetry. apply (Z.div_unique_pos m' m2 q r); lia. }
      assert (Hqpos : 0 < q).
      { assert (0 < 2 ^ (d1 + s - 1 - d2)) by (apply Z.pow_pos_nonneg; lia). lia. }
      destruct (Zdigits2_bounds q Hqpos) as [_ Uq].
      assert (Hdq : d1 + s - 1 - d2 < Zdigits2 q).
      { apply (Z.pow_lt_mono_r_iff 2); [lia|destruct q; simpl; lia|lia]. }
      apply Z.le_trans with (fexp M); [exact He'M|].
      apply fexp_mono. lia.
  - unfold F2R. rewrite plus_IZR. split; nra.
  - intros Hl.
    assert (Hrn : r <> 0).
    { intros E. apply Hl. now apply new_location_exact. }
    assert (0 < IZR r)%R by (apply IZR_lt; lia).
    assert (0 < IZR r / IZR m2)%R.
    { apply Rmult_lt_0_compat; [lra|]. apply Rinv_0_lt_compat. lra. }
    unfold F2R. nra.
Qed.

Lemma SFdiv_rounds_to x y :
  nonneg prec emax x -> posfin prec emax y ->
  rounds_to prec emax (SF2R x / SF2R y) (SFdiv prec emax x y).
Proof.
  intros Hx Hy.
  destruct y as [| | |[] my ey]; try (simpl in Hy; tauto).
  destruct Hx as [->|Hx].
  - cbn [SFdiv SF2R xorb]. unfold Rdiv. rewrite Rmult_0_l.
    apply (rounds_to_exact (S754_zero false)). now left.
  - destruct x as [| | |[] mx ex]; try (simpl in Hx; tauto).
    cbn [SFdiv SF2R cond_Zopp xorb].
    pose proof (div_core_rounds_to (Zpos mx) ex (Zpos my) ey ltac:(lia) ltac:(lia)) as H.
    destruct (SFdiv_core_binary prec emax (Zpos mx) ex (Zpos my) ey) as [[q e'] l].
    exact H.
Qed.

End Operations.

(** ** Binary64 *)

Lemma prec_pos64 : 0 < prec.
Proof. reflexivity. Qed.

Lemma prec_lt_emax64 : prec < emax.
Proof. reflexivity. Qed.

Lemma fadd_rounds x y : nonneg64 x -> nonneg64 y -> rounds64 (SF2R x + SF2R y) (fadd x y).
Proof. apply SFadd_rounds_to; reflexivity. Qed.

Lemma fmul_rounds x y : nonneg64 x -> nonneg64 y -> rounds64 (SF2R x * SF2R y) (fmul x y).
Proof. apply SFmul_rounds_to; reflexivity. Qed.

Lemma fdiv_rounds x y : nonneg64 x -> pos64 y -> rounds64 (SF2R x / SF2R y) (fdiv x y).
Proof. apply SFdiv_rounds_to; reflexivity. Qed.

Lemma bpow_neg n : 0 <= n -> bpow (- n) = (/ IZR (2 ^ n))%R.
Proof.
  intros Hn. unfold bpow. rewrite powerRZ_neg'. f_equal. now apply bpow_IZR.
Qed.

(** A positive finite float is below [2^1024]. *)
Lemma pos64_lt_max x : pos64 x -> (SF2R x < bpow 1024)%R.
Proof.
  destruct x as [| | |[] m e]; try (simpl; tauto).
  intros [Hc Hb].
  destruct (canonical_digits prec emax (Zpos m) e Hc) as (Hd & _ & _).
  pose proof (F2R_mag (Zpos m) e ltac:(lia)) as [_ Hu].
  cbn [SF2R cond_Zopp].
  eapply Rlt_le_trans; [exact Hu|]. apply bpow_le.
  unfold prec, emax in *. lia.
Qed.

(** *** Comparisons *)

Lemma pos64_compare x y :
  pos64 x -> pos64 y ->
  (flt x y = true <-> (SF2R x < SF2R y)%R) /\
  (fle x y = true <-> (SF2R x <= SF2R y)%R).
Proof.
  destruct x as [| | |[] mx ex]; try (simpl; tauto).
  destruct y as [| | |[] my ey]; try (simpl; tauto).
  intros [Hx _] [Hy _]. unfold flt, fle, SFltb, SFleb. cbn [SFcompare SF2R cond_Zopp].
  change (Pos.compare_cont Eq mx my) with (Pos.compare mx my).
  destruct (Z.compare_spec ex ey) as [E|E|E].
  - subst ey. rewrite Pos2Z.inj_compare.
    destruct (Z.compare_spec (Zpos mx) (Zpos my)) as [E|E|E].
    + rewrite E. split; split; intros; try discriminate; try reflexivity; lra.
    + pose proof (F2R_lt _ _ ex E).
      split; split; intros; try discriminate; try reflexivity; lra.
    + pose proof (F2R_lt _ _ ex E).
      split; split; intros; try discriminate; try reflexivity; lra.
  - assert (H : (F2R (Zpos mx) ex < F2R (Zpos my) ey)%R).
    { apply Rnot_le_lt. intros Hle.
      pose proof (canonical_le prec emax (Zpos my) ey (Zpos mx) ex Hy Hx Hle). lia. }
    split; split; intros; try discriminate; try reflexivity; lra.
  - assert (H : (F2R (Zpos my) ey < F2R (Zpos mx) ex)%R).
    { apply Rnot_le_lt. intros Hle.
      pose proof (canonical_le prec emax (Zpos mx) ex (Zpos my) ey Hx Hy Hle). lia. }
    split; split; intros; try discriminate; try reflexivity; lra.
Qed.

Lemma flt_zero_shape x :
  flt f0 x = true ->
  (exists m e, x = S754_finite false m e) \/ x = finf.
Proof.
  destruct x as [[]|[]| |[] m e]; unfold flt, SFltb; simpl; try discriminate.
  - right; reflexivity.
  - left; eauto.
Qed.

Lemma valid_positive x :
  valid_binary prec emax x = true -> flt f0 x = true -> positive64 x.
Proof.
  intros Hv Hx. destruct (flt_zero_shape x Hx) as [(m & e & ->)| ->].
  - left. now apply valid_posfin.
  - now right.
Qed.

Lemma positive64_flt x : positive64 x -> flt f0 x = true.
Proof.
  intros [H| ->]; [|reflexivity].
  destruct x as [| | |[] m e]; try (simpl in H; tauto); reflexivity.
Qed.

Lemma positive64_not_le0 x : positive64 x -> fle x f0 = false.
Proof.
  intros [H| ->]; [|reflexivity].
  destruct x as [| | |[] m e]; try (simpl in H; tauto); reflexivity.
Qed.

(** *** [int(x)] *)

Lemma int_of_float_nonneg x (k : Z) :
  nonneg64 x -> (SF2R x <= IZR k)%R ->
  exists n, int_of_float x = Ok n /\ 0 <= n <= k.
Proof.
  intros [->|Hx] Hk.
  - exists 0. split; [reflexivity|]. simpl in Hk. apply le_IZR in Hk. lia.
  - destruct x as [| | |[] m e]; try (simpl in Hx; tauto).
    cbn [int_of_float cond_Zopp SF2R] in *.
    exists (Z.shiftl (Zpos m) e). split; [reflexivity|].
    assert (Hn : 0 <= Z.shiftl (Zpos m) e) by (apply Z.shiftl_nonneg; lia).
    split; [exact Hn|].
    apply le_IZR. eapply Rle_trans; [|exact Hk].
    destruct (Z_le_gt_dec 0 e) as [He|He].
    + rewrite Z.shiftl_mul_pow2 by lia. unfold F2R.
      rewrite mult_IZR, <- bpow_IZR by lia. lra.
    + rewrite Z.shiftl_div_pow2 by lia.
      assert (Hp : 0 < 2 ^ (- e)) by (apply Z.pow_pos_nonneg; lia).
      pose proof (Z.mul_div_le (Zpos m) (2 ^ (- e)) Hp) as Hd.
      apply IZR_le in Hd. rewrite mult_IZR, <- bpow_IZR in Hd by lia.
      unfold F2R. replace e with (- (- e)) at 2 by lia.
      rewrite bpow_neg by lia. rewrite bpow_IZR in Hd by lia.
      assert (Hpr : (0 < IZR (2 ^ (- e)))%R) by (apply IZR_lt; lia).
      apply (Rmult_le_reg_r (IZR (2 ^ (- e)))); [exact Hpr|].
      rewrite Rmult_assoc, Rinv_l by lra. lra.
Qed.

(** *** The floats that the conversions produce *)

Lemma round_aux_negative mx ex lx :
  flt f0 (binary_round_aux prec emax true mx ex lx) = false.
Proof.
  unfold binary_round_aux.
  destruct (shr_fexp prec emax mx ex lx) as [mrs1 e1].
  destruct (shr_fexp prec emax _ e1 loc_Exact) as [mrs2 e2].
  destruct (shr_m mrs2); [reflexivity| |reflexivity].
  destruct (e2 <=? emax - prec); reflexivity.
Qed.

Lemma rounds64_positive v F :
  rounds64 v F -> flt f0 F = true -> positive64 F.
Proof.
  intros ([[ -> |H]| -> ] & _) Hlt; [discriminate Hlt|now left|now right].
Qed.

Lemma binary_round_negative m e : flt f0 (binary_round prec emax true m e) = false.
Proof.
  unfold binary_round. destruct (shl_align m e _) as [mz ez].
  apply round_aux_negative.
Qed.

Lemma binary_normalize_positive z :
  flt f0 (binary_normalize prec emax z 0 false) = true ->
  positive64 (binary_normalize prec emax z 0 false).
Proof.
  destruct z as [|p|p]; cbn [binary_normalize].
  - discriminate.
  - apply (rounds64_positive (F2R (Zpos p) 0)).
    apply binary_round_rounds_to; reflexivity.
  - rewrite binary_round_negative. discriminate.
Qed.

Lemma float_of_Z_positive z :
  flt f0 (float_of_Z z) = true -> positive64 (float_of_Z z).
Proof. apply binary_normalize_positive. Qed.

Lemma float_of_decimal_positive neg m e10 :
  flt f0 (float_of_decimal neg m e10) = true ->
  positive64 (float_of_decimal neg m e10).
Proof.
  unfold float_of_decimal. destruct m as [|p|p]; try (destruct neg; discriminate).
  destruct (0 <=? e10) eqn:E.
  - assert (Hp : 0 < Zpos p * 10 ^ e10 \/ 10 ^ e10 = 0).
    { destruct (Z_lt_le_dec e10 0) as [H|H].
      - right. now apply Z.pow_neg_r.
      - left. apply Z.mul_pos_pos; [lia|]. apply Z.pow_pos_nonneg; lia. }
    destruct neg; cbn [cond_Zopp].
    + destruct Hp as [Hp|Hp].
      * destruct (Zpos p * 10 ^ e10) as [|q|q]; try lia.
        cbn [Z.opp binary_normalize]. rewrite binary_round_negative. discriminate.
      * rewrite Hp, Z.mul_0_r. discriminate.
    + destruct Hp as [Hp|Hp].
      * destruct (Zpos p * 10 ^ e10) as [|q|q]; try lia.
        cbn [binary_normalize]. apply (rounds64_positive (F2R (Zpos q) 0)).
        apply binary_round_rounds_to; reflexivity.
      * rewrite Hp, Z.mul_0_r. discriminate.
  - assert (H10 : 0 < 10 ^ (- e10)).
    { apply Z.leb_gt in E. apply Z.pow_pos_nonneg; lia. }
    pose proof (div_core_rounds_to prec emax prec_pos64 (Zpos p) 0 (10 ^ (- e10)) 0
                  ltac:(lia) H10) as H.
    destruct (SFdiv_core_binary prec emax (Zpos p) 0 (10 ^ (- e10)) 0) as [[q e] l].
    destruct neg.
    + rewrite round_aux_negative. discriminate.
    + exact (rounds64_positive _ _ H).
Qed.

Lemma float_of_string_positive s a :
  float_of_string s = Some a -> flt f0 a = true -> positive64 a.
Proof.
  unfold float_of_string, parse_float.
  destruct (parse_sign (float_strip s)) as [neg t].
  destruct ((lower t =? "inf")%string || (lower t =? "infinity")%string).
  - intros [= <-]. destruct neg; [discriminate|]. intros _. now right.
  - destruct (lower t =? "nan")%string; [intros [= <-]; discriminate|].
    destruct (parse_number t) as [[[m k] rest]|]; [|discriminate].
    destruct (parse_exponent rest) as [e|]; [|discriminate].
    intros [= <-]. apply float_of_decimal_positive.
Qed.

Lemma py_float_positive v a :
  valid_value v -> py_float v = Ok a -> flt f0 a = true -> positive64 a.
Proof.
  destruct v as [|b|z|f|s|l|d]; simpl; try discriminate.
  - intros _ [= <-]. destruct b; [|discriminate]. intros H.
    now apply float_of_Z_positive.
  - intros _. destruct (is_finite (float_of_Z z)); [|discriminate].
    intros [= <-]. apply float_of_Z_positive.
  - intros Hv [= <-]. now apply valid_positive.
  - intros _. destruct (float_of_string s) as [f|] eqn:E; [|discriminate].
    intros [= <-]. now apply (float_of_string_positive s).
Qed.

(** *** Sums of positive floats *)

Lemma pos64_nonneg x : pos64 x -> nonneg64 x.
Proof. intros H. now right. Qed.

Lemma le64_refl x : positive64 x -> le64 x x.
Proof. intros [H| ->]; [right; repeat split; try assumption; lra | now left]. Qed.

Lemma fadd_step T a :
  nonneg64 T \/ T = finf -> positive64 a ->
  positive64 (fadd T a) /\ le64 a (fadd T a) /\
  (forall b, le64 b T -> le64 b (fadd T a)).
Proof.
  intros [HT| ->] [Ha| ->].
  - pose proof (fadd_rounds T a HT (pos64_nonneg a Ha)) as (_ & _ & Hdown & _).
    pose proof (nonneg_SF2R prec emax T HT) as HT0.
    pose proof (posfin_pos prec emax a Ha) as Ha0.
    assert (Hres : positive64 (fadd T a) /\ le64 a (fadd T a)).
    { destruct (Hdown a Ha ltac:(lra)) as [E|[Hp Hle]].
      - rewrite E. split; [now right|now left].
      - split; [now left|]. right. repeat split; assumption. }
    destruct Hres as [Hpos Hle]. split; [exact Hpos|]. split; [exact Hle|].
    intros b [E|(Hb & HTp & Hbt)].
    + subst T. exfalso. destruct HT as [HT|HT]; [discriminate HT | exact HT].
    + destruct (Hdown T HTp ltac:(lra)) as [E|[Hp HleT]].
      * now left.
      * right. repeat split; try assumption. lra.
  - assert (E : fadd T finf = finf).
    { destruct HT as [->|HT]; [reflexivity|].
      destruct T as [| | |[] m e]; try (simpl in HT; tauto); reflexivity. }
    rewrite E. split; [now right|]. split; [now left|]. intros b _. now left.
  - assert (E : fadd finf a = finf).
    { destruct a as [| | |[] m e]; try (simpl in Ha; tauto); reflexivity. }
    rewrite E. split; [now right|]. split; [now left|]. intros b _. now left.
  - change (fadd finf finf) with finf.
    split; [now right|]. split; [now left|]. intros b _. now left.
Qed.

Lemma positive64_cases x : positive64 x -> nonneg64 x \/ x = finf.
Proof. intros [H| ->]; [left; now right|now right]. Qed.

(** The running total is above every area added to it. *)
Lemma total_invariant l T0 :
  Forall positive64 l -> nonneg64 T0 \/ T0 = finf ->
  let T := fold_left fadd l T0 in
  (nonneg64 T \/ T = finf) /\
  (forall a, In a l -> le64 a T) /\
  (forall b, le64 b T0 -> le64 b T) /\
  (l <> [] -> positive64 T).
Proof.
  intros Hl. revert T0. induction Hl as [|a l Ha Hl IH]; intros T0 HT0; cbn zeta.
  - simpl. repeat split; try assumption; tauto.
  - cbn [fold_left].
    destruct (fadd_step T0 a HT0 Ha) as (Hpos & Hle & Hmono).
    destruct (IH (fadd T0 a) (positive64_cases _ Hpos)) as (H1 & H2 & H3 & H4).
    cbn zeta in H1, H2, H3, H4.
    split; [exact H1|]. split; [|split].
    + intros b [<-|Hb]; [apply H3, Hle | now apply H2].
    + intros b Hb. apply H3, Hmono, Hb.
    + intros _. destruct l as [|a' l'].
      * exact Hpos.
      * apply H4. discriminate.
Qed.

(** *** The sizes of a room *)

Lemma SF2R_num m p :
  SF2R (S754_finite false m (Zneg p)) = (IZR (Zpos m) / IZR (2 ^ Zpos p))%R.
Proof.
  cbn [SF2R cond_Zopp]. unfold F2R.
  change (Zneg p) with (- Zpos p). rewrite bpow_neg by lia. reflexivity.
Qed.

Ltac float_value c :=
  unfold c; rewrite SF2R_num;
  match goal with
  | |- context [IZR (2 ^ ?n)] =>
      let v := eval vm_compute in (2 ^ n) in change (2 ^ n) with v
  end; lra.

Lemma f1_val : SF2R f1 = 1%R.
Proof. float_value f1. Qed.
Lemma f1_4_val : SF2R f1_4 = (6305039478318694 / 4503599627370496)%R.
Proof. float_value f1_4. Qed.
Lemma f1_8_val : SF2R f1_8 = (8106479329266893 / 4503599627370496)%R.
Proof. float_value f1_8. Qed.
Lemma c0_val : SF2R c0 = (6249729645395051 / 8796093022208)%R.
Proof. float_value c0. Qed.
Lemma f200_val : SF2R f200 = 200%R.
Proof. float_value f200. Qed.
Lemma f480_val : SF2R f480 = 480%R.
Proof. float_value f480. Qed.
Lemma f711_val : SF2R f711 = 711%R.
Proof. float_value f711. Qed.
Lemma f1280_val : SF2R f1280 = 1280%R.
Proof. float_value f1280. Qed.
Lemma f2_4_val : SF2R f2_4 = (5404319552844595 / 2251799813685248)%R.
Proof. float_value f2_4. Qed.

Lemma eps_val : bpow (1 - prec) = (/ 4503599627370496)%R.
Proof.
  change (1 - prec) with (Z.opp 52). rewrite bpow_neg by lia. reflexivity.
Qed.

Lemma pos64_const m e :
  valid_binary prec emax (S754_finite false m e) = true ->
  pos64 (S754_finite false m e).
Proof. apply valid_posfin. Qed.

Ltac const_pos := apply pos64_const; vm_compute; reflexivity.

Lemma fmax_one T :
  pos64 T ->
  pos64 (fmax f1 T) /\ (1 <= SF2R (fmax f1 T))%R /\ (SF2R T <= SF2R (fmax f1 T))%R.
Proof.
  intros HT. assert (H1 : pos64 f1) by const_pos.
  destruct (pos64_compare f1 T H1 HT) as [Hlt _].
  rewrite f1_val in Hlt. unfold fmax.
  destruct (flt f1 T).
  - assert (1 < SF2R T)%R by now apply Hlt.
    repeat split; try assumption; lra.
  - assert (SF2R T <= 1)%R by (apply Rnot_lt_le; intros H; apply Hlt in H; discriminate).
    rewrite f1_val. split; [exact H1|]. split; lra.
Qed.

Lemma width_bound T a :
  pos64 T -> pos64 a -> (SF2R a <= SF2R T)%R ->
  exists n, int_of_float (fmul (fmul a (px_per_sqft_of T)) f1_8) = Ok n /\
            0 <= n <= 1280.
Proof.
  intros HT Ha Hle.
  change (px_per_sqft_of T) with (fdiv c0 (fmax f1 T)).
  destruct (fmax_one T HT) as (HTm & Hu1 & HuT).
  set (Tm := fmax f1 T) in *.
  assert (Hc0 : pos64 c0) by const_pos.
  assert (H18 : pos64 f1_8) by const_pos.
  assert (H711 : pos64 f711) by const_pos.
  assert (H1280 : pos64 f1280) by const_pos.
  pose proof (pos64_lt_max Tm HTm) as Humax.
  pose proof (posfin_pos prec emax a Ha) as Ha0.
  (* pixels per square foot *)
  destruct (fdiv_rounds c0 Tm (pos64_nonneg c0 Hc0) HTm) as (_ & Hup & _ & Herr).
  assert (Hcu : (SF2R c0 / SF2R Tm <= SF2R c0)%R).
  { rewrite c0_val. apply (Rmult_le_reg_r (SF2R Tm)); [lra|].
    unfold Rdiv at 1. rewrite Rmult_assoc, Rinv_l by lra. nra. }
  destruct (Hup c0 Hc0 Hcu) as [Hpx Hpxle]. specialize (Herr Hpx).
  pose proof (nonneg_SF2R prec emax _ Hpx) as Hpx0.
  set (px := fdiv c0 Tm) in *.
  (* area * px_per_sqft *)
  assert (Hprod : (SF2R a * SF2R px <= SF2R f711)%R).
  { rewrite f711_val.
    rewrite eps_val in Herr.
    change (SpecFloat.emin prec emax) with (-1074) in Herr.
    assert (Heta : (SF2R Tm * bpow (-1074) <= / 1125899906842624)%R).
    { assert (E : (bpow 1024 * bpow (-1074) = / 1125899906842624)%R).
      { rewrite <- bpow_add. change (1024 + -1074) with (Z.opp 50).
        rewrite bpow_neg by lia. reflexivity. }
      pose proof (bpow_pos (-1074)). nra. }
    assert (Hup' : (SF2R Tm * SF2R px
                    <= SF2R c0 + SF2R c0 * / 4503599627370496
                       + SF2R Tm * bpow (-1074))%R).
    { assert (E : (SF2R Tm * (SF2R c0 / SF2R Tm) = SF2R c0)%R) by (field; lra).
      assert (H := Rmult_le_compat_l (SF2R Tm) _ _ ltac:(lra) Herr).
      rewrite !Rmult_plus_distr_l in H.
      rewrite <- Rmult_assoc in H. rewrite E in H. exact H. }
    rewrite c0_val in Hup'. nra. }
  destruct (fmul_rounds a px (pos64_nonneg a Ha) Hpx) as (_ & Hup1 & _).
  destruct (Hup1 f711 H711 Hprod) as [Hy1 Hy1le].
  pose proof (nonneg_SF2R prec emax _ Hy1) as Hy10.
  (* ... * 1.8 *)
  destruct (fmul_rounds (fmul a px) f1_8 Hy1 (pos64_nonneg _ H18)) as (_ & Hup2 & _).
  assert (Hprod2 : (SF2R (fmul a px) * SF2R f1_8 <= SF2R f1280)%R).
  { rewrite f1_8_val, f1280_val. rewrite f711_val in Hy1le. nra. }
  destruct (Hup2 f1280 H1280 Hprod2) as [Hy2 Hy2le].
  apply int_of_float_nonneg; [exact Hy2|]. rewrite f1280_val in Hy2le. exact Hy2le.
Qed.

Lemma height_bound T a :
  pos64 T -> pos64 a -> (SF2R a <= SF2R T)%R ->
  exists n, int_of_float
              (fmul (float_of_Z base_row_height)
                    (fadd f1 (fmul (fdiv a T) f1_4))) = Ok n /\
            0 <= n <= 480.
Proof.
  intros HT Ha Hle.
  change (float_of_Z base_row_height) with f200.
  assert (H1 : pos64 f1) by const_pos.
  assert (H14 : pos64 f1_4) by const_pos.
  assert (H24 : pos64 f2_4) by const_pos.
  assert (H200 : pos64 f200) by const_pos.
  assert (H480 : pos64 f480) by const_pos.
  pose proof (posfin_pos prec emax a Ha) as Ha0.
  pose proof (posfin_pos prec emax T HT) as HT0.
  (* area / total_area *)
  destruct (fdiv_rounds a T (pos64_nonneg a Ha) HT) as (_ & Hup & _).
  assert (Hq1 : (SF2R a / SF2R T <= SF2R f1)%R).
  { rewrite f1_val. apply (Rmult_le_reg_r (SF2R T)); [lra|].
    unfold Rdiv. rewrite Rmult_assoc, Rinv_l by lra. lra. }
  destruct (Hup f1 H1 Hq1) as [Hq Hqle]. rewrite f1_val in Hqle.
  pose proof (nonneg_SF2R prec emax _ Hq) as Hq0.
  (* ... * 1.4 *)
  destruct (fmul_rounds (fdiv a T) f1_4 Hq (pos64_nonneg _ H14)) as (_ & Hup1 & _).
  assert (Hp1 : (SF2R (fdiv a T) * SF2R f1_4 <= SF2R f1_4)%R).
  { rewrite f1_4_val. nra. }
  destruct (Hup1 f1_4 H14 Hp1) as [Hx1 Hx1le].
  (* 1.0 + ... *)
  destruct (fadd_rounds f1 (fmul (fdiv a T) f1_4) (pos64_nonneg _ H1) Hx1)
    as (_ & Hup2 & _).
  assert (Hp2 : (SF2R f1 + SF2R (fmul (fdiv a T) f1_4) <= SF2R f2_4)%R).
  { rewrite f1_val, f2_4_val. rewrite f1_4_val in Hx1le. lra. }
  destruct (Hup2 f2_4 H24 Hp2) as [Hx2 Hx2le].
  pose proof (nonneg_SF2R prec emax _ Hx2) as Hx20.
  (* base_row_height * ... *)
  destruct (fmul_rounds f200 (fadd f1 (fmul (fdiv a T) f1_4))
              (pos64_nonneg _ H200) Hx2) as (_ & Hup3 & _).
  assert (Hp3 : (SF2R f200 * SF2R (fadd f1 (fmul (fdiv a T) f1_4)) <= SF2R f480)%R).
  { rewrite f200_val, f480_val. rewrite f2_4_val in Hx2le. lra. }
  destruct (Hup3 f480 H480 Hp3) as [Hx3 Hx3le].
  apply int_of_float_nonneg; [exact Hx3|]. rewrite f480_val in Hx3le. exact Hx3le.
Qed.

(** ** The order of the keys *)

Ltac compare_cases :=
  unfold flt, fle, SFltb, SFleb, SFeqb, fneg, SFopp; cbn [SFcompare negb];
  repeat match goal with
         | |- context [Pos.compare_cont Eq ?a ?b] =>
             change (Pos.compare_cont Eq a b) with (Pos.compare a b)
         | H : context [Pos.compare_cont Eq ?a ?b] |- _ =>
             change (Pos.compare_cont Eq a b) with (Pos.compare a b) in H
         end;
  repeat match goal with
         | |- context [Z.compare ?a ?b] => destruct (Z.compare_spec a b)
         | H : context [Z.compare ?a ?b] |- _ => destruct (Z.compare_spec a b)
         | |- context [Pos.compare ?a ?b] => destruct (Pos.compare_spec a b)
         | H : context [Pos.compare ?a ?b] |- _ => destruct (Pos.compare_spec a b)
         end;
  cbn [CompOpp] in *; try discriminate; try reflexivity; try lia; auto.

Lemma above_zero_shape x :
  above_zero x -> (exists m e, x = S754_finite false m e) \/ x = S754_infinity false.
Proof.
  destruct x as [[]|[]| |[] m e]; unfold above_zero, flt, SFltb; simpl;
    try discriminate; eauto.
Qed.

Ltac shape x H :=
  let m := fresh "m" in let e := fresh "e" in
  destruct (above_zero_shape x H) as [(m & e & ->)| ->].

(** For positive areas, comparing the keys [-area] is comparing the areas
    the other way round. *)
Lemma flt_fneg x y :
  above_zero x -> above_zero y -> flt (fneg y) (fneg x) = flt x y.
Proof. intros Hx Hy. shape x Hx; shape y Hy; compare_cases. Qed.

Lemma flt_asym x y :
  above_zero x -> above_zero y -> flt x y = true -> flt y x = false.
Proof. intros Hx Hy. shape x Hx; shape y Hy; compare_cases. Qed.

Lemma flt_negtrans x y z :
  above_zero x -> above_zero y -> above_zero z ->
  flt x z = true -> flt x y = true \/ flt y z = true.
Proof. intros Hx Hy Hz. shape x Hx; shape y Hy; shape z Hz; compare_cases. Qed.

Lemma flt_false_fle x y :
  above_zero x -> above_zero y -> flt x y = false -> fle y x = true.
Proof. intros Hx Hy. shape x Hx; shape y Hy; compare_cases. Qed.

Lemma fle_flt_false x y :
  above_zero x -> above_zero y -> fle y x = true -> flt x y = false.
Proof. intros Hx Hy. shape x Hx; shape y Hy; compare_cases. Qed.

(** Two floats equal to a third one are not in strict order. *)
Lemma feq_not_flt x y v :
  above_zero x -> above_zero y ->
  SFeqb x v = true -> SFeqb y v = true -> flt x y = false.
Proof.
  intros Hx Hy. shape x Hx; shape y Hy;
    destruct v as [[]|[]| |[] mv ev]; compare_cases.
Qed.

(** ** [sorted] *)

Section SortedBy.

Context {A : Type} (key : A -> float).

Lemma insert_by_perm x l : Permutation (x :: l) (insert_by key x l).
Proof.
  induction l as [|y l IH]; simpl; [reflexivity|].
  destruct (flt (key y) (key x)); [|reflexivity].
  rewrite perm_swap. now apply perm_skip.
Qed.

Lemma sorted_perm l : Permutation l (sorted key l).
Proof.
  induction l as [|x l IH]; simpl; [reflexivity|].
  rewrite <- insert_by_perm. now apply perm_skip.
Qed.

Lemma insert_by_in x y l : In y (insert_by key x l) <-> y = x \/ In y l.
Proof.
  split; intros H.
  - apply (Permutation_in _ (Permutation_sym (insert_by_perm x l))) in H.
    destruct H as [<-|H]; auto.
  - apply (Permutation_in _ (insert_by_perm x l)). destruct H as [->|H]; [now left|now right].
Qed.

(** Items that a test [p] selects, when no two of them are in strict key
    order, come out of the sort as they went in. *)
Lemma insert_by_filter (p : A -> bool) x l :
  (forall y, In y l -> p x = true -> p y = true -> flt (key y) (key x) = false) ->
  filter p (insert_by key x l) = filter p (x :: l).
Proof.
  induction l as [|y l IH]; intros Hp; [reflexivity|].
  cbn [insert_by]. destruct (flt (key y) (key x)) eqn:E; [|reflexivity].
  cbn [filter]. rewrite IH by (intros z Hz; apply Hp; now right).
  cbn [filter]. destruct (p x) eqn:Ex; [|reflexivity].
  destruct (p y) eqn:Ey; [|reflexivity].
  rewrite (Hp y (or_introl eq_refl) eq_refl Ey) in E. discriminate.
Qed.

Lemma sorted_filter (p : A -> bool) l :
  (forall x y, In x l -> In y l -> p x = true -> p y = true ->
               flt (key y) (key x) = false) ->
  filter p (sorted key l) = filter p l.
Proof.
  induction l as [|x l IH]; intros Hp; [reflexivity|].
  cbn [sorted]. rewrite insert_by_filter.
  - cbn [filter]. rewrite IH; [reflexivity|].
    intros a b Ha Hb. apply Hp; now right.
  - intros y Hy. apply Hp; [now left|].
    right. apply (Permutation_in _ (Permutation_sym (sorted_perm l))). exact Hy.
Qed.

(** The keys never decrease along the sorted list, when [<] on the keys
    at hand is asymmetric and negatively transitive. *)
Variable good : A -> Prop.
Hypothesis key_asym :
  forall x y, good x -> good y -> flt (key x) (key y) = true -> flt (key y) (key x) = false.
Hypothesis key_negtrans :
  forall x y z, good x -> good y -> good z ->
    flt (key x) (key z) = true -> flt (key x) (key y) = true \/ flt (key y) (key z) = true.

Lemma insert_by_sorted x l :
  good x -> Forall good l ->
  StronglySorted (key_ordered key) l -> StronglySorted (key_ordered key) (insert_by key x l).
Proof.
  intros Hx Hl Hs. induction Hs as [|y l Hs IH Hy]; cbn [insert_by].
  - constructor; constructor.
  - inversion Hl as [|? ? Hgy Hgl]; subst.
    destruct (flt (key y) (key x)) eqn:E.
    + constructor; [now apply IH|].
      apply Forall_forall. intros z Hz. apply insert_by_in in Hz.
      destruct Hz as [->|Hz].
      * unfold key_ordered. now apply key_asym.
      * rewrite Forall_forall in Hy. now apply Hy.
    + constructor; [now constructor|].
      constructor; [exact E|].
      apply Forall_forall. intros z Hz.
      rewrite Forall_forall in Hy, Hgl. specialize (Hy z Hz).
      unfold key_ordered in *.
      destruct (flt (key z) (key x)) eqn:Ez; [|reflexivity].
      destruct (key_negtrans z y x (Hgl z Hz) Hgy Hx Ez) as [H|H]; congruence.
Qed.

Lemma sorted_sorted l :
  Forall good l -> StronglySorted (key_ordered key) (sorted key l).
Proof.
  induction 1 as [|x l Hx Hl IH]; cbn [sorted]; [constructor|].
  apply insert_by_sorted; [exact Hx| |exact IH].
  apply Forall_forall. intros y Hy.
  rewrite Forall_forall in Hl. apply Hl.
  apply (Permutation_in _ (Permutation_sym (sorted_perm l))). exact Hy.
Qed.

End SortedBy.

Lemma rooms_sorted_descending l :
  Forall positive_area l -> StronglySorted descending (sorted by_area l).
Proof.
  intros Hl.
  assert (Hs : StronglySorted (key_ordered by_area) (sorted by_area l)).
  { apply (sorted_sorted by_area positive_area); [| |exact Hl].
    - intros x y Hx Hy. unfold by_area. rewrite !flt_fneg by assumption.
      now apply flt_asym.
    - intros x y z Hx Hy Hz. unfold by_area. rewrite !flt_fneg by assumption.
      intros H. destruct (flt_negtrans _ (area y) _ Hz Hy Hx H); auto. }
  assert (Hall : Forall positive_area (sorted by_area l)).
  { apply Forall_forall. intros r Hr. rewrite Forall_forall in Hl. apply Hl.
    apply (Permutation_in _ (Permutation_sym (sorted_perm by_area l))). exact Hr. }
  induction Hs as [|r rest Hs IH Hr]; constructor.
  - apply IH. now inversion Hall.
  - inversion Hall as [|? ? Hpr Hprest]; subst.
    apply Forall_forall. intros r2 Hr2.
    rewrite Forall_forall in Hr, Hprest. specialize (Hr r2 Hr2).
    unfold key_ordered, by_area in Hr.
    rewrite (flt_fneg _ _ Hpr (Hprest r2 Hr2)) in Hr.
    unfold descending. apply flt_false_fle; [exact Hpr|exact (Hprest r2 Hr2)|exact Hr].
Qed.

Lemma rooms_sorted_stable l v :
  Forall positive_area l ->
  filter (fun r => SFeqb (area r) v) (sorted by_area l)
  = filter (fun r => SFeqb (area r) v) l.
Proof.
  intros Hl. apply sorted_filter. intros x y Hx Hy Ex Ey.
  rewrite Forall_forall in Hl. unfold by_area.
  rewrite flt_fneg by (apply Hl; assumption).
  apply (feq_not_flt _ _ v); auto; apply Hl; assumption.
Qed.

(** ** Sanitizing, as the specification words it *)

Lemma sanitize_dicts rp ds acc T :
  sanitize rp (map PyDict ds) acc T
  = Ok ((acc ++ kept_rooms rp ds)%list,
        fold_left fadd (map area (kept_rooms rp ds)) T).
Proof.
  revert acc T. induction ds as [|d ds IH]; intros acc T.
  - simpl. now rewrite app_nil_r.
  - cbn [map sanitize py_get bind]. unfold kept_rooms. cbn [map filter].
    fold (coerce_area d).
    change (Room (py_str rp (dict_get d "room" (PyStr "Room"))) (coerce_area d))
      with (coerce_room rp d).
    change (area (coerce_room rp d)) with (coerce_area d).
    destruct (flt f0 (coerce_area d)).
    + rewrite IH. unfold kept_rooms. cbn [map fold_left].
      rewrite <- app_assoc. reflexivity.
    + apply IH.
Qed.

Lemma sanitize_ok_dicts rp rooms acc T res :
  sanitize rp rooms acc T = Ok res -> exists ds, rooms = map PyDict ds.
Proof.
  revert acc T. induction rooms as [|r rooms IH]; intros acc T H.
  - now exists [].
  - cbn [sanitize] in H.
    destruct r as [|b|z|f|s|l|d]; try discriminate H.
    cbn [py_get bind] in H.
    destruct (flt f0 _); apply IH in H; destruct H as [ds ->]; now exists (d :: ds).
Qed.

(** The loop raises at the first entry that is not a dict. *)
Lemma sanitize_not_dict rp pre r post acc T :
  forallb is_dict pre = true -> is_dict r = false ->
  sanitize rp (pre ++ r :: post) acc T = Raise (NoAttribute (type_name r) "get").
Proof.
  revert acc T. induction pre as [|p pre IH]; intros acc T Hpre Hr.
  - cbn [app sanitize]. destruct r; try reflexivity. discriminate Hr.
  - cbn [forallb] in Hpre. apply andb_true_iff in Hpre. destruct Hpre as [Hp Hpre].
    destruct p as [| | | | | |d]; try discriminate Hp.
    cbn [app sanitize py_get bind]. destruct (flt f0 _); now apply IH.
Qed.

Lemma coerce_area_positive d :
  valid_entry d -> flt f0 (coerce_area d) = true -> positive64 (coerce_area d).
Proof.
  unfold valid_entry, coerce_area. intros Hv.
  destruct (py_float (dict_get d "area" (PyInt 0))) as [a|e] eqn:E; [|discriminate].
  now apply (py_float_positive _ a Hv).
Qed.

Lemma kept_rooms_positive rp ds :
  Forall valid_entry ds -> Forall (fun r => positive64 (area r)) (kept_rooms rp ds).
Proof.
  intros Hv. apply Forall_forall. intros r Hr.
  apply filter_In in Hr. destruct Hr as [Hin Hpos].
  apply in_map_iff in Hin. destruct Hin as (d & <- & Hd).
  rewrite Forall_forall in Hv. now apply coerce_area_positive; [apply Hv|].
Qed.

Lemma kept_rooms_above_zero rp ds : Forall positive_area (kept_rooms rp ds).
Proof.
  apply Forall_forall. intros r Hr. apply filter_In in Hr. exact (proj2 Hr).
Qed.

(** The total is zero when nothing is kept; else it is positive and above
    every kept area. *)
Lemma sum_areas_facts l :
  Forall (fun r => positive64 (area r)) l ->
  (l = [] -> sum_areas l = f0) /\
  (l <> [] -> positive64 (sum_areas l)) /\
  (forall r, In r l -> le64 (area r) (sum_areas l)).
Proof.
  intros Hl. unfold sum_areas.
  assert (Hm : Forall positive64 (map area l)).
  { apply Forall_forall. intros a Ha. apply in_map_iff in Ha.
    destruct Ha as (r & <- & Hr). rewrite Forall_forall in Hl. now apply Hl. }
  destruct (total_invariant (map area l) f0 Hm) as (_ & H2 & _ & H4).
  { left. now left. }
  cbn zeta in H2, H4. split; [intros ->; reflexivity|]. split.
  - intros Hne. apply H4. destruct l; [now elim Hne|discriminate].
  - intros r Hr. apply H2. now apply in_map.
Qed.

(** ** The sizes of the rooms that are drawn *)

Lemma dims_finite T r :
  positive64 T -> pos64 (area r) -> le64 (area r) T ->
  exists w h text,
    room_width (px_per_sqft_of T) r = Ok w /\
    room_height T r = Ok h /\
    room_text r = Ok text /\
    60 <= w <= 1280 /\ 60 <= h <= 480.
Proof.
  intros HT Ha Hle. unfold room_width, room_height, room_text.
  assert (Htext : exists n, int_of_float (area r) = Ok n).
  { destruct (area r) as [| | |[] m e]; try (simpl in Ha; tauto). simpl. eauto. }
  destruct Htext as [nt ->].
  destruct HT as [HT| ->].
  - destruct Hle as [E|(_ & _ & Hle)].
    { subst T. simpl in HT. tauto. }
    destruct (width_bound T (area r) HT Ha Hle) as (nw & -> & Hw).
    destruct (height_bound T (area r) HT Ha Hle) as (nh & -> & Hh).
    cbn [bind]. do 3 eexists. repeat split; try reflexivity; lia.
  - destruct (area r) as [| | |[] m e]; try (simpl in Ha; tauto).
    exists 60, 200. eexists. repeat split; try reflexivity; lia.
Qed.

(** A width that is computed at all is at most 1280. *)
Lemma width_computed T r w :
  positive64 T -> positive64 (area r) -> le64 (area r) T ->
  room_width (px_per_sqft_of T) r = Ok w -> 60 <= w <= 1280.
Proof.
  intros HT [Ha|Ha] Hle Hw.
  - destruct (dims_finite T r HT Ha Hle) as (w' & h & t & Hw' & _ & _ & Hb & _).
    rewrite Hw in Hw'. injection Hw' as ->. exact Hb.
  - exfalso. destruct Hle as [->|(Hp & _)].
    + unfold room_width in Hw. rewrite Ha in Hw. discriminate Hw.
    + rewrite Ha in Hp. simpl in Hp. tauto.
Qed.

(** ** The placement loop *)

Lemma place_app px T pre rest c c' :
  place_prefix px T pre c = Ok (Some c') ->
  place px T (pre ++ rest) c = place px T rest c'.
Proof.
  revert c. induction pre as [|r pre IH]; intros c H; simpl in *.
  - now injection H as ->.
  - destruct (place_room px T c r) as [[c1|]|e]; simpl in *; try discriminate.
    now apply IH.
Qed.

Lemma place_room_cases px T c r :
  place_room px T c r =
    (w <- room_width px r ;;
     h <- room_height T r ;;
     if tentative_y c w + h + padding >? img_h then Ok None
     else
       text <- room_text r ;;
       Ok (Some (Cursor (tentative_x c w + w + padding) (tentative_y c w)
                        (Z.max (if cur_x c + w + padding >? img_w then 0
                                else cur_max_row_height c) h)
                        (cur_drawn c ++ [Rect (tentative_x c w) (tentative_y c w) w h text])))).
Proof.
  unfold place_room, tentative_x, tentative_y.
  destruct (room_width px r) as [w|]; [|reflexivity].
  destruct (room_height T r) as [h|]; [|reflexivity].
  cbn [bind]. destruct (cur_x c + w + padding >? img_w); reflexivity.
Qed.

Lemma place_room_break px T c r w h :
  room_width px r = Ok w -> room_height T r = Ok h ->
  tentative_y c w + h + padding > img_h ->
  place_room px T c r = Ok None.
Proof.
  intros Hw Hh Hy. rewrite place_room_cases, Hw, Hh. cbn [bind].
  destruct (Z.gtb_spec (tentative_y c w + h + padding) img_h); [reflexivity|lia].
Qed.

Lemma room_width_min px r w : room_width px r = Ok w -> 60 <= w.
Proof.
  unfold room_width. destruct (int_of_float _); [|discriminate].
  intros [= <-]. lia.
Qed.

Lemma room_height_min T r h : room_height T r = Ok h -> 60 <= h.
Proof.
  unfold room_height. destruct (int_of_float _); [|discriminate].
  intros [= <-]. lia.
Qed.

(** One turn keeps the cursor inside the padding and draws a rectangle that
    fits vertically; it fits horizontally as soon as its width does. *)
Lemma place_room_step px T c r c' :
  cursor_ok c -> place_room px T c r = Ok (Some c') ->
  cursor_ok c' /\
  exists rc, cur_drawn c' = (cur_drawn c ++ [rc])%list /\
             room_width px r = Ok (rw rc) /\
             room_height T r = Ok (rh rc) /\
             room_text r = Ok (rtext rc) /\
             rx rc = tentative_x c (rw rc) /\
             ry rc = tentative_y c (rw rc) /\
             rect_vertical rc /\
             (rw rc <= img_w - 2 * padding -> rect_horizontal rc).
Proof.
  intros (Hx & Hy & Hm) H. rewrite place_room_cases in H.
  destruct (room_width px r) as [w|] eqn:Ew; [|discriminate].
  destruct (room_height T r) as [h|] eqn:Eh; [|discriminate].
  cbn [bind] in H.
  destruct (Z.gtb_spec (tentative_y c w + h + padding) img_h) as [Hb|Hb]; [discriminate|].
  destruct (room_text r) as [text|]; [|discriminate].
  cbn [bind] in H. injection H as <-.
  pose proof (room_width_min _ _ _ Ew). pose proof (room_height_min _ _ _ Eh).
  unfold cursor_ok, rect_vertical, rect_horizontal, tentative_x, tentative_y in *.
  cbn [cur_x cur_y cur_max_row_height cur_drawn].
  unfold padding, img_w, img_h in *.
  destruct (Z.gtb_spec (cur_x c + w + 16) 1500) as [Hwrap|Hwrap].
  - split; [lia|]. eexists. split; [reflexivity|].
    cbn [rx ry rw rh rtext]. repeat split; try reflexivity; try lia;
      destruct (Z.gtb_spec (cur_x c + w + 16) 1500); try reflexivity; lia.
  - split; [lia|]. eexists. split; [reflexivity|].
    cbn [rx ry rw rh rtext]. repeat split; try reflexivity; try lia;
      destruct (Z.gtb_spec (cur_x c + w + 16) 1500); try reflexivity; lia.
Qed.

(** Every rectangle of the result satisfies what the rectangles drawn before
    and each new one satisfy. *)
Lemma place_invariant (P : rect -> Prop) px T rooms :
  (forall r c c', In r rooms -> cursor_ok c -> place_room px T c r = Ok (Some c') ->
     forall rc, cur_drawn c' = (cur_drawn c ++ [rc])%list -> P rc) ->
  forall c drawn,
    cursor_ok c -> Forall P (cur_drawn c) ->
    place px T rooms c = Ok drawn -> Forall P drawn.
Proof.
  induction rooms as [|r rooms IH]; intros Hstep c drawn Hc HP H; simpl in H.
  - now injection H as <-.
  - destruct (place_room px T c r) as [[c'|]|e] eqn:E; simpl in H; try discriminate.
    + destruct (place_room_step px T c r c' Hc E) as (Hc' & rc & Hd & _).
      apply (IH (fun r0 c0 c1 Hr => Hstep r0 c0 c1 (or_intror Hr)) c' drawn Hc'); [|exact H].
      rewrite Hd. apply Forall_app. split; [exact HP|].
      constructor; [|constructor].
      apply (Hstep r c c' (or_introl eq_refl) Hc E). exact Hd.
    + now injection H as <-.
Qed.

(** The loop only adds to what is drawn. *)
Lemma place_extends px T rooms c drawn :
  place px T rooms c = Ok drawn -> exists more, drawn = (cur_drawn c ++ more)%list.
Proof.
  revert c. induction rooms as [|r rooms IH]; intros c H; simpl in H.
  - injection H as <-. exists []. now rewrite app_nil_r.
  - destruct (place_room px T c r) as [[c'|]|e] eqn:E; simpl in H; try discriminate.
    + destruct (IH c' H) as [more ->].
      rewrite place_room_cases in E.
      destruct (room_width px r) as [w|]; [|discriminate].
      destruct (room_height T r) as [h|]; [|discriminate]. cbn [bind] in E.
      destruct (_ >? img_h); [discriminate|].
      destruct (room_text r) as [text|]; [|discriminate]. cbn [bind] in E.
      injection E as <-. cbn [cur_drawn]. rewrite <- app_assoc. eauto.
    + injection H as <-. exists []. now rewrite app_nil_r.
Qed.

(** The loop returns when the sizes and the text of every room are computed. *)
Lemma place_returns px T rooms c :
  (forall r, In r rooms -> exists w h text,
      room_width px r = Ok w /\ room_height T r = Ok h /\ room_text r = Ok text) ->
  exists drawn, place px T rooms c = Ok drawn.
Proof.
  revert c. induction rooms as [|r rooms IH]; intros c Hr; simpl.
  - eauto.
  - destruct (Hr r (or_introl eq_refl)) as (w & h & text & Hw & Hh & Ht).
    rewrite place_room_cases, Hw, Hh. cbn [bind].
    destruct (_ >? img_h); cbn [bind]; [eauto|].
    rewrite Ht. cbn [bind]. apply IH. intros r' Hr'. apply Hr. now right.
Qed.

(** ** The handler [generate_blueprint] *)

Lemma blueprint_not_list bt rp d :
  is_list (rooms_of d) = false ->
  generate_blueprint bt rp (PyDict d) = Json 400 "No rooms provided or invalid format".
Proof.
  unfold generate_blueprint, blueprint_body, rooms_of. cbn [py_get bind].
  intros ->. now rewrite orb_true_r.
Qed.

Lemma blueprint_empty bt rp d :
  rooms_of d = PyList [] ->
  generate_blueprint bt rp (PyDict d) = Json 400 "No rooms provided or invalid format".
Proof.
  unfold generate_blueprint, blueprint_body, rooms_of. cbn [py_get bind].
  intros ->. reflexivity.
Qed.

Lemma blueprint_rooms bt rp d r rooms :
  rooms_of d = PyList (r :: rooms) ->
  generate_blueprint bt rp (PyDict d) =
    match sanitize rp (r :: rooms) [] f0 with
    | Ok (s, T) => render bt s T
    | Raise ex => Json 500 (exn_text bt ex)
    end.
Proof.
  unfold generate_blueprint, blueprint_body, rooms_of, render. cbn [py_get bind].
  intros ->. cbn [truthy is_list negb orb list_items].
  destruct (sanitize rp (r :: rooms) [] f0) as [[s T]|e]; [|reflexivity].
  cbn [bind]. destruct (fle T f0); reflexivity.
Qed.

Lemma render_status bt s T :
  fle T f0 = false -> status_of (render bt s T) <> 400.
Proof.
  unfold render. intros ->.
  destruct (place _ T _ start) as [drawn|e]; cbn [bind]; [|discriminate].
  destruct (footer_of T); cbn [bind]; discriminate.
Qed.

Lemma blueprint_image bt rp payload img :
  generate_blueprint bt rp payload = Png img ->
  exists d r l s T,
    payload = PyDict d /\ rooms_of d = PyList (r :: l) /\
    sanitize rp (r :: l) [] f0 = Ok (s, T) /\
    fle T f0 = false /\
    place (px_per_sqft_of T) T (sorted by_area s) start = Ok (rects img) /\
    footer_of T = Ok (footer img).
Proof.
  intros H. destruct payload as [| | | | | |d]; try discriminate H.
  destruct (rooms_of d) as [|b|z|f|s|l|dd] eqn:E;
    try (rewrite blueprint_not_list in H by (rewrite E; reflexivity); discriminate H).
  destruct l as [|r l].
  { rewrite blueprint_empty in H by exact E. discriminate H. }
  rewrite (blueprint_rooms bt rp d r l E) in H.
  destruct (sanitize rp (r :: l) [] f0) as [[s T]|e] eqn:Es; [|discriminate H].
  unfold render in H. destruct (fle T f0) eqn:HT; [discriminate H|].
  destruct (place (px_per_sqft_of T) T (sorted by_area s) start) as [drawn|e] eqn:Ep;
    cbn [bind] in H; [|discriminate H].
  destruct (footer_of T) as [text|e] eqn:Ef; cbn [bind] in H; [|discriminate H].
  injection H as <-. exists d, r, l, s, T. cbn [rects footer]. auto 10.
Qed.

Lemma footer_is_finite T text : footer_of T = Ok text -> is_finite T = true.
Proof. unfold footer_of. destruct T as [| | |]; try discriminate; reflexivity. Qed.

Lemma place_room_some px T c r c' :
  place_room px T c r = Ok (Some c') ->
  exists w h text,
    room_width px r = Ok w /\ room_height T r = Ok h /\ room_text r = Ok text /\
    tentative_y c w + h + padding <= img_h /\
    c' = Cursor (tentative_x c w + w + padding) (tentative_y c w)
           (Z.max (if cur_x c + w + padding >? img_w then 0
                   else cur_max_row_height c) h)
           (cur_drawn c ++ [Rect (tentative_x c w) (tentative_y c w) w h text]).
Proof.
  rewrite place_room_cases.
  destruct (room_width px r) as [w|]; [|discriminate].
  destruct (room_height T r) as [h|]; [|discriminate]. cbn [bind].
  destruct (Z.gtb_spec (tentative_y c w + h + padding) img_h) as [Hb|Hb]; [discriminate|].
  destruct (room_text r) as [text|]; [|discriminate]. cbn [bind].
  intros [= <-]. exists w, h, text. auto 10.
Qed.

(** The loop draws the first rooms of the list, one rectangle each, and
    stops at the end of the list or at the first room that does not fit
    below. *)
Lemma place_draws_prefix px T rooms :
  forall c drawn,
    place px T rooms c = Ok drawn ->
    exists shown omitted more cend,
      rooms = (shown ++ omitted)%list /\
      drawn = (cur_drawn c ++ more)%list /\
      Forall2 (drawn_as px T) shown more /\
      place_prefix px T shown c = Ok (Some cend) /\
      (omitted = [] \/
       exists r rest, omitted = r :: rest /\ place_room px T cend r = Ok None).
Proof.
  induction rooms as [|r rooms IH]; intros c drawn H; simpl in H.
  - injection H as <-. exists [], [], [], c.
    split; [reflexivity|]. split; [now rewrite app_nil_r|].
    split; [constructor|]. split; [reflexivity|now left].
  - destruct (place_room px T c r) as [[c'|]|e] eqn:E; simpl in H; try discriminate.
    + destruct (IH c' drawn H) as (shown & omitted & more & cend & -> & -> & Hall & Hp & Ho).
      destruct (place_room_some px T c r c' E) as (w & h & text & Hw & Hh & Ht & _ & Ec).
      exists (r :: shown), omitted,
        (Rect (tentative_x c w) (tentative_y c w) w h text :: more), cend.
      split; [reflexivity|]. split; [rewrite Ec; cbn [cur_drawn]; now rewrite <- app_assoc|].
      split.
      * constructor; [|exact Hall]. unfold drawn_as. cbn [rw rh rtext]. auto.
      * split; [|exact Ho]. cbn [place_prefix]. rewrite E. cbn [bind]. exact Hp.
    + injection H as <-. exists [], (r :: rooms), [], c.
      split; [reflexivity|]. split; [now rewrite app_nil_r|].
      split; [constructor|]. split; [reflexivity|]. right. eauto.
Qed.

(** The rectangles of a returned image and the sorted rooms. *)
Lemma image_draws_prefix bt rp rooms s T img :
  sanitize rp rooms [] f0 = Ok (s, T) ->
  generate_blueprint bt rp (rooms_payload rooms) = Png img ->
  exists shown omitted c,
    sorted by_area s = (shown ++ omitted)%list /\
    Forall2 (drawn_as (px_per_sqft_of T) T) shown (rects img) /\
    place_prefix (px_per_sqft_of T) T shown start = Ok (Some c) /\
    (omitted = [] \/
     exists r rest, omitted = r :: rest /\
                    place_room (px_per_sqft_of T) T c r = Ok None).
Proof.
  intros Hs H.
  destruct (blueprint_image bt rp _ img H)
    as (d & r & l & s' & T' & [= <-] & Hl & Hs' & _ & Hp & _).
  cbv in Hl. injection Hl as ->. rewrite Hs in Hs'. injection Hs' as <- <-.
  destruct (place_draws_prefix _ _ _ _ _ Hp)
    as (shown & omitted & more & c & Hsplit & Hd & Hall & Hpre & Ho).
  cbn [cur_drawn start app] in Hd. rewrite <- Hd in Hall.
  exists shown, omitted, c. auto.
Qed.

Lemma valid_rooms_dicts ds : valid_rooms (PyList (map PyDict ds)) -> Forall valid_entry ds.
Proof.
  simpl. intros H. apply Forall_forall. intros e He.
  rewrite Forall_forall in H. apply (H (PyDict e)). now apply in_map.
Qed.

(** What sanitizing returns, on rooms whose floats are binary64 numbers. *)
Lemma sanitized_facts rp rooms s T :
  valid_rooms (PyList rooms) -> sanitize rp rooms [] f0 = Ok (s, T) ->
  exists ds, rooms = map PyDict ds /\ s = kept_rooms rp ds /\ T = sum_areas s /\
             Forall positive_area s /\
             Forall (fun r => positive64 (area r)) s /\
             (s = [] -> T = f0) /\
             (s <> [] -> positive64 T) /\
             (forall r, In r s -> le64 (area r) T).
Proof.
  intros Hv H. destruct (sanitize_ok_dicts _ _ _ _ _ H) as [ds ->].
  rewrite sanitize_dicts in H. cbn [app] in H. injection H as <- <-.
  pose proof (kept_rooms_positive rp ds (valid_rooms_dicts ds Hv)) as Hpos.
  destruct (sum_areas_facts _ Hpos) as (H1 & H2 & H3).
  exists ds. repeat split; try assumption. apply kept_rooms_above_zero.
Qed.

Lemma sorted_in (l : list room) r : In r (sorted by_area l) <-> In r l.
Proof.
  split; apply Permutation_in; [symmetry|]; apply sorted_perm.
Qed.

(** Every rectangle that the loop draws lies inside the padding, on all four
    sides, and is at most 1280 wide. *)
Lemma placed_rects_inside rp rooms s T drawn :
  valid_rooms (PyList rooms) ->
  sanitize rp rooms [] f0 = Ok (s, T) ->
  place (px_per_sqft_of T) T (sorted by_area s) start = Ok drawn ->
  Forall (fun rc => rect_vertical rc /\ rect_horizontal rc /\ rw rc <= 1280) drawn.
Proof.
  intros Hv Hs Hp.
  destruct (sanitized_facts rp rooms s T Hv Hs)
    as (ds & -> & _ & _ & _ & Hpos & _ & HTpos & Hle).
  apply (place_invariant _ (px_per_sqft_of T) T (sorted by_area s)) with (c := start);
    [|unfold start, cursor_ok, padding; cbn; lia|constructor|exact Hp].
  intros r c c' Hr Hc Hstep rc Hd.
  apply (proj1 (sorted_in s r)) in Hr.
  destruct (place_room_step _ _ _ _ _ Hc Hstep)
    as (_ & rc' & Hd' & Hw & _ & _ & _ & _ & Hvert & Hhor).
  rewrite Hd in Hd'. apply app_inj_tail in Hd'. destruct Hd' as [_ <-].
  assert (Hne : s <> []) by (intros E; rewrite E in Hr; exact Hr).
  rewrite Forall_forall in Hpos.
  pose proof (width_computed T r (rw rc) (HTpos Hne) (Hpos r Hr) (Hle r Hr) Hw) as Hb.
  split; [exact Hvert|]. split; [|lia].
  apply Hhor. unfold img_w, padding. lia.
Qed.

(** ** Sample requests *)




(** C3. The rooms are placed in the order of a stable sort by descending
    area: the sorted list is a permutation of the sanitized list, areas never
    increase along it, and the rooms of any one area keep their order; the
    rectangles of the returned image are, one for one and in order, those of
    the first rooms of the sorted list, up to the end of the list or to the
    first room that does not fit below. For the rooms Hall (500) and Kitchen
    (100), the rectangle of Hall is drawn first, at the origin of the
    padding, and that of Kitchen after it in the same row. *)
Theorem C3_sorted_stable (bt : exn -> string) (py_repr : pyval -> string)
  (rooms : list pyval) (sanitized : list room) (total_area : float) :
  sanitize py_repr rooms [] f0 = Ok (sanitized, total_area) ->
  let rooms_sorted := sorted (fun r => fneg (area r)) sanitized in
  Permutation sanitized rooms_sorted
  /\ StronglySorted descending rooms_sorted
  /\ (forall v, filter (fun r => SFeqb (area r) v) rooms_sorted
                = filter (fun r => SFeqb (area r) v) sanitized)
  /\ (forall img,
        generate_blueprint bt py_repr (rooms_payload rooms) = Png img ->
        exists shown omitted c,
          rooms_sorted = (shown ++ omitted)%list /\
          Forall2 (drawn_as (px_per_sqft_of total_area) total_area) shown (rects img) /\
          place_prefix (px_per_sqft_of total_area) total_area shown start
          = Ok (Some c) /\
          (omitted = [] \/
           exists r rest, omitted = r :: rest /\
             place_room (px_per_sqft_of total_area) total_area c r = Ok None))
  /\ (rooms = hall_kitchen ->
      rooms_sorted = [Room "Hall" f500; Room "Kitchen" f100] /\
      generate_blueprint bt py_repr (rooms_payload rooms)
      = Png (Image [Rect 16 16 1065 433 ("Hall" ++ newline ++ "500 sq.ft");
                    Rect 1097 16 213 246 ("Kitchen" ++ newline ++ "100 sq.ft")]
                   "Total: 600 sq.ft")).
Proof.
  intros Hs rooms_sorted.
  assert (Hpos : Forall positive_area sanitized).
  { destruct (sanitize_ok_dicts _ _ _ _ _ Hs) as [ds ->].
    rewrite sanitize_dicts in Hs. injection Hs as <- _.
    apply kept_rooms_above_zero. }
  split; [apply sorted_perm|]. split; [now apply rooms_sorted_descending|].
  split; [intros v; now apply rooms_sorted_stable|]. split.
  - intros img H. exact (image_draws_prefix bt py_repr rooms sanitized total_area img Hs H).
  - intros ->. subst rooms_sorted. vm_compute in Hs. injection Hs as <- _.
    split; [reflexivity|vm_compute; reflexivity].
Qed.

Lemma C3_sorted_stable_witness :
  sorted (fun r => fneg (area r)) [Room "Hall" f500; Room "Kitchen" f100]
  = [Room "Hall" f500; Room "Kitchen" f100]
  /\ generate_blueprint cpython_text opaque_repr (rooms_payload hall_kitchen)
     = Png (Image [Rect 16 16 1065 433 ("Hall" ++ newline ++ "500 sq.ft");
                   Rect 1097 16 213 246 ("Kitchen" ++ newline ++ "100 sq.ft")]
                  "Total: 600 sq.ft").
Proof.
  refine (proj2 (proj2 (proj2 (proj2
    (C3_sorted_stable cpython_text opaque_repr hall_kitchen
       [Room "Hall" f500; Room "Kitchen" f100] f600 _)))) eq_refl).
  reflexivity.
Defined.

Lemma map_PyDict_inj ds ds' : map PyDict ds = map PyDict ds' -> ds = ds'.
Proof.
  revert ds'. induction ds as [|d ds IH]; intros [|d' ds'] H; try discriminate.
  - reflexivity.
  - injection H as -> H. f_equal. now apply IH.
Qed.

Lemma kept_rooms_nil rp ds :
  kept_rooms rp ds = [] <-> forall e, In e ds -> flt f0 (coerce_area e) = false.
Proof.
  unfold kept_rooms. induction ds as [|d ds IH]; cbn [map filter].
  - split; [intros _ e []|reflexivity].
  - change (area (coerce_room rp d)) with (coerce_area d).
    destruct (flt f0 (coerce_area d)) eqn:E.
    + split; [discriminate|]. intros H. specialize (H d (or_introl eq_refl)). congruence.
    + rewrite IH. split.
      * intros H e [<-|He]; [exact E|now apply H].
      * intros H e He. apply H. now right.
Qed.

Lemma status_400_body resp : status_of resp = 400 -> exists msg, resp = Json 400 msg.
Proof. destruct resp as [st msg|img]; simpl; [intros ->; eauto|discriminate]. Qed.

(** When the request is refused as a client error. *)
Lemma client_error_iff bt rp d :
  valid_rooms (rooms_of d) ->
  (status_of (generate_blueprint bt rp (PyDict d)) = 400 <->
   rooms_of d = PyList [] \/
   is_list (rooms_of d) = false \/
   exists ds, rooms_of d = PyList (map PyDict ds) /\
              forall e, In e ds -> flt f0 (coerce_area e) = false).
Proof.
  intros Hv. destruct (rooms_of d) as [|b|z|f|s|l|dd] eqn:E;
    try (rewrite blueprint_not_list by (rewrite E; reflexivity);
         split; [intros _; right; left; reflexivity|reflexivity]).
  destruct l as [|r l].
  - rewrite blueprint_empty by exact E. split; [intros _; now left|reflexivity].
  - rewrite (blueprint_rooms bt rp d r l E).
    destruct (sanitize rp (r :: l) [] f0) as [[s T]|e] eqn:Es.
    + destruct (sanitized_facts rp (r :: l) s T Hv Es)
        as (ds & Hds & Hs & _ & _ & _ & Hnil & Hpos & _).
      destruct s as [|r0 s0].
      * rewrite (Hnil eq_refl). split; [|reflexivity].
        intros _. right. right. exists ds. split; [now rewrite Hds|].
        apply (kept_rooms_nil rp). now symmetry.
      * assert (HT : fle T f0 = false) by (apply positive64_not_le0, Hpos; discriminate).
        split; [intros H; now elim (render_status bt (r0 :: s0) T HT)|].
        intros [H|[H|(ds' & H & Hall)]]; try discriminate.
        injection H as H. rewrite Hds in H. apply map_PyDict_inj in H. subst ds'.
        apply (kept_rooms_nil rp) in Hall. rewrite <- Hs in Hall. discriminate.
    + split; [discriminate|].
      intros [H|[H|(ds' & H & _)]]; try discriminate.
      injection H as H. rewrite H, sanitize_dicts in Es. discriminate.
Qed.

(** C4, as the code has it. [generate_blueprint] answers with status 400 and
    a JSON error body exactly when the rooms sent are an empty list, are not
    a list, or are room objects none of which has an area above 0 once
    coerced, which is when the total area is not above 0. So do the requests
    with the rooms [[]], [[{"room": "A", "area": -5}]] and
    [[{"room": "A", "area": "<U+001C>5"}]]. A list holding an entry that is
    not an object is answered with status 500 and the message of the
    attribute error, whatever the areas of the other entries. *)
Theorem C4_client_error (bt : exn -> string) (py_repr : pyval -> string)
  (d : list (string * pyval)) :
  valid_rooms (rooms_of d) ->
  (status_of (generate_blueprint bt py_repr (PyDict d)) = 400 <->
   rooms_of d = PyList [] \/
   is_list (rooms_of d) = false \/
   exists ds, rooms_of d = PyList (map PyDict ds) /\
              forall e, In e ds -> flt f0 (coerce_area e) = false)
  /\ (status_of (generate_blueprint bt py_repr (PyDict d)) = 400 ->
      exists msg, generate_blueprint bt py_repr (PyDict d) = Json 400 msg)
  /\ (forall l s T, rooms_of d = PyList l -> sanitize py_repr l [] f0 = Ok (s, T) ->
        (fle T f0 = true <-> forall r, In r l -> exists e, r = PyDict e /\
                                                  flt f0 (coerce_area e) = false))
  /\ (forall pre r post, rooms_of d = PyList (pre ++ r :: post) ->
        forallb is_dict pre = true -> is_dict r = false ->
        generate_blueprint bt py_repr (PyDict d)
        = Json 500 (bt (NoAttribute (type_name r) "get")))
  /\ generate_blueprint bt py_repr (PyDict [("rooms", PyList [])])
     = Json 400 "No rooms provided or invalid format"
  /\ generate_blueprint bt py_repr
       (PyDict [("rooms", PyList [room_entry "A" (PyInt (-5))])])
     = Json 400 "Total area must be > 0"
  /\ generate_blueprint bt py_repr
       (PyDict [("rooms", PyList [room_entry "A" (PyStr (String "028" "5"))])])
     = Json 400 "Total area must be > 0".
Proof.
  intros Hv. split; [now apply client_error_iff|]. split; [apply status_400_body|].
  split; [|split; [|split; [reflexivity|split; reflexivity]]].
  - intros l s T El Es. rewrite El in Hv.
    destruct (sanitized_facts py_repr l s T Hv Es)
      as (ds & -> & Hs & _ & _ & _ & Hnil & Hpos & _).
    split.
    + intros HT r Hr. apply in_map_iff in Hr. destruct Hr as (e & <- & He).
      exists e. split; [reflexivity|].
      assert (Hs0 : s = []).
      { destruct s as [|r0 s0]; [reflexivity|].
        rewrite positive64_not_le0 in HT by (apply Hpos; discriminate). discriminate. }
      rewrite Hs0 in Hs. symmetry in Hs. now apply (kept_rooms_nil py_repr ds).
    + intros H. assert (Hk : kept_rooms py_repr ds = []).
      { apply kept_rooms_nil. intros e He.
        destruct (H (PyDict e) (in_map PyDict ds e He)) as (e' & [= <-] & He'). exact He'. }
      rewrite Hk in Hs. rewrite (Hnil Hs). reflexivity.
  - intros pre r post Hl Hpre Hr.
    destruct (pre ++ r :: post)%list as [|r0 l] eqn:E.
    { destruct pre; discriminate E. }
    rewrite (blueprint_rooms bt py_repr d r0 l Hl), <- E.
    rewrite (sanitize_not_dict py_repr pre r post [] f0 Hpre Hr). reflexivity.
Qed.

Lemma C4_client_error_witness :
  status_of (generate_blueprint cpython_text opaque_repr
               (PyDict [("rooms", PyList [room_entry "A" (PyStr "n/a")])])) = 400.
Proof.
  apply (proj1 (C4_client_error cpython_text opaque_repr
                  [("rooms", PyList [room_entry "A" (PyStr "n/a")])]
                  ltac:(repeat constructor))).
  right. right. exists [[("room", PyStr "A"); ("area", PyStr "n/a")]].
  split; [reflexivity|]. intros e [<-|[]]. reflexivity.
Defined.

(** C4 as worded fails: in the lists [[3]] and [[null]] every entry is
    without a positive area, yet the request is not answered with status 400
    but with 500, because the entry has no method [get]. *)
Lemma C4_non_object_entry_is_server_error :
  generate_blueprint cpython_text opaque_repr (rooms_payload [PyInt 3])
  = Json 500 "'int' object has no attribute 'get'"
  /\ generate_blueprint cpython_text opaque_repr (rooms_payload [PyNone])
     = Json 500 "'NoneType' object has no attribute 'get'".
Proof. split; reflexivity. Qed.

(** The loop stops at the first room that does not fit below. *)
Lemma place_stops px T pre r rest c w h :
  place_prefix px T pre start = Ok (Some c) ->
  room_width px r = Ok w -> room_height T r = Ok h ->
  tentative_y c w + h + padding > img_h ->
  place px T (pre ++ r :: rest) start = Ok (cur_drawn c).
Proof.
  intros Hpre Hw Hh Hy. rewrite (place_app px T pre (r :: rest) start c Hpre).
  cbn [place]. rewrite (place_room_break px T c r w h Hw Hh Hy). reflexivity.
Qed.

(** C2, as the code has it. When, after the rooms [pre] of the sorted order,
    the room [r] does not fit below ([y + h + padding > 1000] after the wrap
    test), the loop ends there with the rectangles of [pre]: neither [r] nor
    any room after it is drawn. The loop raises nothing for that; the request
    is answered with the image of those rectangles, provided the footer can
    be written, that is, [int(total_area)] does not raise. *)
Theorem C2_overflow_stops_placement (bt : exn -> string) (py_repr : pyval -> string)
  (rooms : list pyval) (sanitized : list room) (total_area : float)
  (pre : list room) (r : room) (rest : list room) (c : cursor) (w h : Z) :
  rooms <> [] ->
  sanitize py_repr rooms [] f0 = Ok (sanitized, total_area) ->
  fle total_area f0 = false ->
  sorted (fun r => fneg (area r)) sanitized = (pre ++ r :: rest)%list ->
  place_prefix (px_per_sqft_of total_area) total_area pre start = Ok (Some c) ->
  room_width (px_per_sqft_of total_area) r = Ok w ->
  room_height total_area r = Ok h ->
  tentative_y c w + h + padding > img_h ->
  place (px_per_sqft_of total_area) total_area (pre ++ r :: rest) start
  = Ok (cur_drawn c)
  /\ (forall footer_text, footer_of total_area = Ok footer_text ->
        generate_blueprint bt py_repr (rooms_payload rooms)
        = Png (Image (cur_drawn c) footer_text)).
Proof.
  intros Hne Hs HT Hsort Hpre Hw Hh Hy.
  pose proof (place_stops _ _ pre r rest c w h Hpre Hw Hh Hy) as Hplace.
  split; [exact Hplace|]. intros footer_text Hf.
  destruct rooms as [|r0 rooms]; [now elim Hne|].
  unfold rooms_payload.
  rewrite (blueprint_rooms bt py_repr [("rooms", PyList (r0 :: rooms))] r0 rooms eq_refl), Hs.
  unfold render. rewrite HT. unfold by_area. rewrite Hsort, Hplace. cbn [bind].
  rewrite Hf. reflexivity.
Qed.

Lemma C2_overflow_stops_placement_witness :
  exists drawn,
    generate_blueprint cpython_text opaque_repr (rooms_payload eighty_rooms)
    = Png (Image drawn "Total: 8000 sq.ft")
    /\ List.length drawn = 76%nat.
Proof.
  exists (cur_drawn (cursor_after eighty_rooms 76)). split; [|vm_compute; reflexivity].
  refine (proj2 (C2_overflow_stops_placement cpython_text opaque_repr eighty_rooms
           (sanitized_of eighty_rooms) (total_of eighty_rooms)
           (firstn 76 (sorted by_area (sanitized_of eighty_rooms)))
           (Room "Room" f100)
           (skipn 77 (sorted by_area (sanitized_of eighty_rooms)))
           (cursor_after eighty_rooms 76) 60 203 _ _ _ _ _ _ _ _) _ _).
  - discriminate.
  - vm_compute. reflexivity.
  - vm_compute. reflexivity.
  - vm_compute. reflexivity.
  - vm_compute. reflexivity.
  - vm_compute. reflexivity.
  - vm_compute. reflexivity.
  - vm_compute. reflexivity.
  - vm_compute. reflexivity.
Defined.

(** C2 as worded fails: with seventy-seven rooms of 1e308 sq.ft the
    seventy-seventh does not fit below and is left out, yet the request is
    answered with status 500, because the total is infinite and
    [int(total_area)] raises when the footer is written. *)
Lemma C2_omission_with_error :
  let T := total_of huge_rooms in
  let c := cursor_after huge_rooms 76 in
  sanitize opaque_repr huge_rooms [] f0 = Ok (sanitized_of huge_rooms, T)
  /\ sorted by_area (sanitized_of huge_rooms)
     = (firstn 76 (sorted by_area (sanitized_of huge_rooms))
        ++ Room "Room" f1e308 :: [])%list
  /\ place_prefix (px_per_sqft_of T) T
       (firstn 76 (sorted by_area (sanitized_of huge_rooms))) start = Ok (Some c)
  /\ room_width (px_per_sqft_of T) (Room "Room" f1e308) = Ok 60
  /\ room_height T (Room "Room" f1e308) = Ok 200
  /\ tentative_y c 60 + 200 + padding > img_h
  /\ generate_blueprint cpython_text opaque_repr (rooms_payload huge_rooms)
     = Json 500 "cannot convert float infinity to integer".
Proof.
  cbv zeta.
  split; [vm_compute; reflexivity|]. split; [vm_compute; reflexivity|].
  split; [vm_compute; reflexivity|]. split; [vm_compute; reflexivity|].
  split; [vm_compute; reflexivity|]. split; vm_compute; reflexivity.
Qed.

Lemma fle_refl x : above_zero x -> fle x x = true.
Proof. intros Hx. shape x Hx; compare_cases. Qed.

Lemma positive_finite x : positive64 x -> is_finite x = true -> pos64 x.
Proof. intros [H| ->]; [trivial|discriminate]. Qed.

Lemma le64_finite x T : pos64 T -> le64 x T -> pos64 x.
Proof.
  intros HT [->|(Hx & _)]; [|exact Hx]. simpl in HT. tauto.
Qed.

Lemma footer_finite T : pos64 T -> exists text, footer_of T = Ok text.
Proof.
  destruct T as [| | |[] m e]; try (simpl; tauto).
  intros _. unfold footer_of. simpl. eauto.
Qed.

(** The head of the sorted rooms has the largest area. *)
Lemma sorted_head_largest s :
  Forall positive_area s -> s <> [] ->
  exists largest others,
    sorted by_area s = largest :: others /\
    In largest s /\
    forall r, In r s -> fle (area r) (area largest) = true.
Proof.
  intros Hpos Hne.
  pose proof (rooms_sorted_descending s Hpos) as Hsorted.
  destruct (sorted by_area s) as [|largest others] eqn:E.
  - exfalso. apply Hne.
    apply Permutation_nil. rewrite <- E. symmetry. apply sorted_perm.
  - exists largest, others. split; [reflexivity|].
    assert (Hin : In largest s) by (apply (proj1 (sorted_in s largest)); rewrite E; now left).
    split; [exact Hin|]. intros r Hr.
    apply (proj2 (sorted_in s r)) in Hr. rewrite E in Hr.
    inversion Hsorted as [|? ? _ Hall]; subst.
    destruct Hr as [<-|Hr].
    + apply fle_refl. rewrite Forall_forall in Hpos. now apply Hpos.
    + rewrite Forall_forall in Hall. now apply Hall.
Qed.

(** With a finite total, the first sorted room is drawn at the origin of the
    padding and the request is answered with an image. *)
Lemma first_room_drawn bt rp r0 rooms s T :
  valid_rooms (PyList (r0 :: rooms)) ->
  sanitize rp (r0 :: rooms) [] f0 = Ok (s, T) ->
  fle T f0 = false -> is_finite T = true ->
  exists largest others first rest footer_text,
    sorted by_area s = largest :: others /\
    (forall r, In r s -> fle (area r) (area largest) = true) /\
    generate_blueprint bt rp (rooms_payload (r0 :: rooms))
    = Png (Image (first :: rest) footer_text) /\
    rx first = padding /\ ry first = padding /\
    60 <= rw first <= 1280 /\ 60 <= rh first <= 480 /\
    room_text largest = Ok (rtext first).
Proof.
  intros Hv Hs HT Hfin.
  destruct (sanitized_facts rp _ s T Hv Hs)
    as (ds & _ & _ & _ & Habove & Hpos & Hnil & HTpos & Hle).
  assert (Hne : s <> []).
  { intros E. rewrite (Hnil E) in HT. discriminate HT. }
  pose proof (positive_finite T (HTpos Hne) Hfin) as HTfin.
  destruct (sorted_head_largest s Habove Hne) as (largest & others & Esort & Hin & Hmax).
  assert (Hdims : forall r, In r (largest :: others) -> exists w h text,
             room_width (px_per_sqft_of T) r = Ok w /\ room_height T r = Ok h /\
             room_text r = Ok text /\ 60 <= w <= 1280 /\ 60 <= h <= 480).
  { intros r Hr. rewrite <- Esort in Hr. apply (proj1 (sorted_in s r)) in Hr.
    apply dims_finite; [now left| |now apply Hle].
    apply (le64_finite _ T HTfin). now apply Hle. }
  destruct (Hdims largest (or_introl eq_refl)) as (w & h & text & Hw & Hh & Ht & Hwb & Hhb).
  set (c1 := Cursor (padding + w + padding) padding (Z.max 0 h)
                    [Rect padding padding w h text]).
  assert (Hstep : place_room (px_per_sqft_of T) T start largest = Ok (Some c1)).
  { rewrite place_room_cases, Hw, Hh. cbn [bind].
    unfold tentative_x, tentative_y, start. cbn [cur_x cur_y cur_max_row_height cur_drawn].
    unfold padding, img_w, img_h in *.
    destruct (Z.gtb_spec (16 + w + 16) 1500); [lia|].
    destruct (Z.gtb_spec (16 + h + 16) 1000); [lia|].
    rewrite Ht. reflexivity. }
  destruct (place_returns (px_per_sqft_of T) T others c1) as [drawn Hdrawn].
  { intros r Hr. destruct (Hdims r (or_intror Hr)) as (w' & h' & t' & H1 & H2 & H3 & _).
    exists w', h', t'. auto. }
  destruct (place_extends _ _ _ _ _ Hdrawn) as [rest Hrest]. cbn [cur_drawn c1] in Hrest.
  destruct (footer_finite T HTfin) as [footer_text Hfooter].
  exists largest, others, (Rect padding padding w h text), rest, footer_text.
  split; [exact Esort|]. split; [exact Hmax|]. split.
  - unfold rooms_payload.
    rewrite (blueprint_rooms bt rp [("rooms", PyList (r0 :: rooms))] r0 rooms eq_refl), Hs.
    unfold render. rewrite HT, Esort. cbn [place]. rewrite Hstep. cbn [bind].
    rewrite Hdrawn. cbn [bind]. rewrite Hfooter, Hrest. reflexivity.
  - cbn [rx ry rw rh rtext]. repeat split; try lia; try reflexivity. exact Ht.
Qed.

(** C8, as the code has it. When validation passes and the total area is
    finite, the room of largest area, first in the sorted order, is drawn at
    [(padding, padding)] without any wrap: its width is at most 1280 and its
    height at most 480, so that [y + h + padding <= 512 <= 1000]; the request
    is answered with an image that starts with this rectangle. *)
Theorem C8_largest_room_drawn (bt : exn -> string) (py_repr : pyval -> string)
  (rooms : list pyval) (sanitized : list room) (total_area : float) :
  valid_rooms (PyList rooms) ->
  sanitize py_repr rooms [] f0 = Ok (sanitized, total_area) ->
  fle total_area f0 = false ->
  is_finite total_area = true ->
  exists largest others first rest footer_text,
    sorted (fun r => fneg (area r)) sanitized = largest :: others /\
    (forall r, In r sanitized -> fle (area r) (area largest) = true) /\
    generate_blueprint bt py_repr (rooms_payload rooms)
    = Png (Image (first :: rest) footer_text) /\
    rx first = padding /\ ry first = padding /\
    60 <= rw first <= 1280 /\ 60 <= rh first <= 480 /\
    ry first + rh first + padding <= 512 /\
    room_text largest = Ok (rtext first).
Proof.
  intros Hv Hs HT Hfin.
  destruct rooms as [|r0 rooms].
  { simpl in Hs. injection Hs as <- <-. discriminate HT. }
  destruct (first_room_drawn bt py_repr r0 rooms sanitized total_area Hv Hs HT Hfin)
    as (largest & others & first & rest & footer_text & H1 & H2 & H3 & H4 & H5 & H6 & H7 & H8).
  exists largest, others, first, rest, footer_text.
  repeat split; try assumption; try lia.
  rewrite H5. unfold padding. lia.
Qed.

Lemma C8_largest_room_drawn_witness :
  exists first rest footer_text,
    generate_blueprint cpython_text opaque_repr (rooms_payload hall_kitchen)
    = Png (Image (first :: rest) footer_text) /\
    ry first + rh first + padding <= 512.
Proof.
  destruct (C8_largest_room_drawn cpython_text opaque_repr hall_kitchen
              [Room "Hall" f500; Room "Kitchen" f100] f600)
    as (largest & others & first & rest & footer_text & _ & _ & H & _ & _ & _ & _ & Hy & _).
  - repeat constructor.
  - reflexivity.
  - reflexivity.
  - reflexivity.
  - exists first, rest, footer_text. split; [exact H|exact Hy].
Defined.

(** C8 as worded fails: the room [{"room": "A", "area": "inf"}] passes
    validation, with an infinite total, and no rectangle is drawn: the width
    of the room is [int] of a NaN and the request is answered with status
    500. *)
Lemma C8_infinite_area_not_drawn :
  sanitize opaque_repr infinite_room [] f0
  = Ok ([Room "A" (S754_infinity false)], S754_infinity false)
  /\ fle (S754_infinity false) f0 = false
  /\ generate_blueprint cpython_text opaque_repr (rooms_payload infinite_room)
     = Json 500 "cannot convert float NaN to integer".
Proof.
  split; [vm_compute; reflexivity|]. split; vm_compute; reflexivity.
Qed.

(** The rectangles of an image that the handler returns. *)
Lemma image_rects_inside bt rp d img :
  valid_rooms (rooms_of d) ->
  generate_blueprint bt rp (PyDict d) = Png img ->
  Forall (fun rc => rect_vertical rc /\ rect_horizontal rc /\ rw rc <= 1280) (rects img).
Proof.
  intros Hv H.
  destruct (rooms_of d) as [|b|z|f|s|l|dd] eqn:E;
    try (rewrite blueprint_not_list in H by (rewrite E; reflexivity); discriminate H).
  destruct l as [|r l].
  { rewrite blueprint_empty in H by exact E. discriminate H. }
  rewrite (blueprint_rooms bt rp d r l E) in H.
  destruct (sanitize rp (r :: l) [] f0) as [[s T]|e] eqn:Es; [|discriminate H].
  unfold render in H. destruct (fle T f0); [discriminate H|].
  destruct (place (px_per_sqft_of T) T (sorted by_area s) start) as [drawn|e] eqn:Ep;
    cbn [bind] in H; [|discriminate H].
  destruct (footer_of T) as [text|e]; cbn [bind] in H; [|discriminate H].
  injection H as <-. cbn [rects].
  exact (placed_rects_inside rp (r :: l) s T drawn Hv Es Ep).
Qed.

(** C9, as the code has it. Every rectangle of a returned image lies inside
    the padding on all four sides: [x >= padding], [y >= padding],
    [y + height + padding <= 1000] and also [x + width + padding <= 1500].
    The last bound holds although the loop does not test it again after a
    wrap, because a width is at most 1280: the area of a room is at most the
    total, and [px_per_sqft] is 710.512 divided by [max(1, total)]. *)
Theorem C9_rectangles_inside_canvas (bt : exn -> string) (py_repr : pyval -> string)
  (d : list (string * pyval)) (img : image) :
  valid_rooms (rooms_of d) ->
  generate_blueprint bt py_repr (PyDict d) = Png img ->
  Forall (fun rc => padding <= rx rc /\ padding <= ry rc /\
                    ry rc + rh rc + padding <= img_h /\
                    rx rc + rw rc + padding <= img_w /\
                    rw rc <= 1280)
         (rects img).
Proof.
  intros Hv H. pose proof (image_rects_inside bt py_repr d img Hv H) as Hall.
  apply Forall_forall. intros rc Hrc. rewrite Forall_forall in Hall.
  destruct (Hall rc Hrc) as ((H1 & H2 & H3) & H4 & H5).
  repeat split; assumption.
Qed.

Lemma C9_rectangles_inside_canvas_witness :
  Forall (fun rc => padding <= rx rc /\ padding <= ry rc /\
                    ry rc + rh rc + padding <= img_h /\
                    rx rc + rw rc + padding <= img_w /\
                    rw rc <= 1280)
    [Rect 16 16 1065 433 ("Hall" ++ newline ++ "500 sq.ft");
     Rect 1097 16 213 246 ("Kitchen" ++ newline ++ "100 sq.ft")].
Proof.
  apply (C9_rectangles_inside_canvas cpython_text opaque_repr
           [("rooms", PyList hall_kitchen)]
           (Image [Rect 16 16 1065 433 ("Hall" ++ newline ++ "500 sq.ft");
                   Rect 1097 16 213 246 ("Kitchen" ++ newline ++ "100 sq.ft")]
                  "Total: 600 sq.ft")).
  - repeat constructor.
  - vm_compute. reflexivity.
Defined.

(** C9 as worded fails in its second half. A room that is alone has the
    largest width there is, 1278, and is drawn at [x = 16] with its right
    edge inside the canvas; and no request makes the handler return an image
    with a rectangle whose right edge, padding included, passes the canvas
    width. *)
Lemma C9_no_rectangle_past_right_edge :
  generate_blueprint cpython_text opaque_repr
    (rooms_payload [room_entry "Hall" (PyInt 1000000)])
  = Png (Image [Rect 16 16 1278 480 ("Hall" ++ newline ++ "1000000 sq.ft")]
               "Total: 1000000 sq.ft")
  /\ ~ (exists bt py_repr d img rc,
          valid_rooms (rooms_of d) /\
          generate_blueprint bt py_repr (PyDict d) = Png img /\
          In rc (rects img) /\
          rx rc + rw rc + padding > img_w).
Proof.
  split; [vm_compute; reflexivity|].
  intros (bt & rp & d & img & rc & Hv & H & Hin & Hover).
  pose proof (image_rects_inside bt rp d img Hv H) as Hall.
  rewrite Forall_forall in Hall. destruct (Hall rc Hin) as (_ & Hh & _).
  unfold rect_horizontal in Hh. lia.
Qed.

(** * Further properties of the handlers *)

(** ** Whitespace around a value *)

Lemma parse_value_strip name v : parse_value name (Some (strip v)) = parse_value name (Some v).
Proof. unfold parse_value. rewrite strip_idem. reflexivity. Qed.

(** X1. Whitespace before and after a form value never changes what
    [parse_value] returns or raises, for any field. *)
Theorem X1_parse_value_ignores_outer_whitespace (name pre v post : string) :
  blank pre -> blank post ->
  parse_value name (Some (pre ++ v ++ post)) = parse_value name (Some v).
Proof.
  intros Hpre Hpost.
  rewrite <- (parse_value_strip name (pre ++ v ++ post)), <- (parse_value_strip name v).
  rewrite strip_blank_around by assumption. reflexivity.
Qed.

Lemma X1_parse_value_ignores_outer_whitespace_witness :
  parse_value "area" (Some ("  " ++ "1200" ++ " ")) = parse_value "area" (Some "1200").
Proof.
  apply (X1_parse_value_ignores_outer_whitespace "area" "  " "1200" " ").
  - intros c [<-|[<-|[]]]; reflexivity.
  - intros c [<-|[]]; reflexivity.
Defined.

(** X2. [parse_value] raises nothing but its own three errors: the
    missing-input message for the field; for [furnishingstatus] the
    unrecognized-category message; for any other field the invalid-numeric
    message. The latter two carry the trimmed value. *)
Theorem X2_parse_value_errors (name : string) (raw_value : option string) (e : exn) :
  parse_value name raw_value = Raise e ->
  e = MissingInput name
  \/ (exists v, raw_value = Some v /\ strip v <> "" /\
        ((name = "furnishingstatus" /\ e = UnrecognizedCategory (strip v)) \/
         (name <> "furnishingstatus" /\ e = InvalidNumeric name (strip v)))).
Proof.
  unfold parse_value. destruct raw_value as [v|]; [|intros [= <-]; now left].
  destruct (String.eqb_spec (strip v) "") as [E|E]; [intros [= <-]; now left|].
  destruct (String.eqb_spec name "furnishingstatus") as [En|En].
  - destruct (float_of_string (strip v)); [discriminate|].
    destruct (mapping_get mapping (lower (strip v))); [discriminate|].
    intros [= <-]. right. exists v. auto.
  - destruct (float_of_string (strip v)); [discriminate|].
    intros [= <-]. right. exists v. auto.
Qed.

Lemma X2_parse_value_errors_witness :
  UnrecognizedCategory "penthouse" = MissingInput "furnishingstatus"
  \/ (exists v, Some " penthouse" = Some v /\ strip v <> "" /\
        (("furnishingstatus" = "furnishingstatus" /\
          UnrecognizedCategory "penthouse" = UnrecognizedCategory (strip v)) \/
         ("furnishingstatus" <> "furnishingstatus" /\
          UnrecognizedCategory "penthouse" = InvalidNumeric "furnishingstatus" (strip v)))).
Proof.
  apply (X2_parse_value_errors "furnishingstatus" (Some " penthouse")
           (UnrecognizedCategory "penthouse")).
  reflexivity.
Defined.

(** ** The category words *)

(** X3. For [furnishingstatus] the three category words are recognised in
    any letter case and with whitespace around them: whenever the trimmed,
    lower-cased value is a key of the table, the result is the float of its
    code. A value of that kind is never read as a number first. *)
Theorem X3_category_words_any_case (v : string) (n : Z) :
  mapping_get mapping (lower (strip v)) = Some n ->
  parse_value "furnishingstatus" (Some v) = Ok (float_of_Z n).
Proof.
  intros H. pose proof (category_not_float v n H) as Hf.
  unfold parse_value. rewrite Hf.
  destruct (String.eqb_spec (strip v) "") as [E|_].
  { rewrite E in H. discriminate H. }
  change ("furnishingstatus" =? "furnishingstatus")%string with true. cbv iota zeta.
  rewrite H. reflexivity.
Qed.

Lemma X3_category_words_any_case_witness :
  parse_value "furnishingstatus" (Some " Semi-Furnished ")
  = Ok (S754_finite false 4503599627370496 (-52)).
Proof.
  apply (X3_category_words_any_case " Semi-Furnished " 1). reflexivity.
Defined.

(** ** The fields other than [furnishingstatus] *)

(** X4. For a field other than [furnishingstatus] whose value is not blank:
    a value that [float] accepts as it stands is accepted, with that float;
    a result, when there is one, is the float of the trimmed value; and
    otherwise "Invalid numeric input for <name>: <trimmed value>" is raised.
    The category words are refused there, in any letter case. *)
Theorem X4_parse_value_numeric_field (name v : string) :
  name <> "furnishingstatus" -> strip v <> "" ->
  (forall f, float_of_string v = Some f -> parse_value name (Some v) = Ok f)
  /\ (forall f, parse_value name (Some v) = Ok f -> float_of_string (strip v) = Some f)
  /\ (float_of_string (strip v) = None ->
      parse_value name (Some v) = Raise (InvalidNumeric name (strip v)))
  /\ (forall n, mapping_get mapping (lower (strip v)) = Some n ->
        parse_value name (Some v) = Raise (InvalidNumeric name (strip v))).
Proof.
  intros Hname Hv.
  assert (E : parse_value name (Some v) =
              match float_of_string (strip v) with
              | Some f => Ok f
              | None => Raise (InvalidNumeric name (strip v))
              end).
  { unfold parse_value. rewrite (eqb_empty_false _ Hv).
    destruct (String.eqb_spec name "furnishingstatus") as [E|_]; [now elim Hname|].
    reflexivity. }
  split; [|split; [|split]].
  - intros f Hf. now apply parse_value_numeric.
  - intros f. rewrite E. destruct (float_of_string (strip v)); [|discriminate].
    now intros [= ->].
  - intros Hf. now rewrite E, Hf.
  - intros n Hn. now rewrite E, (category_not_float v n Hn).
Qed.

Lemma X4_parse_value_numeric_field_witness :
  parse_value "mainroad" (Some " Furnished ")
  = Raise (ValueError "Invalid numeric input for mainroad: Furnished").
Proof.
  refine (proj2 (proj2 (proj2
    (X4_parse_value_numeric_field "mainroad" " Furnished " _ _))) 2 _).
  - discriminate.
  - discriminate.
  - reflexivity.
Defined.

(** ** [predict] *)

Lemma collect_values_forall2 form feats vals :
  collect_values form feats = Ok vals <->
  Forall2 (fun feat val => parse_value feat (form_get form feat) = Ok val) feats vals.
Proof.
  revert vals. induction feats as [|feat feats IH]; intros vals; simpl.
  - split.
    + intros [= <-]. constructor.
    + intros H. inversion H. reflexivity.
  - split.
    + destruct (parse_value feat (form_get form feat)) as [v|] eqn:E; [|discriminate].
      cbn [bind]. destruct (collect_values form feats) as [vs|] eqn:Ec; [|discriminate].
      intros [= <-]. constructor; [exact E|]. now apply IH.
    + intros H. inversion H as [|? v ? vs Hv Hvs]; subst.
      rewrite Hv. cbn [bind]. apply IH in Hvs. rewrite Hvs. reflexivity.
Qed.

Lemma predict_estimate bt model form text ta :
  predict bt model form = EstimatePage text ta ->
  exists vals pred,
    collect_values form FEATURES = Ok vals /\
    model vals = Ok pred /\
    format_prediction pred = Ok text /\
    ta = form_total_area form.
Proof.
  unfold predict.
  destruct (collect_values form FEATURES) as [vals|] eqn:Ev; [|discriminate].
  cbn [bind]. destruct (model vals) as [pred|] eqn:Em; [|discriminate].
  cbn [bind]. destruct (format_prediction pred) as [t|] eqn:Ef; [|discriminate].
  cbn [bind]. intros [= <- <-]. exists vals, pred. auto.
Qed.

(** X5. The estimate page is rendered only when each of the twelve fields
    parses: the model is then called once with exactly twelve values, the
    value of each feature in the order of [FEATURES], and the text shown is
    the formatted output of the model. *)
Theorem X5_estimate_needs_twelve_values (bt : exn -> string)
  (model : list float -> result pyval) (form : list (string * string))
  (text : string) (ta : option float) :
  predict bt model form = EstimatePage text ta ->
  exists vals pred,
    Forall2 (fun feat val => parse_value feat (form_get form feat) = Ok val)
            FEATURES vals /\
    List.length vals = 12%nat /\
    model vals = Ok pred /\
    format_prediction pred = Ok text.
Proof.
  intros H. destruct (predict_estimate bt model form text ta H)
    as (vals & pred & Hv & Hm & Hf & _).
  exists vals, pred. apply collect_values_forall2 in Hv.
  repeat split; try assumption.
  rewrite <- (Forall2_length Hv). reflexivity.
Qed.

Lemma X5_estimate_needs_twelve_values_witness :
  exists vals pred,
    Forall2 (fun feat val => parse_value feat (form_get sample_form feat) = Ok val)
            FEATURES vals /\
    List.length vals = 12%nat /\
    (fun _ : list float => Ok (PyInt 4500000)) vals = Ok pred /\
    format_prediction pred = Ok "45.00 L".
Proof.
  apply (X5_estimate_needs_twelve_values cpython_text (fun _ => Ok (PyInt 4500000))
           sample_form "45.00 L"
           (Some (S754_finite false 4503599627370496 (-52)))).
  vm_compute. reflexivity.
Defined.

Lemma parse_value_ok_numeric name v f :
  name <> "furnishingstatus" ->
  parse_value name (Some v) = Ok f -> float_of_string (strip v) = Some f.
Proof.
  intros Hname. unfold parse_value.
  destruct (strip v =? "")%string; [discriminate|].
  destruct (String.eqb_spec name "furnishingstatus") as [E|_]; [now elim Hname|].
  destruct (float_of_string (strip v)); [|discriminate]. now intros [= ->].
Qed.

Lemma collect_values_area form vals :
  collect_values form FEATURES = Ok vals ->
  exists raw a vals',
    vals = a :: vals' /\ form_get form "area" = Some raw /\
    float_of_string (strip raw) = Some a.
Proof.
  intros Hv. pose proof (proj1 (collect_values_forall2 _ _ _) Hv) as Hall.
  unfold FEATURES in Hall. inversion Hall as [|? a ? vals' Ha _]; subst.
  destruct (form_get form "area") as [raw|]; [|discriminate Ha].
  exists raw, a, vals'. split; [reflexivity|]. split; [reflexivity|].
  apply (parse_value_ok_numeric "area"); [discriminate|exact Ha].
Qed.

(** X6. On the estimate page [total_area] is [float] of the "area" text as
    it was sent. When it is not [None] it is the value that the model
    received as its first feature, the float of the trimmed text; it is
    [None] only when [float] refuses the untrimmed text that [parse_value]
    accepted once trimmed. *)
Theorem X6_total_area_first_feature_or_none (bt : exn -> string)
  (model : list float -> result pyval) (form : list (string * string))
  (text : string) (ta : option float) :
  predict bt model form = EstimatePage text ta ->
  exists raw a vals pred,
    form_get form "area" = Some raw /\
    float_of_string (strip raw) = Some a /\
    collect_values form FEATURES = Ok (a :: vals) /\
    model (a :: vals) = Ok pred /\
    ta = float_of_string raw /\
    (ta = Some a \/ ta = None).
Proof.
  intros H. destruct (predict_estimate bt model form text ta H)
    as (vals & pred & Hv & Hm & _ & ->).
  destruct (collect_values_area form vals Hv) as (raw & a & vals' & -> & Hraw & Ha).
  exists raw, a, vals', pred.
  assert (Hta : form_total_area form = float_of_string raw).
  { unfold form_total_area. now rewrite Hraw. }
  repeat split; try assumption.
  rewrite Hta. destruct (float_of_string raw) as [b|] eqn:Eb; [left|now right].
  destruct (float_accepts_strip raw b Eb) as (_ & _ & Hb). congruence.
Qed.

Lemma X6_total_area_first_feature_or_none_witness :
  exists raw a vals pred,
    form_get (("area", String "028" "1") :: sample_form) "area" = Some raw /\
    float_of_string (strip raw) = Some a /\
    collect_values (("area", String "028" "1") :: sample_form) FEATURES
    = Ok (a :: vals) /\
    (fun _ : list float => Ok (PyInt 4500000)) (a :: vals) = Ok pred /\
    None = float_of_string raw /\
    (None = Some a \/ @None float = None).
Proof.
  apply (X6_total_area_first_feature_or_none cpython_text
           (fun _ => Ok (PyInt 4500000))
           (("area", String "028" "1") :: sample_form) "45.00 L" None).
  vm_compute. reflexivity.
Defined.

Lemma collect_values_agree form1 form2 feats :
  (forall feat, In feat feats -> form_get form1 feat = form_get form2 feat) ->
  collect_values form1 feats = collect_values form2 feats.
Proof.
  induction feats as [|feat feats IH]; intros H; simpl; [reflexivity|].
  rewrite (H feat) by now left.
  rewrite IH by (intros f Hf; apply H; now right). reflexivity.
Qed.

(** X7. [predict] reads the twelve fields of [FEATURES] and nothing else:
    two forms that agree on them get the same page, whatever other fields
    they hold. *)
Theorem X7_predict_reads_features_only (bt : exn -> string)
  (model : list float -> result pyval) (form1 form2 : list (string * string)) :
  (forall feat, In feat FEATURES -> form_get form1 feat = form_get form2 feat) ->
  predict bt model form1 = predict bt model form2.
Proof.
  intros H. unfold predict, form_total_area.
  rewrite (collect_values_agree form1 form2 FEATURES H).
  rewrite (H "area") by (now left). reflexivity.
Qed.

Lemma X7_predict_reads_features_only_witness :
  predict cpython_text (fun _ => Ok (PyInt 4500000)) (("csrf", "x") :: sample_form)
  = predict cpython_text (fun _ => Ok (PyInt 4500000)) sample_form.
Proof.
  apply (X7_predict_reads_features_only cpython_text (fun _ => Ok (PyInt 4500000))
           (("csrf", "x") :: sample_form) sample_form).
  intros feat Hin. cbn [form_get].
  destruct (String.eqb_spec "csrf" feat) as [<-|_]; [|reflexivity].
  exfalso. repeat (destruct Hin as [Hin|Hin]; [discriminate Hin|]). exact Hin.
Defined.

(** ** [split] *)

(** X8. [split] never fails. When [float] accepts the "area" parameter as
    it stands, [total_area] is that float, and it is also what [parse_value]
    makes of the parameter; in every other case it is 1000.0: the parameter
    is absent or [float] refuses it, which is so in particular whenever
    [parse_value] would raise. *)
Theorem X8_split_total_area (args : list (string * string)) :
  (forall raw f, form_get args "area" = Some raw -> float_of_string raw = Some f ->
     split args = SplitPage f /\ parse_value "area" (Some raw) = Ok f)
  /\ (forall raw, form_get args "area" = Some raw -> float_of_string raw = None ->
        split args = SplitPage f1000)
  /\ (form_get args "area" = None -> split args = SplitPage f1000)
  /\ (forall e, parse_value "area" (form_get args "area") = Raise e ->
        split args = SplitPage f1000).
Proof.
  split; [|split; [|split]].
  - intros raw f Hraw Hf. unfold split. rewrite Hraw, Hf.
    split; [reflexivity|now apply parse_value_numeric].
  - intros raw Hraw Hf. unfold split. now rewrite Hraw, Hf.
  - intros Hraw. unfold split. now rewrite Hraw.
  - intros e He. unfold split.
    destruct (form_get args "area") as [raw|]; [|reflexivity].
    destruct (float_of_string raw) as [f|] eqn:Hf; [|reflexivity].
    rewrite (parse_value_numeric "area" raw f Hf) in He. discriminate He.
Qed.

Lemma X8_split_total_area_witness :
  split [("area", String "028" "5")] = SplitPage f1000
  /\ parse_value "area" (Some (String "028" "5"))
     = Ok (S754_finite false 5629499534213120 (-50)).
Proof.
  split.
  - apply (proj1 (proj2 (X8_split_total_area [("area", String "028" "5")]))
             (String "028" "5")); reflexivity.
  - reflexivity.
Defined.

(** X9. The split page opened with the "area" text of a form that
    [predict] accepted shows the [total_area] of the estimate page, or
    1000.0 when that one is [None]. *)
Theorem X9_split_agrees_with_estimate (bt : exn -> string)
  (model : list float -> result pyval) (form args : list (string * string))
  (text : string) (ta : option float) :
  predict bt model form = EstimatePage text ta ->
  form_get args "area" = form_get form "area" ->
  split args = SplitPage match ta with Some a => a | None => f1000 end.
Proof.
  intros H Hargs.
  destruct (predict_estimate bt model form text ta H) as (vals & pred & _ & _ & _ & ->).
  unfold split, form_total_area. rewrite Hargs.
  destruct (form_get form "area") as [raw|]; [|reflexivity].
  destruct (float_of_string raw); reflexivity.
Qed.

Lemma X9_split_agrees_with_estimate_witness :
  split [("area", "1")] = SplitPage (S754_finite false 4503599627370496 (-52)).
Proof.
  apply (X9_split_agrees_with_estimate cpython_text (fun _ => Ok (PyInt 4500000))
           sample_form [("area", "1")] "45.00 L"
           (Some (S754_finite false 4503599627370496 (-52)))).
  - vm_compute. reflexivity.
  - reflexivity.
Defined.

(** ** Requests that are not made of objects *)

(** X10. A request body that is not an object, or whose "rooms" list holds
    an entry that is not an object, is answered with status 500 and the
    message of the attribute error on [get] for the type of that value (of
    the first such entry), not with status 400, whatever the other entries
    are. *)
Theorem X10_non_object_is_server_error (bt : exn -> string) (py_repr : pyval -> string) :
  (forall payload, is_dict payload = false ->
     generate_blueprint bt py_repr payload
     = Json 500 (bt (NoAttribute (type_name payload) "get")))
  /\ (forall d pre r post, rooms_of d = PyList (pre ++ r :: post) ->
        forallb is_dict pre = true -> is_dict r = false ->
        generate_blueprint bt py_repr (PyDict d)
        = Json 500 (bt (NoAttribute (type_name r) "get"))).
Proof.
  split.
  - intros payload H. destruct payload; try reflexivity. discriminate H.
  - intros d pre r post Hl Hpre Hr.
    destruct (pre ++ r :: post)%list as [|r0 l] eqn:E.
    { destruct pre; discriminate E. }
    rewrite (blueprint_rooms bt py_repr d r0 l Hl), <- E.
    rewrite (sanitize_not_dict py_repr pre r post [] f0 Hpre Hr). reflexivity.
Qed.

Lemma X10_non_object_is_server_error_witness :
  generate_blueprint cpython_text opaque_repr
    (rooms_payload [room_entry "Hall" (PyInt 500); PyList []; PyInt 3])
  = Json 500 "'list' object has no attribute 'get'".
Proof.
  apply (proj2 (X10_non_object_is_server_error cpython_text opaque_repr)
           [("rooms", PyList [room_entry "Hall" (PyInt 500); PyList []; PyInt 3])]
           [room_entry "Hall" (PyInt 500)] (PyList []) [PyInt 3]); reflexivity.
Defined.

(** ** The status of a request made of room objects *)

Lemma valid_dicts ds : Forall valid_entry ds -> valid_rooms (PyList (map PyDict ds)).
Proof.
  intros H. simpl. apply Forall_forall. intros r Hr.
  apply in_map_iff in Hr. destruct Hr as (e & <- & He).
  rewrite Forall_forall in H. now apply H.
Qed.

Lemma positive64_not_finite x : positive64 x -> is_finite x = false -> x = finf.
Proof.
  intros [H| ->]; [|reflexivity].
  destruct x as [| | |[] m e]; try (simpl in H; tauto); discriminate.
Qed.

Lemma render_infinite bt s : status_of (render bt s finf) = 500.
Proof.
  unfold render. change (fle finf f0) with false. cbv iota.
  destruct (place _ finf _ start) as [drawn|e]; cbn [bind]; reflexivity.
Qed.

(** X11. For a non-empty list of room objects the status of the answer is
    decided by the total of the kept areas alone: 400 when it is not above
    0, 200 (the image) when it is positive and finite, and 500 when the sum
    overflowed to infinity. *)
Theorem X11_status_by_total_area (bt : exn -> string) (py_repr : pyval -> string)
  (ds : list (list (string * pyval))) :
  ds <> [] -> Forall valid_entry ds ->
  status_of (generate_blueprint bt py_repr (rooms_payload (map PyDict ds)))
  = if fle (sum_areas (kept_rooms py_repr ds)) f0 then 400
    else if is_finite (sum_areas (kept_rooms py_repr ds)) then 200 else 500.
Proof.
  intros Hne Hv. destruct ds as [|d ds]; [now elim Hne|].
  pose proof (valid_dicts (d :: ds) Hv) as Hvr.
  pose proof (sanitize_dicts py_repr (d :: ds) [] f0) as Hs. cbn [app] in Hs.
  fold (sum_areas (kept_rooms py_repr (d :: ds))) in Hs.
  set (s := kept_rooms py_repr (d :: ds)) in *. set (T := sum_areas s) in *.
  destruct (fle T f0) eqn:HT.
  - unfold rooms_payload. cbn [map] in *.
    rewrite (blueprint_rooms bt py_repr [("rooms", PyList (PyDict d :: map PyDict ds))]
               (PyDict d) (map PyDict ds) eq_refl), Hs.
    unfold render. rewrite HT. reflexivity.
  - destruct (is_finite T) eqn:Hfin.
    + cbn [map] in *.
      destruct (first_room_drawn bt py_repr (PyDict d) (map PyDict ds) s T Hvr Hs HT Hfin)
        as (largest & others & first & rest & footer_text & _ & _ & -> & _).
      reflexivity.
    + destruct (sanitized_facts py_repr _ s T Hvr Hs) as (_ & _ & _ & _ & _ & _ & Hnil & Hpos & _).
      assert (Hsne : s <> []).
      { intros E. rewrite (Hnil E) in HT. discriminate HT. }
      pose proof (positive64_not_finite T (Hpos Hsne) Hfin) as ET.
      unfold rooms_payload. cbn [map] in *.
      rewrite (blueprint_rooms bt py_repr [("rooms", PyList (PyDict d :: map PyDict ds))]
                 (PyDict d) (map PyDict ds) eq_refl), Hs.
      rewrite ET. apply render_infinite.
Qed.

Lemma X11_status_by_total_area_witness :
  status_of (generate_blueprint cpython_text opaque_repr
               (rooms_payload [room_entry "A" (PyFloat f1e308);
                               room_entry "B" (PyFloat f1e308)])) = 500.
Proof.
  refine (eq_trans (X11_status_by_total_area cpython_text opaque_repr
            [[("room", PyStr "A"); ("area", PyFloat f1e308)];
             [("room", PyStr "B"); ("area", PyFloat f1e308)]] _ _) _).
  - discriminate.
  - repeat constructor.
  - vm_compute. reflexivity.
Defined.

(** ** The total and the areas *)

Lemma le64_fle a T : positive64 a -> le64 a T -> fle a T = true.
Proof.
  intros Ha [->|(Hpa & HT & Hle)].
  - destruct Ha as [Ha| ->]; [|reflexivity].
    destruct a as [| | |[] m e]; try (simpl in Ha; tauto); reflexivity.
  - now apply (pos64_compare a T Hpa HT).
Qed.

(** X12. Although the total is a sum of floats, rounded at each step, it is
    never below the area of a kept room: [area <= total_area] holds for each
    of them, so that no share [area / total_area] is computed from a total
    smaller than the area. *)
Theorem X12_total_area_dominates (py_repr : pyval -> string) (rooms : list pyval)
  (sanitized : list room) (total_area : float) :
  valid_rooms (PyList rooms) ->
  sanitize py_repr rooms [] f0 = Ok (sanitized, total_area) ->
  forall r, In r sanitized ->
    flt f0 (area r) = true /\ fle (area r) total_area = true.
Proof.
  intros Hv Hs r Hr.
  destruct (sanitized_facts py_repr rooms sanitized total_area Hv Hs)
    as (ds & _ & _ & _ & Habove & Hpos & _ & _ & Hle).
  rewrite Forall_forall in Habove, Hpos.
  split; [exact (Habove r Hr)|].
  apply le64_fle; [now apply Hpos | now apply Hle].
Qed.

Lemma X12_total_area_dominates_witness :
  flt f0 (area (Room "Kitchen" f100)) = true
  /\ fle (area (Room "Kitchen" f100)) f600 = true.
Proof.
  apply (X12_total_area_dominates opaque_repr hall_kitchen
           [Room "Hall" f500; Room "Kitchen" f100] f600).
  - repeat constructor.
  - reflexivity.
  - right. left. reflexivity.
Defined.

(** ** One turn of the placement loop *)

(** What every turn keeps holds of the cursor at the end of the loop. *)
Lemma place_cursor_invariant (I : cursor -> Prop) px T rooms :
  (forall r c c', In r rooms -> I c -> place_room px T c r = Ok (Some c') -> I c') ->
  forall c drawn,
    I c -> place px T rooms c = Ok drawn ->
    exists c', I c' /\ drawn = cur_drawn c'.
Proof.
  induction rooms as [|r rooms IH]; intros Hstep c drawn Hc H; simpl in H.
  - injection H as <-. eauto.
  - destruct (place_room px T c r) as [[c'|]|e] eqn:E; simpl in H; try discriminate.
    + apply (IH (fun r0 c0 c1 Hr => Hstep r0 c0 c1 (or_intror Hr)) c' drawn); [|exact H].
      exact (Hstep r c c' (or_introl eq_refl) Hc E).
    + injection H as <-. eauto.
Qed.

(** ** Rectangles that do not meet *)

Lemma FOP_snoc {A} (R : A -> A -> Prop) l x :
  ForallOrdPairs R l -> Forall (fun y => R y x) l -> ForallOrdPairs R (l ++ [x]).
Proof.
  induction 1 as [|a l Ha Hl IH]; intros Hx; simpl.
  - constructor; constructor.
  - inversion Hx as [|? ? Hax Hlx]; subst. constructor.
    + apply Forall_app. split; [exact Ha|]. constructor; [exact Hax|constructor].
    + now apply IH.
Qed.

Lemma laid_out_step px T c r c' :
  laid_out c -> place_room px T c r = Ok (Some c') -> laid_out c'.
Proof.
  intros ((Hx & Hy & Hm) & Hsep & Hbehind) H.
  destruct (place_room_some px T c r c' H) as (w & h & text & Hw & Hh & _ & _ & ->).
  pose proof (room_width_min _ _ _ Hw) as Hw60.
  pose proof (room_height_min _ _ _ Hh) as Hh60.
  assert (Hold : Forall (fun rc =>
            separated rc (Rect (tentative_x c w) (tentative_y c w) w h text) /\
            behind (Cursor (tentative_x c w + w + padding) (tentative_y c w)
                      (Z.max (if cur_x c + w + padding >? img_w then 0
                              else cur_max_row_height c) h) []) rc)
            (cur_drawn c)).
  { eapply Forall_impl; [|exact Hbehind].
    intros rc Hrc. unfold separated, behind, tentative_x, tentative_y in *.
    cbn [rx ry rw rh cur_x cur_y cur_max_row_height].
    unfold padding, img_w in *.
    destruct (Z.gtb_spec (cur_x c + w + 16) 1500); lia. }
  split; [|split].
  - unfold cursor_ok, tentative_x, tentative_y.
    cbn [cur_x cur_y cur_max_row_height]. unfold padding, img_w in *.
    destruct (Z.gtb_spec (cur_x c + w + 16) 1500); lia.
  - cbn [cur_drawn]. apply FOP_snoc; [exact Hsep|].
    eapply Forall_impl; [|exact Hold]. intros rc Hrc. exact (proj1 Hrc).
  - cbn [cur_drawn]. apply Forall_app. split.
    + eapply Forall_impl; [|exact Hold]. intros rc Hrc. exact (proj2 Hrc).
    + constructor; [|constructor]. left.
      cbn [rx ry rw rh cur_x cur_y cur_max_row_height]. lia.
Qed.

Lemma laid_out_start : laid_out start.
Proof.
  unfold laid_out, cursor_ok, start, padding. cbn.
  repeat split; try lia; constructor.
Qed.

(** X13. In the image that the handler returns, any two rectangles are at
    least the padding (16 pixels) apart: the one drawn later is in the same
    row and to the right of the other, or in a row below it. No two rooms
    overlap. *)
Theorem X13_rectangles_apart (bt : exn -> string) (py_repr : pyval -> string)
  (payload : pyval) (img : image) :
  generate_blueprint bt py_repr payload = Png img ->
  ForallOrdPairs separated (rects img).
Proof.
  intros H.
  destruct (blueprint_image bt py_repr payload img H)
    as (d & r & l & s & T & _ & _ & _ & _ & Hp & _).
  destruct (place_cursor_invariant laid_out _ _ _
              (fun r0 c0 c1 _ Hc Hs => laid_out_step _ _ c0 r0 c1 Hc Hs)
              start (rects img) laid_out_start Hp) as (c' & (_ & Hsep & _) & ->).
  exact Hsep.
Qed.

Lemma X13_rectangles_apart_witness :
  ForallOrdPairs separated
    [Rect 16 16 1065 433 ("Hall" ++ newline ++ "500 sq.ft");
     Rect 1097 16 213 246 ("Kitchen" ++ newline ++ "100 sq.ft")].
Proof.
  apply (X13_rectangles_apart cpython_text opaque_repr (rooms_payload hall_kitchen)
           (Image [Rect 16 16 1065 433 ("Hall" ++ newline ++ "500 sq.ft");
                   Rect 1097 16 213 246 ("Kitchen" ++ newline ++ "100 sq.ft")]
                  "Total: 600 sq.ft")).
  vm_compute. reflexivity.
Defined.

(** ** The rooms that are drawn *)

(** X14. The rectangles of a returned image are, one for one and in order,
    the first rooms of the sorted list: each has the width, the height and
    the text computed for its room. The rooms left out are therefore the
    last ones of that order, those of smallest area. *)
Theorem X14_drawn_rooms_are_first_sorted (bt : exn -> string) (py_repr : pyval -> string)
  (payload : pyval) (img : image) :
  generate_blueprint bt py_repr payload = Png img ->
  exists d l sanitized total_area shown omitted,
    payload = PyDict d /\ rooms_of d = PyList l /\
    sanitize py_repr l [] f0 = Ok (sanitized, total_area) /\
    sorted (fun r => fneg (area r)) sanitized = (shown ++ omitted)%list /\
    Forall2 (drawn_as (px_per_sqft_of total_area) total_area) shown (rects img).
Proof.
  intros H.
  destruct (blueprint_image bt py_repr payload img H)
    as (d & r & l & s & T & -> & Hl & Hs & _ & Hp & _).
  destruct (place_draws_prefix _ _ _ _ _ Hp)
    as (shown & omitted & more & cend & Hsplit & Hd & Hall & _).
  cbn [cur_drawn start app] in Hd. rewrite <- Hd in Hall.
  exists d, (r :: l), s, T, shown, omitted. auto 10.
Qed.

Lemma X14_drawn_rooms_are_first_sorted_witness :
  exists d l sanitized total_area shown omitted,
    rooms_payload eighty_rooms = PyDict d /\ rooms_of d = PyList l /\
    sanitize opaque_repr l [] f0 = Ok (sanitized, total_area) /\
    sorted (fun r => fneg (area r)) sanitized = (shown ++ omitted)%list /\
    Forall2 (drawn_as (px_per_sqft_of total_area) total_area) shown
      (rects (Image (cur_drawn (cursor_after eighty_rooms 76)) "Total: 8000 sq.ft")).
Proof.
  apply (X14_drawn_rooms_are_first_sorted cpython_text opaque_repr
           (rooms_payload eighty_rooms)
           (Image (cur_drawn (cursor_after eighty_rooms 76)) "Total: 8000 sq.ft")).
  vm_compute. reflexivity.
Defined.

(** ** The sizes of the rectangles *)

Lemma int_of_float_lower x (k : Z) :
  pos64 x -> (IZR k <= SF2R x)%R ->
  exists n, int_of_float x = Ok n /\ k <= n.
Proof.
  intros Hx Hk.
  destruct x as [| | |[] m e]; try (simpl in Hx; tauto).
  cbn [int_of_float cond_Zopp SF2R] in *.
  exists (Z.shiftl (Zpos m) e). split; [reflexivity|].
  destruct (Z_le_gt_dec 0 e) as [He|He].
  - rewrite Z.shiftl_mul_pow2 by lia. apply le_IZR.
    eapply Rle_trans; [exact Hk|]. unfold F2R.
    rewrite mult_IZR, <- bpow_IZR by lia. lra.
  - rewrite Z.shiftl_div_pow2 by lia.
    assert (Hp : 0 < 2 ^ (- e)) by (apply Z.pow_pos_nonneg; lia).
    apply Z.div_le_lower_bound; [exact Hp|].
    apply le_IZR. rewrite mult_IZR.
    unfold F2R in Hk. replace e with (- (- e)) in Hk at 1 by lia.
    rewrite bpow_neg in Hk by lia.
    assert (Hpr : (0 < IZR (2 ^ (- e)))%R) by (apply IZR_lt; lia).
    apply (Rmult_le_compat_l (IZR (2 ^ (- e)))) in Hk; [|lra].
    replace (IZR (2 ^ (- e)) * (IZR (Zpos m) * / IZR (2 ^ (- e))))%R
      with (IZR (Zpos m)) in Hk by (field; lra).
    exact Hk.
Qed.

Lemma nonneg64_not_inf x : nonneg64 x -> x <> finf.
Proof. intros [->|H] E; [discriminate E|]. rewrite E in H. exact H. Qed.

(** The height of a room is between 200 and 480. *)
Lemma height_range T a :
  pos64 T -> pos64 a -> (SF2R a <= SF2R T)%R ->
  exists n, int_of_float
              (fmul (float_of_Z base_row_height)
                    (fadd f1 (fmul (fdiv a T) f1_4))) = Ok n /\
            200 <= n <= 480.
Proof.
  intros HT Ha Hle.
  destruct (height_bound T a HT Ha Hle) as (n & Hn & Hn480).
  change (float_of_Z base_row_height) with f200 in *.
  assert (H1 : pos64 f1) by const_pos.
  assert (H14 : pos64 f1_4) by const_pos.
  assert (H24 : pos64 f2_4) by const_pos.
  assert (H200 : pos64 f200) by const_pos.
  pose proof (posfin_pos prec emax a Ha) as Ha0.
  pose proof (posfin_pos prec emax T HT) as HT0.
  destruct (fdiv_rounds a T (pos64_nonneg a Ha) HT) as (_ & Hup & _).
  assert (Hq1 : (SF2R a / SF2R T <= SF2R f1)%R).
  { rewrite f1_val. apply (Rmult_le_reg_r (SF2R T)); [lra|].
    unfold Rdiv. rewrite Rmult_assoc, Rinv_l by lra. lra. }
  destruct (Hup f1 H1 Hq1) as [Hq Hqle]. rewrite f1_val in Hqle.
  pose proof (nonneg_SF2R prec emax _ Hq) as Hq0.
  destruct (fmul_rounds (fdiv a T) f1_4 Hq (pos64_nonneg _ H14)) as (_ & Hup1 & _).
  assert (Hp1 : (SF2R (fdiv a T) * SF2R f1_4 <= SF2R f1_4)%R).
  { rewrite f1_4_val. nra. }
  destruct (Hup1 f1_4 H14 Hp1) as [Hx1 Hx1le].
  pose proof (nonneg_SF2R prec emax _ Hx1) as Hx10.
  destruct (fadd_rounds f1 (fmul (fdiv a T) f1_4) (pos64_nonneg _ H1) Hx1)
    as (_ & Hup2 & Hdown2 & _).
  assert (Hp2 : (SF2R f1 + SF2R (fmul (fdiv a T) f1_4) <= SF2R f2_4)%R).
  { rewrite f1_val, f2_4_val. rewrite f1_4_val in Hx1le. lra. }
  destruct (Hup2 f2_4 H24 Hp2) as [Hx2 Hx2le].
  assert (Hlow2 : pos64 (fadd f1 (fmul (fdiv a T) f1_4)) /\
                  (1 <= SF2R (fadd f1 (fmul (fdiv a T) f1_4)))%R).
  { destruct (Hdown2 f1 H1 ltac:(lra)) as [E|[Hpos Hge]].
    - now elim (nonneg64_not_inf _ Hx2).
    - rewrite f1_val in Hge. split; assumption. }
  destruct Hlow2 as [Hx2pos Hx2ge].
  destruct (fmul_rounds f200 (fadd f1 (fmul (fdiv a T) f1_4))
              (pos64_nonneg _ H200) Hx2) as (_ & Hup3 & Hdown3 & _).
  assert (Hp3 : (SF2R f200 * SF2R (fadd f1 (fmul (fdiv a T) f1_4)) <= SF2R f480)%R).
  { rewrite f200_val, f480_val. rewrite f2_4_val in Hx2le. lra. }
  assert (H480 : pos64 f480) by const_pos.
  destruct (Hup3 f480 H480 Hp3) as [Hx3 _].
  assert (Hge3 : (SF2R f200 <= SF2R f200 * SF2R (fadd f1 (fmul (fdiv a T) f1_4)))%R).
  { rewrite f200_val. lra. }
  destruct (Hdown3 f200 H200 Hge3) as [E|[Hpos3 Hge]].
  { now elim (nonneg64_not_inf _ Hx3). }
  rewrite f200_val in Hge.
  destruct (int_of_float_lower _ 200 Hpos3 Hge) as (n' & Hn' & Hlow).
  rewrite Hn in Hn'. injection Hn' as <-.
  exists n. split; [exact Hn|lia].
Qed.

Lemma dims_range T r w h :
  pos64 T -> positive64 (area r) -> le64 (area r) T ->
  room_width (px_per_sqft_of T) r = Ok w -> room_height T r = Ok h ->
  size_ok w h.
Proof.
  intros HT Hpa Hle Hw Hh.
  pose proof (le64_finite _ T HT Hle) as Ha.
  destruct Hle as [E|(_ & _ & Hle)].
  { subst T. simpl in HT. tauto. }
  destruct (width_bound T (area r) HT Ha Hle) as (nw & Enw & Hnw).
  destruct (height_range T (area r) HT Ha Hle) as (nh & Enh & Hnh).
  unfold room_width in Hw. rewrite Enw in Hw. injection Hw as <-.
  unfold room_height in Hh. rewrite Enh in Hh. injection Hh as <-.
  unfold size_ok. lia.
Qed.

(** The rooms behind an image, and their sizes. *)
Lemma image_rooms bt rp d img :
  valid_rooms (rooms_of d) ->
  generate_blueprint bt rp (PyDict d) = Png img ->
  exists s T,
    place (px_per_sqft_of T) T (sorted by_area s) start = Ok (rects img) /\
    forall r w h, In r (sorted by_area s) ->
      room_width (px_per_sqft_of T) r = Ok w -> room_height T r = Ok h ->
      size_ok w h.
Proof.
  intros Hv H.
  destruct (blueprint_image bt rp (PyDict d) img H)
    as (d' & r & l & s & T & [= <-] & Hl & Hs & HT & Hp & Hf).
  rewrite Hl in Hv.
  destruct (sanitized_facts rp (r :: l) s T Hv Hs)
    as (ds & _ & _ & _ & _ & Hpos & Hnil & HTpos & Hle).
  exists s, T. split; [exact Hp|].
  intros r0 w h Hr Hw Hh. apply (proj1 (sorted_in s r0)) in Hr.
  assert (Hne : s <> []) by (intros E; rewrite E in Hr; exact Hr).
  pose proof (positive_finite T (HTpos Hne) (footer_is_finite T _ Hf)) as HTfin.
  rewrite Forall_forall in Hpos.
  exact (dims_range T r0 w h HTfin (Hpos r0 Hr) (Hle r0 Hr) Hw Hh).
Qed.

(** X15. Every rectangle of a returned image is between 60 and 1280 pixels
    wide and between 200 and 480 pixels high. *)
Theorem X15_rectangle_sizes (bt : exn -> string) (py_repr : pyval -> string)
  (d : list (string * pyval)) (img : image) :
  valid_rooms (rooms_of d) ->
  generate_blueprint bt py_repr (PyDict d) = Png img ->
  Forall (fun rc => 60 <= rw rc <= 1280 /\ 200 <= rh rc <= 480) (rects img).
Proof.
  intros Hv H. destruct (image_rooms bt py_repr d img Hv H) as (s & T & Hp & Hsize).
  apply (place_invariant _ (px_per_sqft_of T) T (sorted by_area s)) with (c := start);
    [|unfold start, cursor_ok, padding; cbn; lia|constructor|exact Hp].
  intros r c c' Hr Hc Hstep rc Hd.
  destruct (place_room_step _ _ _ _ _ Hc Hstep) as (_ & rc' & Hd' & Hw & Hh & _).
  rewrite Hd in Hd'. apply app_inj_tail in Hd'. destruct Hd' as [_ <-].
  exact (Hsize r (rw rc) (rh rc) Hr Hw Hh).
Qed.

Lemma X15_rectangle_sizes_witness :
  Forall (fun rc => 60 <= rw rc <= 1280 /\ 200 <= rh rc <= 480)
    [Rect 16 16 1065 433 ("Hall" ++ newline ++ "500 sq.ft");
     Rect 1097 16 213 246 ("Kitchen" ++ newline ++ "100 sq.ft")].
Proof.
  apply (X15_rectangle_sizes cpython_text opaque_repr
           [("rooms", PyList hall_kitchen)]
           (Image [Rect 16 16 1065 433 ("Hall" ++ newline ++ "500 sq.ft");
                   Rect 1097 16 213 246 ("Kitchen" ++ newline ++ "100 sq.ft")]
                  "Total: 600 sq.ft")).
  - repeat constructor.
  - vm_compute. reflexivity.
Defined.

(** ** How many rooms fit *)

Lemma within_capacity_step px T c r c' :
  (forall w h, room_width px r = Ok w -> room_height T r = Ok h -> size_ok w h) ->
  within_capacity c -> place_room px T c r = Ok (Some c') -> within_capacity c'.
Proof.
  intros Hsize (k & i & Hk & Hi & Hy & Hx & Hrow & Hm & Hlen & Hmax) H.
  destruct (place_room_some px T c r c' H) as (w & h & text & Hw & Hh & _ & Hfit & ->).
  destruct (Hsize w h Hw Hh) as [Hwb Hhb].
  unfold within_capacity, tentative_x, tentative_y in *.
  cbn [cur_x cur_y cur_max_row_height cur_drawn].
  rewrite length_app. cbn [List.length]. rewrite Nat2Z.inj_add. cbn [Z.of_nat Pos.of_succ_nat].
  unfold padding, img_w, img_h in *.
  destruct (Z.gtb_spec (cur_x c + w + 16) 1500) as [Hwrap|Hwrap].
  - exists (k + 1), 1. lia.
  - exists k, (i + 1). lia.
Qed.

Lemma within_capacity_start : within_capacity start.
Proof.
  exists 0, 0. unfold start, padding. cbn. lia.
Qed.

(** X16. A returned image never holds more than 76 rectangles: a row starts
    at least 216 pixels below the one before, so there are at most four, and
    a rectangle takes at least 76 pixels of a row, so each holds at most
    nineteen. *)
Theorem X16_at_most_76_rooms (bt : exn -> string) (py_repr : pyval -> string)
  (d : list (string * pyval)) (img : image) :
  valid_rooms (rooms_of d) ->
  generate_blueprint bt py_repr (PyDict d) = Png img ->
  (List.length (rects img) <= 76)%nat.
Proof.
  intros Hv H. destruct (image_rooms bt py_repr d img Hv H) as (s & T & Hp & Hsize).
  destruct (place_cursor_invariant within_capacity _ _ _
              (fun r0 c0 c1 Hr Hc Hs =>
                 within_capacity_step _ _ c0 r0 c1 (fun w h => Hsize r0 w h Hr) Hc Hs)
              start (rects img) within_capacity_start Hp)
    as (c' & (k & i & _ & _ & _ & _ & _ & _ & _ & Hmax) & ->).
  lia.
Qed.

Lemma X16_at_most_76_rooms_witness :
  (List.length (rects (Image (cur_drawn (cursor_after eighty_rooms 76))
                             "Total: 8000 sq.ft")) <= 76)%nat.
Proof.
  apply (X16_at_most_76_rooms cpython_text opaque_repr
           [("rooms", PyList eighty_rooms)]
           (Image (cur_drawn (cursor_after eighty_rooms 76)) "Total: 8000 sq.ft")).
  - repeat constructor.
  - vm_compute. reflexivity.
Defined.

(** ** Entries that leave no trace *)

Lemma blueprint_of_kept bt rp d ds :
  generate_blueprint bt rp (rooms_payload (map PyDict (d :: ds)))
  = render bt (kept_rooms rp (d :: ds)) (sum_areas (kept_rooms rp (d :: ds))).
Proof.
  unfold rooms_payload. cbn [map].
  rewrite (blueprint_rooms bt rp [("rooms", PyList (PyDict d :: map PyDict ds))]
             (PyDict d) (map PyDict ds) eq_refl).
  change (PyDict d :: map PyDict ds) with (map PyDict (d :: ds)).
  rewrite sanitize_dicts. reflexivity.
Qed.

(** X17. The answer to a non-empty list of room objects is a function of
    the kept rooms alone: entries whose area is not above 0 or cannot be
    converted, and keys other than "room" and "area", change nothing in the
    image, the footer or the status. *)
Theorem X17_answer_depends_on_kept_rooms (bt : exn -> string) (py_repr : pyval -> string)
  (ds1 ds2 : list (list (string * pyval))) :
  ds1 <> [] -> ds2 <> [] ->
  kept_rooms py_repr ds1 = kept_rooms py_repr ds2 ->
  generate_blueprint bt py_repr (rooms_payload (map PyDict ds1))
  = generate_blueprint bt py_repr (rooms_payload (map PyDict ds2)).
Proof.
  intros H1 H2 Hk.
  destruct ds1 as [|d1 ds1]; [now elim H1|]. destruct ds2 as [|d2 ds2]; [now elim H2|].
  rewrite !blueprint_of_kept, Hk. reflexivity.
Qed.

Lemma X17_answer_depends_on_kept_rooms_witness :
  generate_blueprint cpython_text opaque_repr
    (rooms_payload
       [PyDict [("room", PyStr "Hall"); ("area", PyInt 500); ("floor", PyInt 2)];
        PyDict [("room", PyStr "Void"); ("area", PyInt 0)];
        PyDict [("room", PyStr "Attic"); ("area", PyStr "n/a")];
        PyDict [("room", PyStr "Kitchen"); ("area", PyInt 100)]])
  = generate_blueprint cpython_text opaque_repr (rooms_payload hall_kitchen).
Proof.
  apply (X17_answer_depends_on_kept_rooms cpython_text opaque_repr
           [[("room", PyStr "Hall"); ("area", PyInt 500); ("floor", PyInt 2)];
            [("room", PyStr "Void"); ("area", PyInt 0)];
            [("room", PyStr "Attic"); ("area", PyStr "n/a")];
            [("room", PyStr "Kitchen"); ("area", PyInt 100)]]
           [[("room", PyStr "Hall"); ("area", PyInt 500)];
            [("room", PyStr "Kitchen"); ("area", PyInt 100)]]).
  - discriminate.
  - discriminate.
  - vm_compute. reflexivity.
Defined.

(** ** The flow of the rectangles *)

Lemma Sorted_snoc {A} (R : A -> A -> Prop) l x :
  Sorted R l ->
  match rev l with [] => True | y :: _ => R y x end ->
  Sorted R (l ++ [x]).
Proof.
  induction l as [|a l IH]; intros Hs Hx; simpl.
  - repeat constructor.
  - apply Sorted_inv in Hs. destruct Hs as [Hs Hhd].
    cbn [rev] in Hx. constructor.
    + apply IH; [exact Hs|].
      destruct (rev l) as [|y t]; [exact I|exact Hx].
    + destruct l as [|b l]; simpl.
      * constructor. exact Hx.
      * constructor. inversion Hhd; assumption.
Qed.

Lemma in_flow_step px T c r c' :
  in_flow c -> place_room px T c r = Ok (Some c') -> in_flow c'.
Proof.
  intros (Hm & Hsorted & Hlast) H.
  destruct (place_room_some px T c r c' H) as (w & h & text & Hw & Hh & _ & _ & ->).
  pose proof (room_height_min _ _ _ Hh) as Hh60.
  unfold in_flow, after_last in *. cbn [cur_x cur_y cur_max_row_height cur_drawn].
  rewrite rev_unit. cbn [rx ry rw rh].
  split; [lia|]. split; [|lia].
  apply Sorted_snoc; [exact Hsorted|].
  destruct (rev (cur_drawn c)) as [|rc t]; [exact I|].
  destruct Hlast as (Hy & Hx & Hrh).
  unfold next_to, tentative_x, tentative_y. cbn [rx ry rw rh].
  destruct (Z.gtb_spec (cur_x c + w + padding) img_w); [right|left]; unfold padding in *; lia.
Qed.

Lemma in_flow_start : in_flow start.
Proof. unfold in_flow, after_last, start. cbn. repeat split; [lia|constructor]. Qed.

(** X18. The rectangles flow from left to right with wrapping: each one is
    either in the row of the one drawn before it, starting exactly the
    padding after its right edge, or starts a new row at the left padding,
    at least the padding below it. *)
Theorem X18_rectangles_flow (bt : exn -> string) (py_repr : pyval -> string)
  (payload : pyval) (img : image) :
  generate_blueprint bt py_repr payload = Png img ->
  Sorted next_to (rects img).
Proof.
  intros H.
  destruct (blueprint_image bt py_repr payload img H)
    as (d & r & l & s & T & _ & _ & _ & _ & Hp & _).
  destruct (place_cursor_invariant in_flow _ _ _
              (fun r0 c0 c1 _ Hc Hs => in_flow_step _ _ c0 r0 c1 Hc Hs)
              start (rects img) in_flow_start Hp) as (c' & (_ & Hsorted & _) & ->).
  exact Hsorted.
Qed.

Lemma X18_rectangles_flow_witness :
  Sorted next_to
    [Rect 16 16 1065 433 ("Hall" ++ newline ++ "500 sq.ft");
     Rect 1097 16 213 246 ("Kitchen" ++ newline ++ "100 sq.ft")].
Proof.
  apply (X18_rectangles_flow cpython_text opaque_repr (rooms_payload hall_kitchen)
           (Image [Rect 16 16 1065 433 ("Hall" ++ newline ++ "500 sq.ft");
                   Rect 1097 16 213 246 ("Kitchen" ++ newline ++ "100 sq.ft")]
                  "Total: 600 sq.ft")).
  vm_compute. reflexivity.
Defined.
